(** * Call signaling and media control of the AppProvider context

    A shallow embedding of the WebRTC call core of the application context
    (the [AppProvider] component): the signaling broadcast handler,
    [sendSignal], the peer connection registry, the call actions
    ([startGroupCall], [addToCall], [acceptIncomingCall],
    [rejectIncomingCall], [endCall], [handleRemoteHangup], [cleanupCall])
    and the media toggles ([toggleMic], [toggleCamera],
    [toggleScreenShare], [stopScreenSharing], [renegotiate]).

    Modelling conventions.
    - React state and the refs that mirror it are one [State] record: every
      action runs to completion on the current state and the component
      re-renders between two actions, so a closure and the mirroring ref
      read the same value.  The [forEach(async ...)] of [startGroupCall]
      handles its recipients one after the other.
    - The browser and the backend are a [World]: what media capture, offer
      and answer creation, the channel send and the database inserts
      answer during one action.  A rejected promise is a [Thrown]
      completion, caught where the source has a [try]/[catch]; an insert
      answers with an error value, as the source reads it.
    - Everything an action does to the outside is recorded in a trace of
      [Effect]s, in program order.  A [sendSignal] call is recorded with
      what became of it, also when the envelope is dropped.
    - An [RTCPeerConnection] is modelled by what the code reads back from
      it: its transceivers.  A sender holds the track object the local
      stream holds; the registry records it by the track's id, so that the
      [enabled] flag [toggleMic] sets on the tracks of the local stream is
      the flag of the tracks the senders hold.  Negotiation state stays
      inside the browser, and [replaceTrack] and [addTrack] on a registered
      connection succeed.
    - The remote streams ([remoteStreams], filled by [ontrack]) and the
      task, chat and admin parts of the context play no part in the call
      state and are left out of [State].  The task board ([addTask],
      [moveTask], the realtime echo of the tasks table), the chat
      ([getUnreadCount], [markChatRead], [clearChatHistory],
      [createGroup]) and [deleteProject] are modelled after the call core,
      as functions of the lists they read and of the backend's answers. *)

From Stdlib Require Import String List Bool ZArith Lia Permutation Sorted DecimalString.
Import ListNotations.
Local Open Scope string_scope.
Local Open Scope list_scope.

(** ** Data model *)

Definition UserId := string.
Definition Sdp := string.
Definition IceCandidate := string.

Inductive TrackKind := Audio | Video.

Definition TrackKind_eqb (a b : TrackKind) : bool :=
  match a, b with
  | Audio, Audio | Video, Video => true
  | _, _ => false
  end.

(** A [MediaStreamTrack]: [displaySurface] is [getSettings().displaySurface]. *)
Record MediaStreamTrack := mkTrack {
  trackId : nat;
  kind : TrackKind;
  label : string;
  displaySurface : option string;
  enabled : bool
}.

Definition MediaStream := list MediaStreamTrack.

(** A transceiver: the kind of its receiver's track and the track its
    sender holds.  The sender holds the track object itself, the one the
    local stream holds, not a copy of it: the registry records the track by
    its id, and what a sender sends is read through that id in the local
    stream (see [heldTracks]).  A flag set on a track of the local stream is
    thereby set for every sender that holds the track. *)
Record Transceiver := mkTransceiver {
  receiverKind : TrackKind;
  senderTrack : option nat
}.

Record RTCPeerConnection := mkPc { transceivers : list Transceiver }.

Inductive SignalType := USER_ONLINE | OFFER | ANSWER | CANDIDATE | HANGUP.

Record Payload := mkPayload {
  sdp : option Sdp;
  candidate : option IceCandidate
}.

Definition emptyPayload : Payload := mkPayload None None.
Definition sdpPayload (s : Sdp) : Payload := mkPayload (Some s) None.

Record SignalData := mkSignal {
  sigType : SignalType;
  senderId : UserId;
  recipientId : option UserId;
  payload : Payload
}.

Record IncomingCall := mkIncoming {
  callerId : UserId;
  timestamp : Z;
  offer : option Sdp
}.

Record User := mkUser { userId : UserId; userName : string }.

(** Rows handed to the persistence collaborator.  An id is the prefix, the
    clock reading and the random number the source concatenates. *)
Record RowId := mkRowId { idPrefix : string; idClock : Z; idRandom : Z }.

Inductive NotificationType := MISSED_CALL.

Record NotificationRow := mkNotification {
  n_id : RowId;
  n_recipient_id : UserId;
  n_sender_id : UserId;
  n_type : NotificationType;
  n_title : string;
  n_message : string;
  n_timestamp : Z;
  n_read : bool;
  n_link_to : UserId
}.

Record MessageRow := mkMessage {
  m_id : RowId;
  m_sender_id : UserId;
  m_recipient_id : UserId;
  m_text : string;
  m_timestamp : Z;
  m_type : string;
  m_attachments : list string
}.

(** The peer connection registry is a JS [Map]: insertion ordered, one
    entry per key, [set] on a present key keeps its position. *)
Definition Registry := list (UserId * RTCPeerConnection).

Fixpoint registry_get (r : Registry) (k : UserId) : option RTCPeerConnection :=
  match r with
  | [] => None
  | (k', pc) :: rest => if String.eqb k' k then Some pc else registry_get rest k
  end.

Fixpoint registry_set (r : Registry) (k : UserId) (pc : RTCPeerConnection) : Registry :=
  match r with
  | [] => [(k, pc)]
  | (k', pc') :: rest =>
      if String.eqb k' k then (k', pc) :: rest
      else (k', pc') :: registry_set rest k pc
  end.

Fixpoint registry_delete (r : Registry) (k : UserId) : Registry :=
  match r with
  | [] => []
  | (k', pc') :: rest =>
      if String.eqb k' k then rest else (k', pc') :: registry_delete rest k
  end.

Definition registry_size (r : Registry) : nat := length r.

Record State := mkState {
  currentUser : option UserId;
  users : list User;
  incomingCall : option IncomingCall;
  isInCall : bool;
  activeCallData : option (list UserId);
  localStream : option MediaStream;
  isScreenSharing : bool;
  isMicOn : bool;
  isCameraOn : bool;
  peerConnections : Registry;
  signalingChannel : bool;
  isSignalingConnected : bool
}.

(** What became of one [sendSignal] call: handed to the channel and
    resolved, handed to the channel and rejected (a warning is logged),
    dropped because the channel is not subscribed, or dropped for want of a
    channel.  The last two leave no observable effect; the trace keeps the
    call. *)
Inductive Delivery := Broadcast | SendFailed | NotConnected | NoChannel.

Inductive Effect :=
| ESignal (sig : SignalData) (d : Delivery)
| EGetUserMedia (audio video granted : bool)
| EGetDisplayMedia (granted : bool)
| EInsertNotification (row : NotificationRow) (ok : bool)
| EInsertMessage (row : MessageRow) (ok : bool)
| EConsole (msg : string)
| EAlert (msg : string)
| ETrackStop (id : nat)
| EPcClose (peer : UserId).

(** The answers of the browser and of the backend during one action.
    [None] or [false] is a rejected promise or a returned error.  The clock
    [now] does not advance within one action; [random n] is the [n]-th
    [Math.random()] of the action. *)
Record World := mkWorld {
  now : Z;
  random : nat -> Z;
  micCapture : option (list (nat * string));
  cameraCapture : option (nat * string);
  displayCapture : option (nat * string * option string);
  createOffer : UserId -> option Sdp;
  createAnswer : UserId -> Sdp -> option Sdp;
  acceptAnswer : UserId -> Sdp -> bool;
  addIceCandidate : UserId -> IceCandidate -> bool;
  channelSend : bool;
  insertNotification : bool;
  insertMessage : bool
}.

(** ** The action monad: state, trace and exceptions *)

Inductive Completion (A : Type) :=
| Returned (a : A)
| Thrown.
Arguments Returned {A} a.
Arguments Thrown {A}.

Record Run (A : Type) := mkRun {
  outcome : Completion A;
  final : State;
  trace : list Effect
}.
Arguments mkRun {A} _ _ _.
Arguments outcome {A} _.
Arguments final {A} _.
Arguments trace {A} _.

Definition Action (A : Type) := State -> Run A.

Definition ret {A} (a : A) : Action A := fun st => mkRun (Returned a) st [].

Definition bind {A B} (c : Action A) (k : A -> Action B) : Action B :=
  fun st =>
    match c st with
    | mkRun (Returned a) st1 t1 =>
        match k a st1 with
        | mkRun o st2 t2 => mkRun o st2 (t1 ++ t2)
        end
    | mkRun Thrown st1 t1 => mkRun Thrown st1 t1
    end.

Definition throw {A} : Action A := fun st => mkRun Thrown st [].

Definition try_catch (c : Action unit) (handler : Action unit) : Action unit :=
  fun st =>
    match c st with
    | mkRun (Returned a) st1 t1 => mkRun (Returned a) st1 t1
    | mkRun Thrown st1 t1 =>
        match handler st1 with
        | mkRun o st2 t2 => mkRun o st2 (t1 ++ t2)
        end
    end.

Definition get : Action State := fun st => mkRun (Returned st) st [].
Definition modify (f : State -> State) : Action unit :=
  fun st => mkRun (Returned tt) (f st) [].
Definition emit (e : Effect) : Action unit :=
  fun st => mkRun (Returned tt) st [e].

Declare Scope action_scope.
Delimit Scope action_scope with action.
Notation "x <- c ;; k" := (bind c (fun x => k))
  (at level 61, c at next level, right associativity) : action_scope.
Notation "c ;; k" := (bind c (fun _ => k))
  (at level 61, right associativity) : action_scope.
Local Open Scope action_scope.

Fixpoint forEach {A} (l : list A) (body : A -> Action unit) : Action unit :=
  match l with
  | [] => ret tt
  | x :: rest => body x ;; forEach rest body
  end.

(** ** State setters *)

Definition set_currentUser (v : option UserId) (s : State) : State :=
  mkState v (users s) (incomingCall s) (isInCall s) (activeCallData s)
    (localStream s) (isScreenSharing s) (isMicOn s) (isCameraOn s)
    (peerConnections s) (signalingChannel s) (isSignalingConnected s).
Definition set_incomingCall (v : option IncomingCall) (s : State) : State :=
  mkState (currentUser s) (users s) v (isInCall s) (activeCallData s)
    (localStream s) (isScreenSharing s) (isMicOn s) (isCameraOn s)
    (peerConnections s) (signalingChannel s) (isSignalingConnected s).
Definition set_isInCall (v : bool) (s : State) : State :=
  mkState (currentUser s) (users s) (incomingCall s) v (activeCallData s)
    (localStream s) (isScreenSharing s) (isMicOn s) (isCameraOn s)
    (peerConnections s) (signalingChannel s) (isSignalingConnected s).
Definition set_activeCallData (v : option (list UserId)) (s : State) : State :=
  mkState (currentUser s) (users s) (incomingCall s) (isInCall s) v
    (localStream s) (isScreenSharing s) (isMicOn s) (isCameraOn s)
    (peerConnections s) (signalingChannel s) (isSignalingConnected s).
Definition set_localStream (v : option MediaStream) (s : State) : State :=
  mkState (currentUser s) (users s) (incomingCall s) (isInCall s) (activeCallData s)
    v (isScreenSharing s) (isMicOn s) (isCameraOn s)
    (peerConnections s) (signalingChannel s) (isSignalingConnected s).
Definition set_isScreenSharing (v : bool) (s : State) : State :=
  mkState (currentUser s) (users s) (incomingCall s) (isInCall s) (activeCallData s)
    (localStream s) v (isMicOn s) (isCameraOn s)
    (peerConnections s) (signalingChannel s) (isSignalingConnected s).
Definition set_isMicOn (v : bool) (s : State) : State :=
  mkState (currentUser s) (users s) (incomingCall s) (isInCall s) (activeCallData s)
    (localStream s) (isScreenSharing s) v (isCameraOn s)
    (peerConnections s) (signalingChannel s) (isSignalingConnected s).
Definition set_isCameraOn (v : bool) (s : State) : State :=
  mkState (currentUser s) (users s) (incomingCall s) (isInCall s) (activeCallData s)
    (localStream s) (isScreenSharing s) (isMicOn s) v
    (peerConnections s) (signalingChannel s) (isSignalingConnected s).
Definition set_peerConnections (v : Registry) (s : State) : State :=
  mkState (currentUser s) (users s) (incomingCall s) (isInCall s) (activeCallData s)
    (localStream s) (isScreenSharing s) (isMicOn s) (isCameraOn s)
    v (signalingChannel s) (isSignalingConnected s).
Definition set_signalingChannel (v : bool) (s : State) : State :=
  mkState (currentUser s) (users s) (incomingCall s) (isInCall s) (activeCallData s)
    (localStream s) (isScreenSharing s) (isMicOn s) (isCameraOn s)
    (peerConnections s) v (isSignalingConnected s).
Definition set_isSignalingConnected (v : bool) (s : State) : State :=
  mkState (currentUser s) (users s) (incomingCall s) (isInCall s) (activeCallData s)
    (localStream s) (isScreenSharing s) (isMicOn s) (isCameraOn s)
    (peerConnections s) (signalingChannel s) v.

Definition setIncomingCall v : Action unit := modify (set_incomingCall v).
Definition setIsInCall v : Action unit := modify (set_isInCall v).
Definition setActiveCallData (f : option (list UserId) -> option (list UserId)) : Action unit :=
  modify (fun s => set_activeCallData (f (activeCallData s)) s).
Definition setLocalStream v : Action unit := modify (set_localStream v).
Definition setIsScreenSharing v : Action unit := modify (set_isScreenSharing v).
Definition setIsMicOn v : Action unit := modify (set_isMicOn v).
Definition setIsCameraOn v : Action unit := modify (set_isCameraOn v).
Definition setPeerConnections (f : Registry -> Registry) : Action unit :=
  modify (fun s => set_peerConnections (f (peerConnections s)) s).

Definition emitAll (es : list Effect) : Action unit :=
  fun st => mkRun (Returned tt) st es.

(** ** Media streams and peer connections *)

Definition isSome {A} (o : option A) : bool :=
  match o with Some _ => true | None => false end.

Definition isAudio (t : MediaStreamTrack) : bool := TrackKind_eqb (kind t) Audio.
Definition isVideo (t : MediaStreamTrack) : bool := TrackKind_eqb (kind t) Video.

Definition getAudioTracks (s : MediaStream) : MediaStream := filter isAudio s.
Definition getVideoTracks (s : MediaStream) : MediaStream := filter isVideo s.

(** [String.prototype.includes]. *)
Fixpoint includes (needle hay : string) : bool :=
  if String.prefix needle hay then true
  else match hay with
       | EmptyString => false
       | String _ rest => includes needle rest
       end.

(** A JS string used as a condition: the empty string is falsy. *)
Definition truthy (s : string) : bool := negb (String.eqb s "").

(** [track.label.includes('screen') || track.getSettings().displaySurface] *)
Definition isScreenTrack (t : MediaStreamTrack) : bool :=
  includes "screen" (label t) ||
  match displaySurface t with Some d => truthy d | None => false end.

(** [MediaStream.addTrack]: a track already in the stream is not added twice. *)
Definition addTrack (t : MediaStreamTrack) (s : MediaStream) : MediaStream :=
  if existsb (fun t' => Nat.eqb (trackId t') (trackId t)) s then s else s ++ [t].

Definition setAudioEnabled (b : bool) (s : MediaStream) : MediaStream :=
  map (fun t => if isAudio t
                then mkTrack (trackId t) (kind t) (label t) (displaySurface t) b
                else t) s.

(** The stream [getUserMedia({ video: false, audio: true })] resolves with,
    after the source has disabled its audio tracks. *)
Definition mutedStream (devs : list (nat * string)) : MediaStream :=
  setAudioEnabled false
    (map (fun d => mkTrack (fst d) Audio (snd d) None true) devs).

Definition isVideoTransceiver (t : Transceiver) : bool :=
  TrackKind_eqb (receiverKind t) Video.

Fixpoint replaceFirstVideo (ts : list Transceiver) (tr : option nat)
  : list Transceiver :=
  match ts with
  | [] => []
  | t :: rest =>
      if isVideoTransceiver t then mkTransceiver (receiverKind t) tr :: rest
      else t :: replaceFirstVideo rest tr
  end.

Definition pc_addTrack (t : MediaStreamTrack) (pc : RTCPeerConnection) : RTCPeerConnection :=
  mkPc (transceivers pc ++ [mkTransceiver (kind t) (Some (trackId t))]).

(** The per-peer body of the "update peers" loops: replace the track of the
    video transceiver's sender when there is one, else add the track. *)
Definition attachVideo (t : MediaStreamTrack) (pc : RTCPeerConnection) : RTCPeerConnection :=
  if existsb isVideoTransceiver (transceivers pc)
  then mkPc (replaceFirstVideo (transceivers pc) (Some (trackId t)))
  else pc_addTrack t pc.

Definition detachVideo (pc : RTCPeerConnection) : RTCPeerConnection :=
  if existsb isVideoTransceiver (transceivers pc)
  then mkPc (replaceFirstVideo (transceivers pc) None)
  else pc.

Definition forEachPeer (f : RTCPeerConnection -> RTCPeerConnection) : Action unit :=
  setPeerConnections (map (fun e => (fst e, f (snd e)))).

(** [localStream.addTrack(t)] on the stream object the state holds. *)
Definition addLocalTrack (t : MediaStreamTrack) : Action unit :=
  modify (fun s => set_localStream (option_map (addTrack t) (localStream s)) s).

(** [localStream.getVideoTracks().forEach(t => { if (p t) { t.stop();
    localStream.removeTrack(t) } })] *)
Definition stopVideoTracks (p : MediaStreamTrack -> bool) : Action unit :=
  st <- get ;;
  match localStream st with
  | None => ret tt
  | Some s =>
      emitAll (map (fun t => ETrackStop (trackId t)) (filter p (getVideoTracks s))) ;;
      setLocalStream (Some (filter (fun t => negb (isVideo t && p t)) s))
  end.

(** ** Signaling transport *)

Definition sendSignal (w : World) (ty : SignalType) (to : option UserId) (p : Payload)
  : Action unit :=
  st <- get ;;
  match currentUser st with
  | None => ret tt
  | Some me =>
      let sig := mkSignal ty me to p in
      if negb (signalingChannel st) then emit (ESignal sig NoChannel)
      else if negb (isSignalingConnected st) then emit (ESignal sig NotConnected)
      else if channelSend w then emit (ESignal sig Broadcast)
      else emit (ESignal sig SendFailed) ;; emit (EConsole "Error sending signal:")
  end.

(** ** Peer connection registry and negotiation *)

Definition createPeerConnection (recipient : UserId) : Action unit :=
  setPeerConnections (fun r => registry_set r recipient (mkPc [])).

(** [stream.getTracks().forEach(track => pc.addTrack(track, stream))] on the
    connection just registered for [recipient]. *)
Definition addTracksToPc (recipient : UserId) (stream : MediaStream) : Action unit :=
  setPeerConnections (fun r =>
    match registry_get r recipient with
    | Some pc => registry_set r recipient (fold_left (fun p t => pc_addTrack t p) stream pc)
    | None => r
    end).

(** [createOffer], [setLocalDescription], then [sendSignal('OFFER', ...)]. *)
Definition offerTo (w : World) (recipient : UserId) : Action unit :=
  match createOffer w recipient with
  | Some o => sendSignal w OFFER (Some recipient) (sdpPayload o)
  | None => throw
  end.

Definition renegotiate (w : World) : Action unit :=
  st <- get ;;
  match localStream st with
  | None => ret tt
  | Some _ =>
      forEach (peerConnections st) (fun e =>
        try_catch (offerTo w (fst e)) (emit (EConsole "Renegotiation failed")))
  end.

(** The [onicecandidate] callback [createPeerConnection] installs on the
    connection of [recipient], for a discovered candidate. *)
Definition onicecandidate (w : World) (recipient : UserId) (c : IceCandidate) : Action unit :=
  sendSignal w CANDIDATE (Some recipient) (mkPayload None (Some c)).

(** ** Call teardown *)

Definition cleanupCall : Action unit :=
  st <- get ;;
  emitAll (map (fun t => ETrackStop (trackId t))
               (match localStream st with Some s => s | None => [] end)) ;;
  emitAll (map (fun e => EPcClose (fst e)) (peerConnections st)) ;;
  setPeerConnections (fun _ => []) ;;
  setLocalStream None ;;
  setIsInCall false ;;
  setActiveCallData (fun _ => None) ;;
  setIsScreenSharing false ;;
  setIsMicOn false ;;
  setIsCameraOn false.

Definition handleRemoteHangup (sender : UserId) : Action unit :=
  st <- get ;;
  match registry_get (peerConnections st) sender with
  | Some _ =>
      emit (EPcClose sender) ;;
      setPeerConnections (fun r => registry_delete r sender)
  | None => ret tt
  end ;;
  st' <- get ;;
  match activeCallData st' with
  | None => ret tt
  | Some ids =>
      match filter (fun id => negb (String.eqb id sender)) ids with
      | [] => cleanupCall ;; setActiveCallData (fun _ => None)
      | newIds => setActiveCallData (fun _ => Some newIds)
      end
  end.

(** ** Media toggles *)

Definition toggleMic (w : World) : Action unit :=
  st <- get ;;
  match localStream st with
  | None => ret tt
  | Some s =>
      match getAudioTracks s with
      | [] => emit (EConsole "No audio tracks found to toggle.")
      | _ =>
          let newStatus := negb (isMicOn st) in
          (* audioTracks.forEach(t => t.enabled = newStatus), in place: the
             senders of the peer connections hold these very tracks *)
          setLocalStream (Some (setAudioEnabled newStatus s)) ;;
          setIsMicOn newStatus ;;
          if newStatus then renegotiate w else ret tt
      end
  end.

Definition stopScreenSharing (w : World) : Action unit :=
  st <- get ;;
  if Nat.eqb (registry_size (peerConnections st)) 0 || negb (isSome (localStream st))
  then ret tt
  else
    try_catch
      (stopVideoTracks isScreenTrack ;;
       setIsScreenSharing false ;;
       setIsCameraOn false ;;
       forEachPeer detachVideo ;;
       renegotiate w)
      (emit (EConsole "Error stopping screen share:")).

Definition toggleCamera (w : World) : Action unit :=
  st <- get ;;
  match localStream st with
  | None => ret tt
  | Some _ =>
      if isCameraOn st then
        stopVideoTracks (fun t => negb (isScreenTrack t)) ;;
        setIsCameraOn false ;;
        forEachPeer detachVideo
      else
        try_catch
          (match cameraCapture w with
           | None => emit (EGetUserMedia false true false) ;; throw
           | Some cam =>
               emit (EGetUserMedia false true true) ;;
               let videoTrack := mkTrack (fst cam) Video (snd cam) None true in
               (if isScreenSharing st then stopScreenSharing w else ret tt) ;;
               addLocalTrack videoTrack ;;
               setIsCameraOn true ;;
               forEachPeer (attachVideo videoTrack) ;;
               renegotiate w
           end)
          (emit (EConsole "Failed to access camera"))
  end.

Definition toggleScreenShare (w : World) : Action unit :=
  st <- get ;;
  if Nat.eqb (registry_size (peerConnections st)) 0 || negb (isSome (localStream st))
  then ret tt
  else if isScreenSharing st then stopScreenSharing w
  else
    try_catch
      (match displayCapture w with
       | None => emit (EGetDisplayMedia false) ;; throw
       | Some (id, lbl, surface) =>
           emit (EGetDisplayMedia true) ;;
           let screenTrack := mkTrack id Video lbl surface true in
           (if isCameraOn st
            then stopVideoTracks (fun _ => true) ;; setIsCameraOn false
            else ret tt) ;;
           addLocalTrack screenTrack ;;
           forEachPeer (attachVideo screenTrack) ;;
           setIsScreenSharing true ;;
           renegotiate w
       end)
      (emit (EConsole "Error starting screen share:")).

(** ** Call actions *)

(** The body shared by [startGroupCall] and [initiateCallConnection]:
    register a connection, add the local tracks, offer. *)
Definition callPeer (w : World) (recipient : UserId) (stream : MediaStream) : Action unit :=
  createPeerConnection recipient ;;
  addTracksToPc recipient stream ;;
  offerTo w recipient.

Definition startGroupCall (w : World) (recipientIds : list UserId) : Action unit :=
  st <- get ;;
  if negb (isSome (currentUser st)) || Nat.eqb (length recipientIds) 0 then ret tt
  else
    acquired <-
      match localStream st with
      | Some s => ret (Some s)
      | None =>
          match micCapture w with
          | Some devs =>
              emit (EGetUserMedia true false true) ;;
              setIsMicOn false ;;
              setIsCameraOn false ;;
              setLocalStream (Some (mutedStream devs)) ;;
              ret (Some (mutedStream devs))
          | None =>
              emit (EGetUserMedia true false false) ;;
              emit (EConsole "Error getting user media") ;;
              emit (EAlert "Could not access microphone. Call cannot start.") ;;
              ret None
          end
      end ;;
    match acquired with
    | None => ret tt
    | Some stream =>
        setIsInCall true ;;
        setActiveCallData (fun _ => Some recipientIds) ;;
        forEach recipientIds (fun recipient =>
          try_catch (callPeer w recipient stream)
                    (emit (EConsole ("Failed to call " ++ recipient))))
    end.

Definition startCall (w : World) (recipientId : UserId) : Action unit :=
  startGroupCall w [recipientId].

Definition initiateCallConnection (w : World) (recipient : UserId) : Action unit :=
  try_catch
    (st <- get ;;
     match localStream st with
     | Some s => callPeer w recipient s
     | None =>
         match micCapture w with
         | Some devs =>
             emit (EGetUserMedia true false true) ;;
             setLocalStream (Some (mutedStream devs)) ;;
             setIsMicOn false ;;
             callPeer w recipient (mutedStream devs)
         | None =>
             emit (EGetUserMedia true false false) ;;
             emit (EConsole "No audio device found")
         end
     end)
    (emit (EConsole "Error initiating connection:")).

Definition addToCall (w : World) (recipient : UserId) : Action unit :=
  st <- get ;;
  if negb (isSome (currentUser st)) || negb (isInCall st) || negb (isSome (activeCallData st))
  then ret tt
  else
    initiateCallConnection w recipient ;;
    setActiveCallData (fun prev =>
      match prev with
      | Some ids => Some (ids ++ [recipient])
      | None => None
      end).

Definition acceptIncomingCall (w : World) : Action unit :=
  st <- get ;;
  match incomingCall st, currentUser st with
  | Some call, Some _ =>
      try_catch
        (match micCapture w with
         | None =>
             emit (EGetUserMedia true false false) ;;
             emit (EConsole "Could not access microphone")
         | Some devs =>
             emit (EGetUserMedia true false true) ;;
             setIsMicOn false ;;
             setIsCameraOn false ;;
             setLocalStream (Some (mutedStream devs)) ;;
             createPeerConnection (callerId call) ;;
             addTracksToPc (callerId call) (mutedStream devs) ;;
             match offer call with
             | Some o =>
                 match createAnswer w (callerId call) o with
                 | Some a => sendSignal w ANSWER (Some (callerId call)) (sdpPayload a)
                 | None => throw
                 end
             | None => ret tt
             end ;;
             setIsInCall true ;;
             setActiveCallData (fun _ => Some [callerId call]) ;;
             setIncomingCall None
         end)
        (emit (EConsole "Error accepting call:"))
  | _, _ => ret tt
  end.

Definition rejectIncomingCall (w : World) : Action unit :=
  st <- get ;;
  match incomingCall st, currentUser st with
  | Some call, Some _ =>
      sendSignal w HANGUP (Some (callerId call)) emptyPayload ;;
      setIncomingCall None
  | _, _ => ret tt
  end.

Definition endCall (w : World) : Action unit :=
  st <- get ;;
  match activeCallData st, currentUser st with
  | Some ids, Some _ =>
      forEach ids (fun pid => sendSignal w HANGUP (Some pid) emptyPayload)
  | _, _ => ret tt
  end ;;
  cleanupCall.

(** ** The signaling broadcast handler *)

Definition SignalType_eqb (a b : SignalType) : bool :=
  match a, b with
  | USER_ONLINE, USER_ONLINE | OFFER, OFFER | ANSWER, ANSWER
  | CANDIDATE, CANDIDATE | HANGUP, HANGUP => true
  | _, _ => false
  end.

(** [participantIds.includes(id)] *)
Definition includesId (ids : list UserId) (id : UserId) : bool :=
  existsb (String.eqb id) ids.

(** [recipientId && recipientId !== currentUser.id && type !== 'USER_ONLINE'] *)
Definition notForUs (me : UserId) (sig : SignalData) : bool :=
  match recipientId sig with
  | Some r => truthy r && negb (String.eqb r me)
              && negb (SignalType_eqb (sigType sig) USER_ONLINE)
  | None => false
  end.

Definition missedCallNotification (w : World) (me sender : UserId) (callerName : string)
  : NotificationRow :=
  mkNotification (mkRowId "n-" (now w) (random w 0)) me sender MISSED_CALL
    "Missed Call" ("You missed a call from " ++ callerName) (now w) false sender.

Definition missedCallMessage (w : World) (me sender : UserId) : MessageRow :=
  mkMessage (mkRowId "m-" (now w) (random w 1)) sender me "Missed Call" (now w)
    "missed_call" [].

(** [caller ? caller.name : 'Unknown User'] for
    [caller = usersList.find(u => u.id === senderId)] *)
Definition callerName (us : list User) (sender : UserId) : string :=
  match find (fun u => String.eqb (userId u) sender) us with
  | Some u => userName u
  | None => "Unknown User"
  end.

Definition missedCall (w : World) (me sender : UserId) : Action unit :=
  st <- get ;;
  emit (EInsertNotification
          (missedCallNotification w me sender (callerName (users st) sender))
          (insertNotification w)) ;;
  (if insertNotification w then ret tt
   else emit (EConsole "Error creating missed call notification:")) ;;
  emit (EInsertMessage (missedCallMessage w me sender) (insertMessage w)) ;;
  (if insertMessage w then ret tt
   else emit (EConsole "Error creating missed call message:")) ;;
  setIncomingCall None.

Definition onSignal (w : World) (sig : SignalData) : Action unit :=
  st <- get ;;
  match currentUser st with
  | None => ret tt
  | Some me =>
      let sender := senderId sig in
      if notForUs me sig then ret tt
      else if String.eqb sender me then ret tt
      else
        match sigType sig with
        | USER_ONLINE => ret tt
        | OFFER =>
            let isParticipant :=
              match activeCallData st with
              | Some ids => includesId ids sender
              | None => false
              end in
            if isInCall st && negb isParticipant then ret tt
            else if isInCall st && isParticipant then
              match registry_get (peerConnections st) sender with
              | Some _ =>
                  match sdp (payload sig) with
                  | Some remote =>
                      match createAnswer w sender remote with
                      | Some a => sendSignal w ANSWER (Some sender) (sdpPayload a)
                      | None => throw
                      end
                  | None => throw
                  end
              | None => ret tt
              end
            else
              setIncomingCall (Some (mkIncoming sender (now w) (sdp (payload sig))))
        | ANSWER =>
            match registry_get (peerConnections st) sender with
            | Some _ =>
                match sdp (payload sig) with
                | Some remote => if acceptAnswer w sender remote then ret tt else throw
                | None => throw
                end ;;
                setActiveCallData (fun prev =>
                  match prev with
                  | None => None
                  | Some ids =>
                      if includesId ids sender then Some ids else Some (ids ++ [sender])
                  end)
            | None => ret tt
            end
        | CANDIDATE =>
            match registry_get (peerConnections st) sender, candidate (payload sig) with
            | Some _, Some c =>
                if addIceCandidate w sender c then ret tt
                else emit (EConsole "Error adding ice candidate")
            | _, _ => ret tt
            end
        | HANGUP =>
            match incomingCall st with
            | Some call =>
                if String.eqb (callerId call) sender then missedCall w me sender
                else ret tt
            | None => ret tt
            end ;;
            handleRemoteHangup sender
        end
  end.

(** The [subscribe] status callback of the signaling channel.  The presence
    announcement the source delays by a timer is sent within the action. *)
Definition onChannelStatus (w : World) (subscribed : bool) : Action unit :=
  st <- get ;;
  match currentUser st with
  | None => ret tt
  | Some _ =>
      if subscribed then
        modify (set_isSignalingConnected true) ;;
        sendSignal w USER_ONLINE None emptyPayload
      else modify (set_isSignalingConnected false)
  end.

(** ** Session *)

(** [login] and the signaling effect it re-runs: the effect of the previous
    user is cleaned up, a new channel is created. *)
Definition login (u : UserId) : Action unit :=
  st <- get ;;
  (if isSome (currentUser st) then modify (set_isSignalingConnected false) else ret tt) ;;
  modify (set_currentUser (Some u)) ;;
  modify (set_signalingChannel true).

Definition logout : Action unit :=
  st <- get ;;
  modify (set_currentUser None) ;;
  setIncomingCall None ;;
  setIsInCall false ;;
  cleanupCall ;;
  (if isSome (currentUser st) then modify (set_isSignalingConnected false) else ret tt).

(** ** Sequences of actions *)

Inductive Op :=
| Login (u : UserId)
| Logout
| ChannelStatus (subscribed : bool)
| Signal (sig : SignalData)
| StartCall (recipient : UserId)
| StartGroupCall (recipients : list UserId)
| AddToCall (recipient : UserId)
| AcceptIncomingCall
| RejectIncomingCall
| EndCall
| ToggleMic
| ToggleCamera
| ToggleScreenShare
| ScreenTrackEnded
| IceCandidateFound (peer : UserId) (c : IceCandidate).

Definition step (w : World) (op : Op) : Action unit :=
  match op with
  | Login u => login u
  | Logout => logout
  | ChannelStatus b => onChannelStatus w b
  | Signal sig => onSignal w sig
  | StartCall r => startCall w r
  | StartGroupCall rs => startGroupCall w rs
  | AddToCall r => addToCall w r
  | AcceptIncomingCall => acceptIncomingCall w
  | RejectIncomingCall => rejectIncomingCall w
  | EndCall => endCall w
  | ToggleMic => toggleMic w
  | ToggleCamera => toggleCamera w
  | ToggleScreenShare => toggleScreenShare w
  | ScreenTrackEnded => stopScreenSharing w
  | IceCandidateFound peer c => onicecandidate w peer c
  end.

(** The state after a sequence of actions, each with the world it ran in.
    An action that ends in an unhandled rejection leaves the state it had
    reached; the event loop goes on. *)
Fixpoint run (ops : list (World * Op)) (st : State) : State :=
  match ops with
  | [] => st
  | (w, op) :: rest => run rest (final (step w op st))
  end.

Fixpoint runTrace (ops : list (World * Op)) (st : State) : list Effect :=
  match ops with
  | [] => []
  | (w, op) :: rest => trace (step w op st) ++ runTrace rest (final (step w op st))
  end.

(** The state at mount: the user restored from local storage, if any, with
    the signaling channel the effect creates for them. *)
Definition initialState (stored : option UserId) (us : list User) : State :=
  mkState stored us None false None None false false false [] (isSome stored) false.

(** ** Call phase *)

Inductive Phase := Idle | IncomingPending | Active.

Definition phase (st : State) : Phase :=
  if isInCall st then Active
  else if isSome (incomingCall st) then IncomingPending
  else Idle.

Definition activeParticipants (st : State) : list UserId :=
  match activeCallData st with
  | Some ids => ids
  | None => []
  end.

(** ** What the auxiliary actions do

    The trace and the state each auxiliary action produces, as functions of
    the state it starts in. *)

(** The fate of a send, as [sendSignal] decides it. *)
Definition delivery (w : World) (st : State) : Delivery :=
  if negb (signalingChannel st) then NoChannel
  else if negb (isSignalingConnected st) then NotConnected
  else if channelSend w then Broadcast
  else SendFailed.

(** The trace of [sendSignal]: the send and, when it failed, the warning. *)
Definition signalTrace (w : World) (ty : SignalType) (to : option UserId) (p : Payload)
  (st : State) : list Effect :=
  match currentUser st with
  | None => []
  | Some me =>
      ESignal (mkSignal ty me to p) (delivery w st) ::
      match delivery w st with
      | SendFailed => [EConsole "Error sending signal:"]
      | _ => []
      end
  end.

(** The trace of [offerTo]. *)
Definition offerTrace (w : World) (st : State) (peer : UserId) : list Effect :=
  match createOffer w peer with
  | Some o => signalTrace w OFFER (Some peer) (sdpPayload o) st
  | None => []
  end.

(** What one peer contributes to a renegotiation round. *)
Definition renegotiateWith (w : World) (st : State) (peer : UserId) : list Effect :=
  match createOffer w peer with
  | Some o => signalTrace w OFFER (Some peer) (sdpPayload o) st
  | None => [EConsole "Renegotiation failed"]
  end.

(** The trace of [renegotiate]: every registry entry in turn. *)
Definition renegotiateTrace (w : World) (st : State) : list Effect :=
  match localStream st with
  | None => []
  | Some _ => flat_map (fun e => renegotiateWith w st (fst e)) (peerConnections st)
  end.

(** The registry after [callPeer]: a fresh connection carrying the stream's
    tracks, at the recipient's key. *)
Definition registerCall (recipient : UserId) (stream : MediaStream) (r : Registry) : Registry :=
  let r1 := registry_set r recipient (mkPc []) in
  match registry_get r1 recipient with
  | Some pc => registry_set r1 recipient (fold_left (fun p t => pc_addTrack t p) stream pc)
  | None => r1
  end.

(** What one recipient contributes to the trace of [startGroupCall]. *)
Definition callTrace (w : World) (st : State) (recipient : UserId) : list Effect :=
  match createOffer w recipient with
  | Some o => signalTrace w OFFER (Some recipient) (sdpPayload o) st
  | None => [EConsole ("Failed to call " ++ recipient)]
  end.

(** The state once every recipient of [startGroupCall] has been called. *)
Definition called (recipients : list UserId) (stream : MediaStream) (st : State) : State :=
  set_peerConnections
    (fold_left (fun r x => registerCall x stream r) recipients (peerConnections st)) st.

(** [setIsInCall(true); setActiveCallData({ participantIds })] *)
Definition inCallWith (recipients : list UserId) (st : State) : State :=
  set_activeCallData (Some recipients) (set_isInCall true st).

(** The trace of [missedCall]: both inserts, each followed by its error log
    when it failed. *)
Definition missedCallTrace (w : World) (me sender : UserId) (st : State) : list Effect :=
  EInsertNotification (missedCallNotification w me sender (callerName (users st) sender))
                      (insertNotification w) ::
  (if insertNotification w then []
   else [EConsole "Error creating missed call notification:"]) ++
  EInsertMessage (missedCallMessage w me sender) (insertMessage w) ::
  (if insertMessage w then []
   else [EConsole "Error creating missed call message:"]).

(** The state after [cleanupCall]. *)
Definition cleared (st : State) : State :=
  mkState (currentUser st) (users st) (incomingCall st) false None None
    false false false [] (signalingChannel st) (isSignalingConnected st).

(** The trace of [cleanupCall]: every local track stopped, every connection
    closed. *)
Definition cleanupTrace (st : State) : list Effect :=
  map (fun t => ETrackStop (trackId t))
      (match localStream st with Some s => s | None => [] end) ++
  map (fun e => EPcClose (fst e)) (peerConnections st).

(** The participants left after a hang-up from [sender]. *)
Definition remaining (sender : UserId) (ids : list UserId) : list UserId :=
  filter (fun id => negb (String.eqb id sender)) ids.

(** The stream once its video tracks satisfying [p] are removed. *)
Definition withoutVideo (p : MediaStreamTrack -> bool) (s : MediaStream) : MediaStream :=
  filter (fun t => negb (isVideo t && p t)) s.

(** The stops issued for the video tracks satisfying [p]. *)
Definition stopTrace (p : MediaStreamTrack -> bool) (s : MediaStream) : list Effect :=
  map (fun t => ETrackStop (trackId t)) (filter p (getVideoTracks s)).

(** An audio track with its enabled flag negated; other tracks as they are. *)
Definition flipAudio (t : MediaStreamTrack) : MediaStreamTrack :=
  if isAudio t
  then mkTrack (trackId t) (kind t) (label t) (displaySurface t) (negb (enabled t))
  else t.

(** ** Observations on traces *)

(** Effects that acquire local media. *)
Definition acquiresMedia (e : Effect) : bool :=
  match e with
  | EGetUserMedia _ _ _ | EGetDisplayMedia _ => true
  | _ => false
  end.

(** A send of type [ty] addressed to [to]. *)
Definition isSignalTo (ty : SignalType) (to : UserId) (e : Effect) : bool :=
  match e with
  | ESignal sig _ =>
      SignalType_eqb (sigType sig) ty &&
      match recipientId sig with Some r => String.eqb r to | None => false end
  | _ => false
  end.

(** An insert into the notifications collection. *)
Definition isNotificationInsert (e : Effect) : bool :=
  match e with EInsertNotification _ _ => true | _ => false end.

(** An insert into the messages collection. *)
Definition isMessageInsert (e : Effect) : bool :=
  match e with EInsertMessage _ _ => true | _ => false end.

(** The warning [sendSignal] logs when [channel.send] rejects.  No caller
    awaits [sendSignal]: the warning is logged at some point after the
    call, not at a fixed place among the effects that follow it. *)
Definition isSendWarning (e : Effect) : bool :=
  match e with
  | EConsole msg => String.eqb msg "Error sending signal:"
  | _ => false
  end.

(** The warning that follows a send, if [channel.send] rejected it. *)
Definition sendWarning (d : Delivery) : list Effect :=
  match d with
  | SendFailed => [EConsole "Error sending signal:"]
  | _ => []
  end.

(** A trace read without the warnings of failed sends. *)
Definition withoutSendWarnings (t : list Effect) : list Effect :=
  filter (fun e => negb (isSendWarning e)) t.

(** A send that [channel.send] rejected. *)
Definition isFailedSend (e : Effect) : bool :=
  match e with ESignal _ SendFailed => true | _ => false end.

(** The tracks the senders of a connection hold: the tracks of the local
    stream its senders refer to. *)
Definition heldTracks (st : State) (pc : RTCPeerConnection) : list MediaStreamTrack :=
  match localStream st with
  | None => []
  | Some s =>
      filter (fun t =>
                existsb (fun tr => match senderTrack tr with
                                   | Some id => Nat.eqb id (trackId t)
                                   | None => false
                                   end) (transceivers pc)) s
  end.

(** ** Relations between states and invariants *)

(** [keeps R c]: the state an action ends in, however it completes, is
    [R]-related to the state it started in. *)
Definition keeps (R : State -> State -> Prop) {A} (c : Action A) : Prop :=
  forall st, R st (final (c st)).

(** Two states with the same user, pending call, call phase, participants and
    microphone flag, whose local streams hold the same audio tracks. *)
Definition mediaOnly (st st' : State) : Prop :=
  currentUser st' = currentUser st /\
  incomingCall st' = incomingCall st /\
  isInCall st' = isInCall st /\
  activeCallData st' = activeCallData st /\
  isMicOn st' = isMicOn st /\
  option_map getAudioTracks (localStream st') = option_map getAudioTracks (localStream st).

(** In a call exactly when there are participants. *)
Definition callInv (st : State) : Prop :=
  match activeCallData st with
  | Some ids => isInCall st = true /\ ids <> []
  | None => isInCall st = false
  end.

(** The microphone flag mirrors the enabled flag of every audio track. *)
Definition micOk (st : State) : Prop :=
  match localStream st with
  | Some s => forall t, In t (getAudioTracks s) -> enabled t = isMicOn st
  | None => True
  end.

(** Without a user there is neither a local stream nor a pending call. *)
Definition userInv (st : State) : Prop :=
  currentUser st = None -> localStream st = None /\ incomingCall st = None.

(** The invariant of the reachable states. *)
Definition wf (st : State) : Prop := callInv st /\ micOk st /\ userInv st.

(** An action step that preserves the invariant. *)
Definition wfStep (st st' : State) : Prop := wf st -> wf st'.

(** ** Example worlds and states *)

(** A world in which every request is granted. *)
Definition calm (t : Z) : World :=
  mkWorld t (fun _ => 0%Z)
    (Some [(1, "Default microphone")])
    (Some (3, "Integrated Camera"))
    (Some (2, "screen:0:0", Some "monitor"))
    (fun _ => Some "v=0 offer") (fun _ _ => Some "v=0 answer")
    (fun _ _ => true) (fun _ _ => true) true true true.

(** The same world, except that no local offer or answer can be created. *)
Definition noNegotiation (t : Z) : World :=
  mkWorld t (fun _ => 0%Z)
    (Some [(1, "Default microphone")])
    (Some (3, "Integrated Camera"))
    (Some (2, "screen:0:0", Some "monitor"))
    (fun _ => None) (fun _ _ => None)
    (fun _ _ => true) (fun _ _ => true) true true true.

(** A world in which both missed-call inserts are refused. *)
Definition databaseDown (t : Z) : World :=
  mkWorld t (fun _ => 0%Z)
    (Some [(1, "Default microphone")])
    (Some (3, "Integrated Camera"))
    (Some (2, "screen:0:0", Some "monitor"))
    (fun _ => Some "v=0 offer") (fun _ _ => Some "v=0 answer")
    (fun _ _ => true) (fun _ _ => true) true false false.

(** Bob has logged in and his signaling channel is subscribed. *)
Definition bobOnline : State :=
  run [(calm 0, Login "bob"); (calm 0, ChannelStatus true)] (initialState None []).

(** An OFFER envelope addressed to Bob. *)
Definition offerFrom (caller : UserId) (body : Sdp) : SignalData :=
  mkSignal OFFER caller (Some "bob") (sdpPayload body).

(** A HANGUP envelope addressed to Bob. *)
Definition hangupFrom (caller : UserId) : SignalData :=
  mkSignal HANGUP caller (Some "bob") emptyPayload.

(** An ANSWER from a user Bob has no connection with. *)
Definition answerFromMallory : SignalData :=
  mkSignal ANSWER "mallory" (Some "bob") (sdpPayload "v=0 mallory").

(** Bob, idle, has received an offer from Alice. *)
Definition pendingFromAlice : State :=
  run [(calm 1000, Signal (offerFrom "alice" "v=0 alice"))] bobOnline.

(** The pending call stored for Alice's offer. *)
Definition aliceCall : IncomingCall := mkIncoming "alice" 1000 (Some "v=0 alice").

(** Bob logs in, is subscribed and calls Alice. *)
Definition bobCallsAliceOps : list (World * Op) :=
  [ (calm 0, Login "bob"); (calm 0, ChannelStatus true); (calm 1000, StartCall "alice") ].

(** Bob has called Alice. *)
Definition bobCallsAlice : State :=
  run [(calm 1000, StartCall "alice")] bobOnline.

(** The track Bob's call starts with. *)
Definition mutedMicrophone : MediaStreamTrack :=
  mkTrack 1 Audio "Default microphone" None false.

(** Bob accepts Alice's call, but her offer cannot be answered; he shares his
    screen over the connection registered for her; she hangs up. *)
Definition screenSharedThenAlone : list (World * Op) :=
  [ (calm 0, Login "bob");
    (calm 0, ChannelStatus true);
    (calm 1000, Signal (offerFrom "alice" "not a session description"));
    (noNegotiation 2000, AcceptIncomingCall);
    (calm 3000, ToggleScreenShare);
    (calm 4000, Signal (hangupFrom "alice")) ].

(** ** Further observations on traces *)

(** A [sendSignal] call, whatever became of it. *)
Definition isSignal (e : Effect) : bool :=
  match e with ESignal _ _ => true | _ => false end.

(** A send that reached [channel.send]. *)
Definition handedToChannel (e : Effect) : bool :=
  match e with
  | ESignal _ Broadcast | ESignal _ SendFailed => true
  | _ => false
  end.

(** The keys of the registry. *)
Definition registry_keys (r : Registry) : list UserId := map fst r.

(** ** Further example worlds and states *)

(** A world in which every capture request is refused. *)
Definition captureDenied (t : Z) : World :=
  mkWorld t (fun _ => 0%Z) None None None
    (fun _ => Some "v=0 offer") (fun _ _ => Some "v=0 answer")
    (fun _ _ => true) (fun _ _ => true) true true true.

(** Bob has called Alice and Carol. *)
Definition bobCallsTwo : State :=
  run [(calm 1000, StartGroupCall ["alice"; "carol"])] bobOnline.

(** Bob has accepted Alice's call. *)
Definition bobAcceptedAlice : State :=
  run [(calm 2000, AcceptIncomingCall)] pendingFromAlice.

(** An ANSWER from Carol, whom Bob has called. *)
Definition answerFrom (peer : UserId) : SignalData :=
  mkSignal ANSWER peer (Some "bob") (sdpPayload "v=0 answer").

(** The ANSWER case's update of the call data: the sender joins the
    participants unless already listed; without call data nothing is
    created. *)
Definition joined (sender : UserId) (prev : option (list UserId)) : option (list UserId) :=
  match prev with
  | None => None
  | Some ids => if includesId ids sender then Some ids else Some (ids ++ [sender])
  end.

(** The transceivers of a fresh connection after the stream's tracks were
    added to it. *)
Definition sendersOf (stream : MediaStream) : list Transceiver :=
  map (fun t => mkTransceiver (kind t) (Some (trackId t))) stream.

(** [quiet c]: started with the channel not subscribed, the action leaves it
    so and hands nothing to [channel.send]. *)
Definition quiet {A} (c : Action A) : Prop :=
  forall st, isSignalingConnected st = false ->
    isSignalingConnected (final (c st)) = false /\
    existsb handedToChannel (trace (c st)) = false.

(** Bob has logged in; the channel is not subscribed yet. *)
Definition bobOffline : State := run [(calm 0, Login "bob")] (initialState None []).

(** The state after [toggleScreenShare] has started a share of [screen]. *)
Definition sharing (screen : MediaStreamTrack) (s : MediaStream) (st : State) : State :=
  set_isScreenSharing true
    (set_peerConnections
       (map (fun e => (fst e, attachVideo screen (snd e))) (peerConnections st))
       (set_localStream (Some (addTrack screen s)) st)).

(** The state after [toggleCamera] has turned the camera on with track [cam]. *)
Definition filming (cam : MediaStreamTrack) (s : MediaStream) (st : State) : State :=
  set_peerConnections
    (map (fun e => (fst e, attachVideo cam (snd e))) (peerConnections st))
    (set_isCameraOn true (set_localStream (Some (addTrack cam s)) st)).

(** * The task board

    [addTask] and [moveTask] of the same context.  A task carries more
    columns than the board logic reads; they travel in [t_details]. *)

Definition TaskStatus := string.

Record TaskDetails := mkTaskDetails {
  td_description : string;
  td_category : string;
  td_priority : string;
  td_dueDate : string;
  td_attachments : list string;
  td_comments : list string;
  td_subtasks : list string;
  td_createdAt : Z
}.

Record Task := mkTask {
  t_id : string;
  t_projectId : string;
  t_title : string;
  t_status : TaskStatus;
  t_assigneeId : option UserId;
  t_order : option Z;
  t_details : TaskDetails
}.

(** [t.order || 0] *)
Definition orderOf (t : Task) : Z :=
  match t_order t with Some z => z | None => 0%Z end.

Definition withStatus (s : TaskStatus) (t : Task) : Task :=
  mkTask (t_id t) (t_projectId t) (t_title t) s (t_assigneeId t) (t_order t) (t_details t).

Definition withOrder (o : Z) (t : Task) : Task :=
  mkTask (t_id t) (t_projectId t) (t_title t) (t_status t) (t_assigneeId t) (Some o)
    (t_details t).

(** [projectTasks.reduce((max, curr) => Math.max(max, curr.order || 0), -1)]
    over the tasks of the new task's status and project. *)
Definition maxOrder (tasks : list Task) (t : Task) : Z :=
  fold_left (fun m curr => Z.max m (orderOf curr))
    (filter (fun task => String.eqb (t_status task) (t_status t) &&
                         String.eqb (t_projectId task) (t_projectId t)) tasks)
    (-1)%Z.

(** An order is a number of the language, an IEEE 754 double; the board
    holds integers in it.  [toNumber z] is the double nearest to the integer
    [z], ties going to the even significand: an integer below 2^53 in
    absolute value is held exactly, from 2^53 on only the multiples of the
    unit in the last place are.  (Finite values; the range of a double ends
    near 2^1024.) *)
Definition toNumber (z : Z) : Z :=
  let a := Z.abs z in
  if Z.ltb a (2 ^ 53) then z
  else
    let ulp := (2 ^ (Z.log2 a - 52))%Z in
    let q := (a / ulp)%Z in
    let rest := (a mod ulp)%Z in
    let q' := if Z.ltb (2 * rest) ulp then q
              else if Z.ltb ulp (2 * rest) then (q + 1)%Z
              else if Z.even q then q else (q + 1)%Z in
    (Z.sgn z * (q' * ulp))%Z.

(** [a + b] on two numbers that hold integers. *)
Definition numberPlus (a b : Z) : Z := toNumber (a + b).

(** The row [addTask] inserts: the task with [order: maxOrder + 1]. *)
Definition addTask (tasks : list Task) (t : Task) : Task :=
  withOrder (numberPlus (maxOrder tasks t) 1) t.

(** [destTasks.sort((a, b) => (a.order || 0) - (b.order || 0))]: the sort of
    the language is stable, and a stable sort has one result; insertion
    before the first element that is not smaller computes it. *)
Fixpoint insertByOrder (t : Task) (l : list Task) : list Task :=
  match l with
  | [] => [t]
  | x :: rest =>
      if Z.leb (orderOf t) (orderOf x) then t :: x :: rest
      else x :: insertByOrder t rest
  end.

Definition sortByOrder (l : list Task) : list Task := fold_right insertByOrder [] l.

(** [destTasks.splice(newIndex, 0, t)] for an index within the list, else
    [destTasks.push(t)]. *)
Definition place (newIndex : option Z) (t : Task) (l : list Task) : list Task :=
  match newIndex with
  | Some i =>
      if Z.leb 0 i && Z.leb i (Z.of_nat (length l))
      then firstn (Z.to_nat i) l ++ t :: skipn (Z.to_nat i) l
      else l ++ [t]
  | None => l ++ [t]
  end.

(** [destTasks.map((t, idx) => ({ ...t, order: idx }))] *)
Fixpoint renumberFrom (i : nat) (l : list Task) : list Task :=
  match l with
  | [] => []
  | t :: rest => withOrder (Z.of_nat i) t :: renumberFrom (S i) rest
  end.

(** [updateMap.get(id)] for [new Map(updates.map(u => [u.id, u]))]: of two
    entries with one key the later one stays. *)
Definition updateFor (updates : list Task) (id : string) : option Task :=
  find (fun u => String.eqb (t_id u) id) (rev updates).

(** [s.replace('_', ' ')]: the first underscore only. *)
Fixpoint replaceUnderscore (s : string) : string :=
  match s with
  | EmptyString => EmptyString
  | String c rest =>
      if Ascii.eqb c (Ascii.ascii_of_nat 95) then String (Ascii.ascii_of_nat 32) rest
      else String c (replaceUnderscore rest)
  end.

(** The double quote, as a one-character string. *)
Definition quoteMark : string := String (Ascii.ascii_of_nat 34) EmptyString.

Inductive TaskNotificationType := ASSIGNMENT.

(** The row [triggerNotification] inserts. *)
Record TaskNotification := mkTaskNotification {
  tn_recipient_id : UserId;
  tn_sender_id : option UserId;
  tn_type : TaskNotificationType;
  tn_title : string;
  tn_message : string;
  tn_link_to : string
}.

(** [triggerNotification]: nobody is notified of their own action. *)
Definition triggerNotification (me : option UserId) (recipient : UserId)
  (ty : TaskNotificationType) (title message linkTo : string) : option TaskNotification :=
  match me with
  | Some u =>
      if String.eqb recipient u then None
      else Some (mkTaskNotification recipient me ty title message linkTo)
  | None => Some (mkTaskNotification recipient me ty title message linkTo)
  end.

Record Moved := mkMoved {
  newTasks : list Task;
  updates : list Task;
  notification : option TaskNotification
}.

(** The tasks of the destination column, the dragged task apart. *)
Definition destTasks (tasks : list Task) (taskId : string) (s : TaskStatus) : list Task :=
  filter (fun t => String.eqb (t_status t) s && negb (String.eqb (t_id t) taskId)) tasks.

(** [moveTask]: the new task list set optimistically, the rows whose status
    and order are persisted, and the notification row, if any.  [None] when
    the task is not on the board. *)
Definition moveTask (me : option UserId) (tasks : list Task) (taskId : string)
  (s : TaskStatus) (newIndex : option Z) : option Moved :=
  match find (fun t => String.eqb (t_id t) taskId) tasks with
  | None => None
  | Some task =>
      let ups :=
        renumberFrom 0
          (place newIndex (withStatus s task) (sortByOrder (destTasks tasks taskId s))) in
      Some (mkMoved
        (map (fun t =>
                match updateFor ups (t_id t) with
                | Some u => u
                | None => if String.eqb (t_id t) taskId then withStatus s t else t
                end) tasks)
        ups
        (match t_assigneeId task with
         | Some assignee =>
             if negb (String.eqb (t_status task) s) && truthy assignee
             then triggerNotification me assignee ASSIGNMENT "Task Status Updated"
                    ("Task " ++ quoteMark ++ t_title task ++ quoteMark ++ " moved to "
                     ++ replaceUnderscore s)
                    (t_id task)
             else None
         | None => None
         end))
  end.

(** *** An example board *)

Definition noDetails : TaskDetails := mkTaskDetails "" "" "" "" [] [] [] 0.

Definition card (id : string) (status : TaskStatus) (assignee : option UserId) (o : Z)
  : Task :=
  mkTask id "p-1" id status assignee (Some o) noDetails.

Definition board : list Task :=
  [ card "t-a" "TODO" None 0;
    card "t-c" "DONE" (Some "carol") 0;
    card "t-b" "TODO" None 1;
    card "t-d" "IN_PROGRESS" (Some "bob") 0 ].

(** The tasks of one column of the board. *)
Definition column (s : TaskStatus) (tasks : list Task) : list Task :=
  filter (fun t => String.eqb (t_status t) s) tasks.

(** Two rows that differ in status and order at most. *)
Definition sameCard (t t' : Task) : Prop :=
  t_id t' = t_id t /\ t_projectId t' = t_projectId t /\ t_title t' = t_title t /\
  t_assigneeId t' = t_assigneeId t /\ t_details t' = t_details t.

(** The orders [0, 1, ..., n-1]. *)
Definition dense (n : nat) : list (option Z) :=
  map (fun k => Some (Z.of_nat k)) (seq 0 n).

(** The index at which the dragged task lands among [n] other tasks. *)
Definition landing (newIndex : option Z) (n : nat) : nat :=
  match newIndex with
  | Some z => if Z.leb 0 z && Z.leb z (Z.of_nat n) then Z.to_nat z else n
  | None => n
  end.

(** A list without its [k]-th element. *)
Definition without {A : Type} (k : nat) (l : list A) : list A :=
  firstn k l ++ skipn (S k) l.

(** Sorted by the order column, ties allowed. *)
Definition byOrder (l : list Task) : Prop :=
  StronglySorted (fun a b => (orderOf a <= orderOf b)%Z) l.

(** Sorted by the order column, no two orders equal. *)
Definition byStrictOrder (l : list Task) : Prop :=
  StronglySorted (fun a b => (orderOf a < orderOf b)%Z) l.

(** *** The realtime echo of the tasks table

    The [postgres_changes] handler of the tasks table; the payload rows are
    taken as mapped by [mapTaskFromDB] already. *)

Inductive TaskEvent :=
| TaskInsert (new : Task)
| TaskUpdate (new : Task)
| TaskDelete (oldId : string).

Definition onTaskChange (ev : TaskEvent) (prev : list Task) : list Task :=
  match ev with
  | TaskInsert t => prev ++ [t]
  | TaskUpdate t => map (fun x => if String.eqb (t_id x) (t_id t) then t else x) prev
  | TaskDelete id => filter (fun x => negb (String.eqb (t_id x) id)) prev
  end.

(** The events one [update] per persisted row of a move gives rise to. *)
Definition echoes (ups : list Task) : list TaskEvent := map TaskUpdate ups.

(** * The chat

    Unread counters, read marks and the per-user deletion of a chat's
    history. *)

Record ChatMessage := mkChatMessage {
  cm_id : string;
  cm_senderId : UserId;
  cm_recipientId : option UserId;
  cm_text : string;
  cm_timestamp : Z
}.

Record Group := mkGroup {
  g_id : string;
  g_name : string;
  g_memberIds : list UserId;
  g_createdBy : UserId;
  g_createdAt : Z
}.

(** [lastReadTimestamps]: an object used as a map from chat id to time. *)
Definition Timestamps := list (string * Z).

Fixpoint ts_get (ts : Timestamps) (k : string) : option Z :=
  match ts with
  | [] => None
  | (k', v) :: rest => if String.eqb k' k then Some v else ts_get rest k
  end.

(** [{ ...prev, [k]: v }] *)
Fixpoint ts_set (k : string) (v : Z) (ts : Timestamps) : Timestamps :=
  match ts with
  | [] => [(k, v)]
  | (k', v') :: rest =>
      if String.eqb k' k then (k', v) :: rest else (k', v') :: ts_set k v rest
  end.

(** [lastReadTimestamps[chatId] || 0] *)
Definition lastReadOf (ts : Timestamps) (chatId : string) : Z :=
  match ts_get ts chatId with Some v => v | None => 0%Z end.

Definition markChatRead (now : Z) (chatId : string) (ts : Timestamps) : Timestamps :=
  ts_set chatId now ts.

(** [!m.recipientId] *)
Definition noRecipient (m : ChatMessage) : bool :=
  match cm_recipientId m with Some r => negb (truthy r) | None => true end.

(** [m.recipientId === id] *)
Definition recipientIs (m : ChatMessage) (id : string) : bool :=
  match cm_recipientId m with Some r => String.eqb r id | None => false end.

(** [chatId.startsWith('g-')] *)
Definition isGroupChatId (chatId : string) : bool := String.prefix "g-" chatId.

Definition isRelevant (me : UserId) (chatId : string) (m : ChatMessage) : bool :=
  (negb (String.eqb chatId "general") && negb (isGroupChatId chatId) &&
   String.eqb (cm_senderId m) chatId && recipientIs m me)
  || (isGroupChatId chatId && recipientIs m chatId && negb (String.eqb (cm_senderId m) me))
  || (String.eqb chatId "general" && noRecipient m && negb (String.eqb (cm_senderId m) me)).

(** [deletedMessageIds] is a [Set]: insertion ordered, no element twice. *)
Definition getUnreadCount (me : option UserId) (messages : list ChatMessage)
  (deleted : list string) (ts : Timestamps) (chatId : string) : nat :=
  match me with
  | None => 0
  | Some u =>
      length
        (filter (fun m =>
                   if includesId deleted (cm_id m) then false
                   else isRelevant u chatId m && Z.ltb (lastReadOf ts chatId) (cm_timestamp m))
           messages)
  end.

(** [set.add(id)] *)
Definition setAdd (id : string) (ids : list string) : list string :=
  if includesId ids id then ids else ids ++ [id].

(** The row of [deleted_messages]; its generated id is left out. *)
Record DeletedRow := mkDeletedRow {
  dr_user_id : UserId;
  dr_message_id : string;
  dr_timestamp : Z
}.

Definition msgsToDelete (me : UserId) (groups : list Group) (messages : list ChatMessage)
  (deleted : list string) (targetId : string) : list ChatMessage :=
  let isGroup := existsb (fun g => String.eqb (g_id g) targetId) groups in
  filter (fun m =>
            if includesId deleted (cm_id m) then false
            else if String.eqb targetId "general" then noRecipient m
            else if isGroup then recipientIs m targetId
            else (String.eqb (cm_senderId m) me && recipientIs m targetId) ||
                 (String.eqb (cm_senderId m) targetId && recipientIs m me))
    messages.

Record Cleared := mkCleared {
  deletedIds : list string;
  records : list DeletedRow;
  logged : list Effect
}.

(** [clearChatHistory]: the new set of hidden message ids, the rows handed
    to the insert and what is logged; [None] when it returns before any of
    them. *)
Definition clearChatHistory (now : Z) (insertOk : bool) (me : option UserId)
  (groups : list Group)
  (messages : list ChatMessage) (deleted : list string) (targetId : string)
  : option Cleared :=
  match me with
  | None => None
  | Some u =>
      match msgsToDelete u groups messages deleted targetId with
      | [] => None
      | msgs =>
          Some (mkCleared
                  (fold_left (fun acc m => setAdd (cm_id m) acc) msgs deleted)
                  (map (fun m => mkDeletedRow u (cm_id m) now) msgs)
                  (if insertOk then [] else [EConsole "Failed to delete chat history"]))
      end
  end.

(** The set of hidden ids after [clearChatHistory], whether it returned
    early or not. *)
Definition hiddenAfter (deleted : list string) (r : option Cleared) : list string :=
  match r with Some c => deletedIds c | None => deleted end.

(** [Array.from(new Set(l))] *)
Definition dedupe (l : list string) : list string :=
  fold_left (fun acc x => setAdd x acc) l [].

(** ['g-' + Date.now()] *)
Definition groupIdAt (now : Z) : string :=
  "g-" ++ NilZero.string_of_int (Z.to_int now).

Record GroupCreation := mkGroupCreation {
  gc_inserted : option Group;
  gc_log : list Effect;
  gc_result : option string
}.

(** [createGroup]: the row handed to the insert, what is logged, and the
    id returned ([None] for [null]). *)
Definition createGroup (now : Z) (insertOk : bool) (me : option UserId)
  (name : string) (memberIds : list UserId) : GroupCreation :=
  match me with
  | None => mkGroupCreation None [] None
  | Some u =>
      let row := mkGroup (groupIdAt now) name (dedupe (memberIds ++ [u])) u now in
      if insertOk then mkGroupCreation (Some row) [] (Some (groupIdAt now))
      else mkGroupCreation (Some row) [EConsole "Error creating group:"] None
  end.

(** * Projects *)

Record Project := mkProject {
  p_id : string;
  p_name : string;
  p_description : string;
  p_memberIds : list UserId
}.

(** What a call of the backend client comes back with: a result, an
    [error] value with its message, or a rejected promise. *)
Inductive DbReply :=
| Done
| Failed (message : string)
| Rejected (message : string).

(** [error.message || "Unknown error"] *)
Definition messageOr (message : string) : string :=
  if truthy message then message else "Unknown error".

(** The [catch] block of [deleteProject]. *)
Definition restoreProjects (oldProjects : list Project) (refetched : option (list Project))
  (message : string) : list Project * list Effect :=
  (match refetched with Some data => data | None => oldProjects end,
   [EConsole "Error deleting project:";
    EAlert ("Failed to delete project. " ++ messageOr message)]).

(** [deleteProject]: the project list it leaves and what the user sees.
    [refetched] is the [data] of the select in the [catch] block. *)
Definition deleteProject (taskDelete projectDelete : DbReply)
  (refetched : option (list Project)) (projects : list Project) (id : string)
  : list Project * list Effect :=
  let optimistic := filter (fun p => negb (String.eqb (p_id p) id)) projects in
  match taskDelete with
  | Rejected message => restoreProjects projects refetched message
  | _ =>
      let warned :=
        match taskDelete with
        | Failed _ =>
            [EConsole "Project tasks deletion issue (proceeding with project delete):"]
        | _ => []
        end in
      match projectDelete with
      | Done => (optimistic, warned)
      | Failed message | Rejected message =>
          let r := restoreProjects projects refetched message in
          (fst r, warned ++ snd r)
      end
  end.

(** *** Example chats and projects *)

Definition chatLog : list ChatMessage :=
  [ mkChatMessage "m1" "alice" None "hello all" 10;
    mkChatMessage "m2" "alice" (Some "bob") "hi bob" 20;
    mkChatMessage "m3" "carol" (Some "g-7") "team?" 30;
    mkChatMessage "m4" "bob" (Some "alice") "hi alice" 40 ].

Definition team : Group := mkGroup "g-7" "Team" ["bob"; "carol"] "carol" 5.

Definition portfolio : list Project :=
  [ mkProject "p-1" "Website" "" []; mkProject "p-2" "App" "" ["bob"] ].

(** * Verification *)

(** ** Laws of the action monad *)

Lemma bind_get {A} (k : State -> Action A) st : bind get k st = k st st.
Proof. unfold bind, get. destruct (k st st); reflexivity. Qed.

Lemma bind_modify {A} (f : State -> State) (k : unit -> Action A) st :
  bind (modify f) k st = k tt (f st).
Proof. unfold bind, modify. destruct (k tt (f st)); reflexivity. Qed.

Lemma bind_ret {A B} (a : A) (k : A -> Action B) st : bind (ret a) k st = k a st.
Proof. unfold bind, ret. destruct (k a st); reflexivity. Qed.

Lemma bind_emit {A} (e : Effect) (k : unit -> Action A) st :
  bind (emit e) k st =
  mkRun (outcome (k tt st)) (final (k tt st)) (e :: trace (k tt st)).
Proof. unfold bind, emit. destruct (k tt st); reflexivity. Qed.

(** ** Run equations

    Each auxiliary action is characterised by the [Run] it produces, so that
    the actions built from it can be computed symbolically. *)

Lemma sendSignal_run w ty to p st :
  sendSignal w ty to p st = mkRun (Returned tt) st (signalTrace w ty to p st).
Proof.
  unfold sendSignal, signalTrace, delivery, bind, get, emit, ret.
  destruct (currentUser st); [|reflexivity].
  destruct (signalingChannel st), (isSignalingConnected st), (channelSend w);
    reflexivity.
Qed.

Lemma offerTo_run w peer st :
  offerTo w peer st =
  mkRun (match createOffer w peer with Some _ => Returned tt | None => Thrown end)
        st (offerTrace w st peer).
Proof.
  unfold offerTo, offerTrace. destruct (createOffer w peer).
  - apply sendSignal_run.
  - reflexivity.
Qed.

Lemma renegotiate_round w st (peers : Registry) :
  forEach peers (fun e =>
    try_catch (offerTo w (fst e)) (emit (EConsole "Renegotiation failed"))) st =
  mkRun (Returned tt) st (flat_map (fun e => renegotiateWith w st (fst e)) peers).
Proof.
  induction peers as [|e peers IH]; [reflexivity|].
  cbn [forEach flat_map]. unfold bind at 1, try_catch at 1.
  rewrite offerTo_run. unfold renegotiateWith at 1, offerTrace.
  destruct (createOffer w (fst e)); cbn [emit]; rewrite IH; cbn;
    rewrite ?app_nil_r; reflexivity.
Qed.

Lemma renegotiate_run w st :
  renegotiate w st = mkRun (Returned tt) st (renegotiateTrace w st).
Proof.
  unfold renegotiate, renegotiateTrace, bind, get.
  destruct (localStream st); [|reflexivity].
  rewrite renegotiate_round. rewrite app_nil_l. reflexivity.
Qed.

Lemma signalTrace_peerConnections w ty to p r st :
  signalTrace w ty to p (set_peerConnections r st) = signalTrace w ty to p st.
Proof. reflexivity. Qed.

Lemma callPeer_run w recipient stream st :
  callPeer w recipient stream st =
  mkRun (match createOffer w recipient with Some _ => Returned tt | None => Thrown end)
        (set_peerConnections (registerCall recipient stream (peerConnections st)) st)
        (offerTrace w st recipient).
Proof.
  unfold callPeer, bind, createPeerConnection, addTracksToPc, setPeerConnections, modify.
  rewrite offerTo_run. cbn. reflexivity.
Qed.

Lemma callAll_run w stream recipients st :
  forEach recipients (fun recipient =>
    try_catch (callPeer w recipient stream)
              (emit (EConsole ("Failed to call " ++ recipient)))) st =
  mkRun (Returned tt)
        (set_peerConnections
           (fold_left (fun r x => registerCall x stream r) recipients (peerConnections st)) st)
        (flat_map (callTrace w st) recipients).
Proof.
  revert st. induction recipients as [|x rest IH]; intros st.
  - destruct st; reflexivity.
  - cbn [forEach flat_map fold_left]. unfold bind at 1, try_catch at 1.
    rewrite callPeer_run. unfold callTrace at 1, offerTrace.
    destruct (createOffer w x); cbn [emit]; rewrite IH; cbn; rewrite ?app_nil_r; reflexivity.
Qed.

Lemma hangupAll_run w ids st :
  forEach ids (fun pid => sendSignal w HANGUP (Some pid) emptyPayload) st =
  mkRun (Returned tt) st
        (flat_map (fun pid => signalTrace w HANGUP (Some pid) emptyPayload st) ids).
Proof.
  induction ids as [|x rest IH]; [reflexivity|].
  cbn [forEach flat_map]. unfold bind at 1. rewrite sendSignal_run, IH. reflexivity.
Qed.

Arguments sendSignal : simpl never.
Arguments offerTo : simpl never.
Arguments renegotiate : simpl never.
Arguments callPeer : simpl never.

(** Unfold the monadic plumbing of an action applied to a state. *)
Ltac run_action :=
  unfold bind, get, ret, throw, emit, emitAll, modify, setIncomingCall, setIsInCall,
    setActiveCallData, setLocalStream, setIsScreenSharing, setIsMicOn, setIsCameraOn,
    setPeerConnections, try_catch; cbn.

Lemma signalTrace_no_media w ty to p st :
  existsb acquiresMedia (signalTrace w ty to p st) = false.
Proof.
  unfold signalTrace. destruct (currentUser st); [|reflexivity].
  destruct (delivery w st); reflexivity.
Qed.

(** ** Inbound signals for an unknown peer *)

Lemma onSignal_unknown_peer w sig st :
  (sigType sig = ANSWER \/ sigType sig = CANDIDATE) ->
  registry_get (peerConnections st) (senderId sig) = None ->
  onSignal w sig st = mkRun (Returned tt) st [].
Proof.
  intros Hty Hreg. unfold onSignal, bind, get.
  destruct (currentUser st) as [me|]; [|reflexivity].
  destruct (notForUs me sig); [reflexivity|].
  destruct (String.eqb (senderId sig) me); [reflexivity|].
  destruct Hty as [-> | ->]; rewrite Hreg; reflexivity.
Qed.

(** C8: an inbound ANSWER or CANDIDATE whose sender has no entry in the peer
    connection registry is discarded: the handler completes without raising,
    leaves the whole state (so the active participants) unchanged and has
    no effect at all (nothing logged, alerted or sent). *)
Theorem signal_for_unknown_peer_discarded w sig st :
  (sigType sig = ANSWER \/ sigType sig = CANDIDATE) ->
  registry_get (peerConnections st) (senderId sig) = None ->
  outcome (onSignal w sig st) = Returned tt /\
  activeParticipants (final (onSignal w sig st)) = activeParticipants st /\
  final (onSignal w sig st) = st /\
  trace (onSignal w sig st) = [].
Proof.
  intros Hty Hreg. rewrite (onSignal_unknown_peer w sig st Hty Hreg).
  repeat split.
Qed.

(** ** The guard of screen sharing *)

Lemma stopScreenSharing_guard w st :
  peerConnections st = [] \/ localStream st = None ->
  stopScreenSharing w st = mkRun (Returned tt) st [].
Proof.
  intros [H | H]; unfold stopScreenSharing, bind, get; rewrite H; cbn.
  - reflexivity.
  - rewrite orb_true_r. reflexivity.
Qed.

Lemma toggleScreenShare_guard w st :
  peerConnections st = [] \/ localStream st = None ->
  toggleScreenShare w st = mkRun (Returned tt) st [].
Proof.
  intros [H | H]; unfold toggleScreenShare, bind, get; rewrite H; cbn.
  - reflexivity.
  - rewrite orb_true_r. reflexivity.
Qed.

(** Screen sharing changes hands only with a peer connection and a local
    stream. *)
Lemma screen_share_needs_call w st :
  isScreenSharing (final (toggleScreenShare w st)) <> isScreenSharing st ->
  peerConnections st <> [] /\ localStream st <> None.
Proof.
  intros Hchg. split; intros H; apply Hchg.
  - rewrite toggleScreenShare_guard; [reflexivity | now left].
  - rewrite toggleScreenShare_guard; [reflexivity | now right].
Qed.

(** C10: with an empty peer connection registry or without a local stream,
    [toggleScreenShare] (and [stopScreenSharing], which it delegates to) is
    a no-op: it returns, the state is unchanged and the trace is empty, so
    no display capture is requested and no envelope is sent. *)
Theorem toggleScreenShare_noop_without_call w st :
  peerConnections st = [] \/ localStream st = None ->
  toggleScreenShare w st = mkRun (Returned tt) st [] /\
  stopScreenSharing w st = mkRun (Returned tt) st [] /\
  final (toggleScreenShare w st) = st /\
  trace (toggleScreenShare w st) = [].
Proof.
  intros H. rewrite (toggleScreenShare_guard w st H). split; [reflexivity|].
  split; [apply stopScreenSharing_guard; exact H | split; reflexivity].
Qed.

(** ** Rejecting an incoming call *)

Lemma rejectIncomingCall_run w st me call :
  currentUser st = Some me ->
  incomingCall st = Some call ->
  rejectIncomingCall w st =
  mkRun (Returned tt) (set_incomingCall None st)
        (signalTrace w HANGUP (Some (callerId call)) emptyPayload st).
Proof.
  intros Hu Hc. unfold rejectIncomingCall, bind, get. rewrite Hc, Hu.
  rewrite sendSignal_run. run_action. rewrite app_nil_r. reflexivity.
Qed.

(** C7: rejecting the pending incoming call invokes the signaling send with a
    HANGUP envelope from the local user addressed to the pending caller
    (first effect of the trace; it is broadcast when the channel is
    connected and the send resolves), clears the stored offer and leaves the
    phase [Idle]; the action acquires no media: no capture request is in the
    trace, the local stream and the peer connection registry are unchanged. *)
Theorem rejectIncomingCall_hangs_up w st me call :
  currentUser st = Some me ->
  phase st = IncomingPending ->
  incomingCall st = Some call ->
  let r := rejectIncomingCall w st in
  outcome r = Returned tt /\
  (exists logs,
     trace r = ESignal (mkSignal HANGUP me (Some (callerId call)) emptyPayload)
                       (delivery w st) :: logs /\
     existsb (isSignalTo HANGUP (callerId call)) logs = false) /\
  (signalingChannel st = true -> isSignalingConnected st = true ->
   channelSend w = true -> delivery w st = Broadcast) /\
  incomingCall (final r) = None /\
  phase (final r) = Idle /\
  existsb acquiresMedia (trace r) = false /\
  localStream (final r) = localStream st /\
  peerConnections (final r) = peerConnections st.
Proof.
  intros Hu Hp Hc r. subst r. rewrite (rejectIncomingCall_run w st me call Hu Hc).
  cbn [outcome final trace].
  split; [reflexivity|]. split.
  - unfold signalTrace. rewrite Hu. eexists. split; [reflexivity|].
    destruct (delivery w st); reflexivity.
  - split.
    + intros H1 H2 H3. unfold delivery. rewrite H1, H2, H3. reflexivity.
    + split; [reflexivity|]. split.
      * unfold phase in *. cbn. destruct (isInCall st); [discriminate | reflexivity].
      * split; [apply signalTrace_no_media | split; reflexivity].
Qed.

(** ** A second offer while one is pending *)

Lemma onSignal_offer_idle w st me sig :
  currentUser st = Some me ->
  isInCall st = false ->
  sigType sig = OFFER ->
  notForUs me sig = false ->
  senderId sig <> me ->
  onSignal w sig st =
  mkRun (Returned tt)
        (set_incomingCall (Some (mkIncoming (senderId sig) (now w) (sdp (payload sig)))) st)
        [].
Proof.
  intros Hu Hc Hty Hfor Hself. unfold onSignal, bind, get.
  rewrite Hu, Hfor, Hty, Hc. apply String.eqb_neq in Hself. rewrite Hself.
  reflexivity.
Qed.

(** C2, as the code has it: an OFFER envelope for the local user that arrives
    while the user is not in a call replaces whatever incoming offer is
    stored, also one pending from a different sender: the stored caller id,
    timestamp and remote description become those of the new envelope.
    Nothing is sent back and one offer at most stays pending. *)
Theorem offer_replaces_pending_offer w st me sig :
  currentUser st = Some me ->
  isInCall st = false ->
  sigType sig = OFFER ->
  notForUs me sig = false ->
  senderId sig <> me ->
  let r := onSignal w sig st in
  outcome r = Returned tt /\
  incomingCall (final r) =
    Some (mkIncoming (senderId sig) (now w) (sdp (payload sig))) /\
  trace r = [].
Proof.
  intros Hu Hc Hty Hfor Hself r. subst r.
  rewrite (onSignal_offer_idle w st me sig Hu Hc Hty Hfor Hself).
  repeat split.
Qed.

(** C2 fails as stated: Bob holds a pending offer from Alice (received at
    1000) and is not in a call; an OFFER from Carol at 2000 overwrites it. *)
Lemma second_offer_overwrites_pending :
  phase pendingFromAlice = IncomingPending /\
  incomingCall pendingFromAlice = Some (mkIncoming "alice" 1000 (Some "v=0 alice")) /\
  incomingCall (final (onSignal (calm 2000) (offerFrom "carol" "v=0 carol") pendingFromAlice))
    = Some (mkIncoming "carol" 2000 (Some "v=0 carol")) /\
  incomingCall (final (onSignal (calm 2000) (offerFrom "carol" "v=0 carol") pendingFromAlice))
    <> incomingCall pendingFromAlice.
Proof.
  repeat split; try reflexivity. vm_compute. discriminate.
Qed.

(** ** Adding a participant *)

Lemma initiateCallConnection_call w recipient st :
  outcome (initiateCallConnection w recipient st) = Returned tt /\
  isInCall (final (initiateCallConnection w recipient st)) = isInCall st /\
  activeCallData (final (initiateCallConnection w recipient st)) = activeCallData st /\
  incomingCall (final (initiateCallConnection w recipient st)) = incomingCall st /\
  currentUser (final (initiateCallConnection w recipient st)) = currentUser st.
Proof.
  unfold initiateCallConnection, try_catch. rewrite bind_get.
  destruct (localStream st) as [s|].
  - rewrite callPeer_run. destruct (createOffer w recipient); cbn; repeat split.
  - destruct (micCapture w) as [devs|].
    + run_action. rewrite callPeer_run.
      destruct (createOffer w recipient); cbn; repeat split.
    + run_action. repeat split.
Qed.

Lemma addToCall_run_call w st me ids recipient :
  currentUser st = Some me ->
  isInCall st = true ->
  activeCallData st = Some ids ->
  outcome (addToCall w recipient st) = Returned tt /\
  isInCall (final (addToCall w recipient st)) = true /\
  activeCallData (final (addToCall w recipient st)) = Some (ids ++ [recipient]).
Proof.
  intros Hu Hc Ha. unfold addToCall. rewrite bind_get, Hu, Hc, Ha. cbn [isSome negb orb].
  unfold bind.
  destruct (initiateCallConnection_call w recipient st) as (Ho & Hi & Hd & _).
  destruct (initiateCallConnection w recipient st) as [o st1 t1]. cbn in Ho, Hi, Hd.
  subst o. run_action. rewrite Hi, Hd, Hc, Ha. repeat split.
Qed.

Lemma signalTrace_user w ty to p st me :
  currentUser st = Some me ->
  signalTrace w ty to p st
  = ESignal (mkSignal ty me to p) (delivery w st) :: sendWarning (delivery w st).
Proof. intros Hu. unfold signalTrace, sendWarning. rewrite Hu. reflexivity. Qed.

Lemma initiateCallConnection_trace w recipient st me :
  currentUser st = Some me ->
  trace (initiateCallConnection w recipient st) =
    (match localStream st with
     | Some _ => []
     | None => [EGetUserMedia true false (isSome (micCapture w))]
     end) ++
    (if isSome (localStream st) || isSome (micCapture w) then
       match createOffer w recipient with
       | Some o =>
           ESignal (mkSignal OFFER me (Some recipient) (sdpPayload o)) (delivery w st)
           :: sendWarning (delivery w st)
       | None => [EConsole "Error initiating connection:"]
       end
     else [EConsole "No audio device found"]).
Proof.
  intros Hu. unfold initiateCallConnection, try_catch. rewrite bind_get.
  destruct (localStream st) as [s|].
  - rewrite callPeer_run. unfold offerTrace.
    destruct (createOffer w recipient) as [o|]; cbn.
    + apply signalTrace_user. exact Hu.
    + reflexivity.
  - destruct (micCapture w) as [devs|].
    + run_action. rewrite callPeer_run. unfold offerTrace.
      destruct (createOffer w recipient) as [o|]; cbn.
      * f_equal.
        exact (signalTrace_user w OFFER (Some recipient) (sdpPayload o)
                 (set_isMicOn false (set_localStream (Some (mutedStream devs)) st))
                 me Hu).
      * reflexivity.
    + run_action. reflexivity.
Qed.

Lemma addToCall_trace w st me ids recipient :
  currentUser st = Some me ->
  isInCall st = true ->
  activeCallData st = Some ids ->
  trace (addToCall w recipient st) = trace (initiateCallConnection w recipient st).
Proof.
  intros Hu Hc Ha. unfold addToCall. rewrite bind_get, Hu, Hc, Ha. cbn [isSome negb orb].
  unfold bind.
  destruct (initiateCallConnection_call w recipient st) as (Ho & _).
  destruct (initiateCallConnection w recipient st) as [o st1 t1]. cbn in Ho.
  subst o. run_action. apply app_nil_r.
Qed.

(** C3, as the code has it: [addToCall] on an active call appends the
    recipient to the active participants once [initiateCallConnection] has
    returned, whatever the world answered.  With local media there or
    granted, a local offer that is created is handed to the signaling send
    as an OFFER envelope for the recipient; a failed offer creation is
    caught inside [initiateCallConnection] and logged there ("Error
    initiating connection:"), no OFFER goes out to the recipient, and the
    recipient is a participant all the same. *)
Theorem addToCall_appends_recipient w st me ids recipient :
  currentUser st = Some me ->
  isInCall st = true ->
  activeCallData st = Some ids ->
  let r := addToCall w recipient st in
  let media := isSome (localStream st) || isSome (micCapture w) in
  outcome r = Returned tt /\
  activeParticipants (final r) = ids ++ [recipient] /\
  trace r =
    (match localStream st with
     | Some _ => []
     | None => [EGetUserMedia true false (isSome (micCapture w))]
     end) ++
    (if media then
       match createOffer w recipient with
       | Some o =>
           ESignal (mkSignal OFFER me (Some recipient) (sdpPayload o)) (delivery w st)
           :: sendWarning (delivery w st)
       | None => [EConsole "Error initiating connection:"]
       end
     else [EConsole "No audio device found"]) /\
  (createOffer w recipient = None ->
   existsb (isSignalTo OFFER recipient) (trace r) = false /\
   (media = true -> In (EConsole "Error initiating connection:") (trace r))).
Proof.
  intros Hu Hc Ha r media.
  destruct (addToCall_run_call w st me ids recipient Hu Hc Ha) as (Ho & _ & Hd).
  assert (Ht : trace r =
    (match localStream st with
     | Some _ => []
     | None => [EGetUserMedia true false (isSome (micCapture w))]
     end) ++
    (if media then
       match createOffer w recipient with
       | Some o =>
           ESignal (mkSignal OFFER me (Some recipient) (sdpPayload o)) (delivery w st)
           :: sendWarning (delivery w st)
       | None => [EConsole "Error initiating connection:"]
       end
     else [EConsole "No audio device found"])).
  { subst r media. rewrite (addToCall_trace w st me ids recipient Hu Hc Ha).
    apply initiateCallConnection_trace. exact Hu. }
  split; [exact Ho|]. split.
  { subst r. unfold activeParticipants. rewrite Hd. reflexivity. }
  split; [exact Ht|].
  intros Hnone. rewrite Ht, Hnone. split.
  - destruct (localStream st), media; reflexivity.
  - intros ->. apply in_or_app. right. left. reflexivity.
Qed.

(** C3 fails as stated: Bob is in a call with Alice and adds Carol in a world
    where no local offer can be created; no OFFER goes out to Carol, the
    failure is logged, and Carol is a participant all the same. *)
Lemma addToCall_appends_despite_failed_offer :
  phase bobCallsAlice = Active /\
  activeParticipants bobCallsAlice = ["alice"] /\
  createOffer (noNegotiation 2000) "carol" = None /\
  existsb (isSignalTo OFFER "carol")
    (trace (addToCall (noNegotiation 2000) "carol" bobCallsAlice)) = false /\
  trace (addToCall (noNegotiation 2000) "carol" bobCallsAlice)
    = [EConsole "Error initiating connection:"] /\
  activeParticipants (final (addToCall (noNegotiation 2000) "carol" bobCallsAlice))
    = ["alice"; "carol"].
Proof. repeat split; reflexivity. Qed.

(** ** A hang-up from the pending caller *)

Lemma filter_map_none {A B} (p : B -> bool) (f : A -> B) (l : list A) :
  (forall x, p (f x) = false) -> filter p (map f l) = [].
Proof.
  intros H. induction l as [|x l IH]; [reflexivity|].
  cbn. rewrite H. exact IH.
Qed.

Lemma missedCall_run w me sender st :
  missedCall w me sender st =
  mkRun (Returned tt) (set_incomingCall None st) (missedCallTrace w me sender st).
Proof.
  unfold missedCall, missedCallTrace. rewrite bind_get.
  destruct (insertNotification w), (insertMessage w); reflexivity.
Qed.

Lemma cleanupCall_run st :
  cleanupCall st = mkRun (Returned tt) (cleared st) (cleanupTrace st).
Proof.
  unfold cleanupCall, cleanupTrace. rewrite bind_get. run_action.
  rewrite !app_nil_r. reflexivity.
Qed.

Arguments cleanupCall : simpl never.

(** [handleRemoteHangup], case by case: the connection of the sender is
    closed and dropped; without call data nothing else happens; when the
    sender was the last participant the call is cleaned up; otherwise the
    sender leaves the participants. *)
Lemma handleRemoteHangup_run sender st :
  let closed := match registry_get (peerConnections st) sender with
                | Some _ => [EPcClose sender]
                | None => []
                end in
  let st1 := match registry_get (peerConnections st) sender with
             | Some _ => set_peerConnections (registry_delete (peerConnections st) sender) st
             | None => st
             end in
  handleRemoteHangup sender st =
  match activeCallData st with
  | None => mkRun (Returned tt) st1 closed
  | Some ids =>
      match remaining sender ids with
      | [] => mkRun (Returned tt) (cleared st1) (closed ++ cleanupTrace st1)
      | newIds => mkRun (Returned tt) (set_activeCallData (Some newIds) st1) closed
      end
  end.
Proof.
  cbv zeta. unfold handleRemoteHangup, remaining. rewrite bind_get.
  destruct (registry_get (peerConnections st) sender); run_action;
    (destruct (activeCallData st) as [ids|]; [|reflexivity]);
    (destruct (filter (fun id => negb (String.eqb id sender)) ids); [|reflexivity]);
    rewrite cleanupCall_run; cbn; rewrite app_nil_r; reflexivity.
Qed.

Lemma handleRemoteHangup_quiet sender st :
  outcome (handleRemoteHangup sender st) = Returned tt /\
  incomingCall (final (handleRemoteHangup sender st)) = incomingCall st /\
  currentUser (final (handleRemoteHangup sender st)) = currentUser st /\
  (isInCall st = false -> isInCall (final (handleRemoteHangup sender st)) = false) /\
  filter isNotificationInsert (trace (handleRemoteHangup sender st)) = [] /\
  filter isMessageInsert (trace (handleRemoteHangup sender st)) = [].
Proof.
  rewrite handleRemoteHangup_run. unfold cleanupTrace.
  destruct (registry_get (peerConnections st) sender);
    destruct (activeCallData st) as [ids|];
    try destruct (remaining sender ids); cbn;
    rewrite ?filter_app, ?filter_map_none by reflexivity;
    repeat split; auto.
Qed.

Lemma onSignal_hangup w st me sig :
  currentUser st = Some me ->
  sigType sig = HANGUP ->
  notForUs me sig = false ->
  senderId sig <> me ->
  onSignal w sig st =
  (match incomingCall st with
   | Some call =>
       if String.eqb (callerId call) (senderId sig) then missedCall w me (senderId sig)
       else ret tt
   | None => ret tt
   end ;;
   handleRemoteHangup (senderId sig)) st.
Proof.
  intros Hu Hty Hfor Hself. unfold onSignal. rewrite bind_get, Hu, Hfor, Hty.
  apply String.eqb_neq in Hself. rewrite Hself. reflexivity.
Qed.

(** C4: a HANGUP envelope for the local user whose sender is the caller of the
    pending incoming call makes the handler (which returns normally) issue
    exactly one insert into the notifications and exactly one insert into
    the messages, whatever either insert answers.  The notification row is
    a missed-call notification for the local user from the caller: its id
    starts with "n-", recipient the local user, sender and link the caller,
    type MISSED_CALL, title "Missed Call", unread, and its message names
    the caller as the users list has them, "Unknown User" otherwise.  The
    message row is a chat message from the caller to the local user: its id
    starts with "m-", text "Missed Call", type "missed_call", no
    attachment.  A failed insert is logged; the stored offer is cleared
    and the phase is [Idle] afterwards. *)
Theorem hangup_from_pending_caller_is_missed_call w st me call sig :
  currentUser st = Some me ->
  phase st = IncomingPending ->
  incomingCall st = Some call ->
  sigType sig = HANGUP ->
  senderId sig = callerId call ->
  notForUs me sig = false ->
  senderId sig <> me ->
  let r := onSignal w sig st in
  outcome r = Returned tt /\
  (exists nrow mrow,
     filter isNotificationInsert (trace r)
       = [EInsertNotification nrow (insertNotification w)] /\
     filter isMessageInsert (trace r) = [EInsertMessage mrow (insertMessage w)] /\
     idPrefix (n_id nrow) = "n-" /\
     n_recipient_id nrow = me /\
     n_sender_id nrow = callerId call /\
     n_type nrow = MISSED_CALL /\
     n_title nrow = "Missed Call" /\
     n_message nrow
       = ("You missed a call from " ++
          match find (fun u => String.eqb (userId u) (callerId call)) (users st) with
          | Some u => userName u
          | None => "Unknown User"
          end)%string /\
     n_read nrow = false /\
     n_link_to nrow = callerId call /\
     idPrefix (m_id mrow) = "m-" /\
     m_sender_id mrow = callerId call /\
     m_recipient_id mrow = me /\
     m_text mrow = "Missed Call" /\
     m_type mrow = "missed_call" /\
     m_attachments mrow = []) /\
  (insertNotification w = false ->
   In (EConsole "Error creating missed call notification:") (trace r)) /\
  (insertMessage w = false ->
   In (EConsole "Error creating missed call message:") (trace r)) /\
  incomingCall (final r) = None /\
  phase (final r) = Idle.
Proof.
  intros Hu Hp Hc Hty Hs Hfor Hself r. subst r.
  rewrite (onSignal_hangup w st me sig Hu Hty Hfor Hself).
  rewrite Hc, Hs, String.eqb_refl. unfold bind. rewrite missedCall_run.
  assert (Hin : isInCall (set_incomingCall None st) = false).
  { unfold phase in Hp. cbn. destruct (isInCall st); [discriminate | reflexivity]. }
  destruct (handleRemoteHangup_quiet (callerId call) (set_incomingCall None st))
    as (Ho & Hi & _ & Hcall & Hn & Hm).
  specialize (Hcall Hin).
  destruct (handleRemoteHangup (callerId call) (set_incomingCall None st)) as [o st2 t2].
  cbn in Ho, Hi, Hcall, Hn, Hm. cbn [outcome final trace].
  unfold missedCallTrace.
  split; [exact Ho|]. split.
  { exists (missedCallNotification w me (callerId call)
              (callerName (users st) (callerId call))),
           (missedCallMessage w me (callerId call)).
    split.
    { destruct (insertNotification w), (insertMessage w); cbn; rewrite Hn; reflexivity. }
    split.
    { destruct (insertNotification w), (insertMessage w); cbn; rewrite Hm; reflexivity. }
    repeat split. }
  split.
  { intros ->. cbn. right. left. reflexivity. }
  split.
  { intros ->. apply in_or_app. left.
    destruct (insertNotification w); cbn; auto 6. }
  split; [exact Hi|].
  unfold phase. rewrite Hcall, Hi. reflexivity.
Qed.

(** ** Starting an outbound call *)

Lemma startGroupCall_run w st me recipients :
  currentUser st = Some me ->
  recipients <> [] ->
  startGroupCall w recipients st =
  match localStream st with
  | Some s =>
      mkRun (Returned tt) (called recipients s (inCallWith recipients st))
            (flat_map (callTrace w st) recipients)
  | None =>
      match micCapture w with
      | Some devs =>
          mkRun (Returned tt)
                (called recipients (mutedStream devs)
                   (inCallWith recipients
                      (set_localStream (Some (mutedStream devs))
                         (set_isCameraOn false (set_isMicOn false st)))))
                (EGetUserMedia true false true :: flat_map (callTrace w st) recipients)
      | None =>
          mkRun (Returned tt) st
                [EGetUserMedia true false false;
                 EConsole "Error getting user media";
                 EAlert "Could not access microphone. Call cannot start."]
      end
  end.
Proof.
  intros Hu Hne.
  assert (Hlen : Nat.eqb (length recipients) 0 = false)
    by (destruct recipients; [contradiction | reflexivity]).
  unfold startGroupCall. rewrite bind_get, Hu, Hlen. cbn [isSome negb orb].
  destruct (localStream st) as [s|].
  - rewrite bind_ret. unfold setIsInCall, setActiveCallData.
    rewrite !bind_modify, callAll_run. reflexivity.
  - destruct (micCapture w) as [devs|].
    + unfold bind at 1. rewrite bind_emit.
      unfold setIsMicOn, setIsCameraOn, setLocalStream, setIsInCall, setActiveCallData.
      rewrite !bind_modify. cbn [ret outcome final trace].
      rewrite !bind_modify, callAll_run. reflexivity.
    + run_action. reflexivity.
Qed.

(** What one recipient of [startGroupCall] adds to the OFFER envelopes
    addressed to [x]: one, when it is [x] and the offer is created. *)
Lemma callTrace_offers w st me x y :
  currentUser st = Some me ->
  length (filter (isSignalTo OFFER x) (callTrace w st y))
  = match createOffer w y with
    | Some _ => if String.eqb y x then 1 else 0
    | None => 0
    end.
Proof.
  intros Hu. unfold callTrace. destruct (createOffer w y) as [o|]; [|reflexivity].
  rewrite (signalTrace_user w OFFER (Some y) (sdpPayload o) st me Hu).
  cbn. destruct (String.eqb y x), (delivery w st); reflexivity.
Qed.

Lemma callAll_offers w st me x recipients :
  currentUser st = Some me ->
  length (filter (isSignalTo OFFER x) (flat_map (callTrace w st) recipients))
  = match createOffer w x with
    | Some _ => count_occ string_dec recipients x
    | None => 0
    end.
Proof.
  intros Hu. induction recipients as [|y rest IH].
  - cbn. destruct (createOffer w x); reflexivity.
  - cbn [flat_map]. rewrite filter_app, length_app, IH, (callTrace_offers w st me x y Hu).
    destruct (String.eqb y x) eqn:He.
    + apply String.eqb_eq in He. subst y. rewrite count_occ_cons_eq by reflexivity.
      destruct (createOffer w x); reflexivity.
    + apply String.eqb_neq in He. rewrite count_occ_cons_neq by exact He.
      destruct (createOffer w y), (createOffer w x); reflexivity.
Qed.

(** Every send of [startGroupCall] is the OFFER of a recipient whose offer
    was created, and every log of a failed call names a recipient whose
    offer was not. *)
Lemma callAll_only w st me recipients :
  currentUser st = Some me ->
  (forall sig d, In (ESignal sig d) (flat_map (callTrace w st) recipients) ->
     exists x o, In x recipients /\ createOffer w x = Some o /\
                 sig = mkSignal OFFER me (Some x) (sdpPayload o) /\ d = delivery w st) /\
  (forall x, In (EConsole ("Failed to call " ++ x)) (flat_map (callTrace w st) recipients) ->
     In x recipients /\ createOffer w x = None).
Proof.
  intros Hu. split.
  - intros sig d Hin. apply in_flat_map in Hin. destruct Hin as (x & Hx & Hin).
    unfold callTrace in Hin. destruct (createOffer w x) as [o|] eqn:Ho.
    + rewrite (signalTrace_user w OFFER (Some x) (sdpPayload o) st me Hu) in Hin.
      destruct Hin as [Heq|Hin].
      * injection Heq as <- <-. exists x, o. repeat split; assumption.
      * unfold sendWarning in Hin. destruct (delivery w st); cbn in Hin;
          try contradiction. destruct Hin as [Heq|[]]. discriminate.
    + destruct Hin as [Heq|[]]. discriminate.
  - intros x Hin. apply in_flat_map in Hin. destruct Hin as (y & Hy & Hin).
    unfold callTrace in Hin. destruct (createOffer w y) as [o|] eqn:Ho.
    + rewrite (signalTrace_user w OFFER (Some y) (sdpPayload o) st me Hu) in Hin.
      destruct Hin as [Heq|Hin]; [discriminate|].
      unfold sendWarning in Hin. destruct (delivery w st); cbn in Hin;
        try contradiction. destruct Hin as [Heq|[]]. discriminate.
    + destruct Hin as [Heq|[]]. cbn in Heq. injection Heq as <-. split; assumption.
Qed.

(** C6, as the code has it: an outbound call started from [Idle] by a logged-in
    user with a non-empty recipient list, whose local media is there or is
    granted, enters [Active] with the requested recipients as participants
    within the action itself (no ANSWER is awaited), whatever happens to the
    offers: a recipient whose local offer is created gets an OFFER envelope
    handed to the signaling send (broadcast, dropped or failed as the
    transport decides), one for each time the recipient is listed; a
    recipient whose offer creation fails is logged and gets no OFFER; and
    nothing else is handed to the signaling send. *)
Theorem startGroupCall_enters_active w st me recipients :
  currentUser st = Some me ->
  phase st = Idle ->
  recipients <> [] ->
  (localStream st <> None \/ micCapture w <> None) ->
  let r := startGroupCall w recipients st in
  outcome r = Returned tt /\
  phase (final r) = Active /\
  activeParticipants (final r) = recipients /\
  (forall x o, In x recipients -> createOffer w x = Some o ->
     In (ESignal (mkSignal OFFER me (Some x) (sdpPayload o)) (delivery w st)) (trace r)) /\
  (forall x, length (filter (isSignalTo OFFER x) (trace r))
             = match createOffer w x with
               | Some _ => count_occ string_dec recipients x
               | None => 0
               end) /\
  (forall sig d, In (ESignal sig d) (trace r) ->
     exists x o, In x recipients /\ createOffer w x = Some o /\
                 sig = mkSignal OFFER me (Some x) (sdpPayload o) /\ d = delivery w st) /\
  (forall x, In (EConsole ("Failed to call " ++ x)) (trace r)
             <-> In x recipients /\ createOffer w x = None).
Proof.
  intros Hu Hp Hne Hmedia r. subst r.
  rewrite (startGroupCall_run w st me recipients Hu Hne).
  assert (Hsent : forall x o, In x recipients -> createOffer w x = Some o ->
            In (ESignal (mkSignal OFFER me (Some x) (sdpPayload o)) (delivery w st))
               (flat_map (callTrace w st) recipients)).
  { intros x o Hx Ho. apply in_flat_map. exists x. split; [exact Hx|].
    unfold callTrace, signalTrace. rewrite Ho, Hu. left. reflexivity. }
  assert (Hlog : forall x, In x recipients /\ createOffer w x = None ->
            In (EConsole ("Failed to call " ++ x)) (flat_map (callTrace w st) recipients)).
  { intros x [Hx Ho]. apply in_flat_map. exists x. split; [exact Hx|].
    unfold callTrace. rewrite Ho. left. reflexivity. }
  destruct (callAll_only w st me recipients Hu) as [Honly Hfailed].
  pose proof (fun x => callAll_offers w st me x recipients Hu) as Hcount.
  destruct (localStream st) as [s|].
  - cbn [outcome final trace]. split; [reflexivity|]. split; [reflexivity|].
    split; [reflexivity|]. split; [exact Hsent|]. split; [exact Hcount|].
    split; [exact Honly|].
    intros x. split; [apply Hfailed | apply Hlog].
  - destruct (micCapture w) as [devs|].
    + cbn [outcome final trace]. split; [reflexivity|]. split; [reflexivity|].
      split; [reflexivity|]. split; [intros; right; auto|].
      split; [intros x; cbn [filter isSignalTo]; apply Hcount|].
      split.
      * intros sig d [Heq|Hin]; [discriminate|]. apply Honly. exact Hin.
      * intros x. split.
        -- intros [Heq|Hin]; [discriminate|]. apply Hfailed. exact Hin.
        -- intros H. right. apply Hlog. exact H.
    + destruct Hmedia as [H | H]; contradiction.
Qed.

(** C6 fails as stated: Bob, idle and connected, calls Alice in a world where
    the microphone is granted but no local offer can be created; the phase
    becomes [Active] with Alice as participant, yet no OFFER is sent to her. *)
Lemma startCall_active_without_offer :
  phase bobOnline = Idle /\
  micCapture (noNegotiation 1000) <> None /\
  phase (final (startGroupCall (noNegotiation 1000) ["alice"] bobOnline)) = Active /\
  activeParticipants (final (startGroupCall (noNegotiation 1000) ["alice"] bobOnline))
    = ["alice"] /\
  existsb (isSignalTo OFFER "alice")
    (trace (startGroupCall (noNegotiation 1000) ["alice"] bobOnline)) = false /\
  trace (startGroupCall (noNegotiation 1000) ["alice"] bobOnline)
    = [EGetUserMedia true false true; EConsole "Failed to call alice"].
Proof. repeat split; try reflexivity. discriminate. Qed.

(** ** Relations kept by an action

    [keeps R c]: the state an action ends in, however it completes, is
    [R]-related to the state it started in. *)

Section Keeps.
Variable R : State -> State -> Prop.
Hypothesis R_refl : forall st, R st st.
Hypothesis R_trans : forall a b c, R a b -> R b c -> R a c.

Lemma keeps_ret {A} (a : A) : keeps R (ret a).
Proof. intros st. apply R_refl. Qed.

Lemma keeps_get : keeps R get.
Proof. intros st. apply R_refl. Qed.

Lemma keeps_throw {A} : keeps R (@throw A).
Proof. intros st. apply R_refl. Qed.

Lemma keeps_emit e : keeps R (emit e).
Proof. intros st. apply R_refl. Qed.

Lemma keeps_emitAll es : keeps R (emitAll es).
Proof. intros st. apply R_refl. Qed.

Lemma keeps_modify f : (forall st, R st (f st)) -> keeps R (modify f).
Proof. intros H st. apply H. Qed.

Lemma keeps_bind {A B} (c : Action A) (k : A -> Action B) :
  keeps R c -> (forall a, keeps R (k a)) -> keeps R (bind c k).
Proof.
  intros Hc Hk st. unfold bind. specialize (Hc st).
  destruct (c st) as [[a|] st1 t1]; cbn in *; [|exact Hc].
  specialize (Hk a st1). destruct (k a st1) as [o st2 t2]; cbn in *.
  eapply R_trans; eassumption.
Qed.

Lemma keeps_try_catch c h : keeps R c -> keeps R h -> keeps R (try_catch c h).
Proof.
  intros Hc Hh st. unfold try_catch. specialize (Hc st).
  destruct (c st) as [[a|] st1 t1]; cbn in *; [exact Hc|].
  specialize (Hh st1). destruct (h st1) as [o st2 t2]; cbn in *.
  eapply R_trans; eassumption.
Qed.

Lemma keeps_forEach {A} (l : list A) body :
  (forall x, keeps R (body x)) -> keeps R (forEach l body).
Proof.
  intros H. induction l as [|x l IH]; cbn [forEach].
  - apply keeps_ret.
  - apply keeps_bind; [apply H | intros _; exact IH].
Qed.

Lemma keeps_sendSignal w ty to p : keeps R (sendSignal w ty to p).
Proof. intros st. rewrite sendSignal_run. apply R_refl. Qed.

Lemma keeps_renegotiate w : keeps R (renegotiate w).
Proof. intros st. rewrite renegotiate_run. apply R_refl. Qed.

Lemma keeps_offerTo w peer : keeps R (offerTo w peer).
Proof. intros st. rewrite offerTo_run. apply R_refl. Qed.
End Keeps.

(** Break an action into its parts, down to the state updates. *)
Ltac keeps_step :=
  first
    [ solve [auto]
    | simple apply keeps_ret; solve [eauto]
    | simple apply keeps_get; solve [eauto]
    | simple apply keeps_throw; solve [eauto]
    | simple apply keeps_emit; solve [eauto]
    | simple apply keeps_emitAll; solve [eauto]
    | simple apply keeps_sendSignal; solve [eauto]
    | simple apply keeps_renegotiate; solve [eauto]
    | simple apply keeps_offerTo; solve [eauto]
    | simple apply keeps_bind; [solve [eauto] | | intros ?]
    | simple apply keeps_try_catch; [solve [eauto] | | ]
    | simple apply keeps_forEach; [solve [eauto] | solve [eauto] | intros ?]
    | match goal with
      | |- keeps _ (match ?x with _ => _ end) => destruct x
      | |- keeps _ (if ?x then _ else _) => destruct x
      | |- keeps _ (let '(_, _) := ?x in _) => destruct x
      end ].

(** *** The call view: what the toggles never touch *)

Lemma mediaOnly_refl st : mediaOnly st st.
Proof. repeat split. Qed.

Lemma mediaOnly_trans a b c : mediaOnly a b -> mediaOnly b c -> mediaOnly a c.
Proof.
  unfold mediaOnly. intros (H1 & H2 & H3 & H4 & H5 & H6) (G1 & G2 & G3 & G4 & G5 & G6).
  repeat split; congruence.
Qed.

#[local] Hint Resolve mediaOnly_refl mediaOnly_trans : core.

Lemma getAudioTracks_drop_video (p : MediaStreamTrack -> bool) (s : MediaStream) :
  getAudioTracks (filter (fun t => negb (isVideo t && p t)) s) = getAudioTracks s.
Proof.
  unfold getAudioTracks. induction s as [|t s IH]; [reflexivity|].
  cbn [filter]. unfold isVideo at 1, isAudio at 2.
  destruct (kind t) eqn:K; cbn.
  - unfold isAudio at 1. rewrite K. cbn. rewrite IH. reflexivity.
  - destruct (p t); cbn; [exact IH|].
    unfold isAudio at 1. rewrite K. cbn. exact IH.
Qed.

Lemma getAudioTracks_addTrack_video (t : MediaStreamTrack) (s : MediaStream) :
  kind t = Video -> getAudioTracks (addTrack t s) = getAudioTracks s.
Proof.
  intros K. unfold addTrack. destruct (existsb _ s); [reflexivity|].
  unfold getAudioTracks. rewrite filter_app. cbn. unfold isAudio at 2. rewrite K. cbn.
  apply app_nil_r.
Qed.

Lemma keeps_stopVideoTracks p : keeps mediaOnly (stopVideoTracks p).
Proof.
  intros st. unfold stopVideoTracks. rewrite bind_get.
  destruct (localStream st) as [s|] eqn:Hs; [|apply mediaOnly_refl].
  run_action. unfold mediaOnly. cbn. rewrite Hs. cbn.
  rewrite getAudioTracks_drop_video. repeat split.
Qed.

Lemma keeps_addLocalTrack id lbl surface :
  keeps mediaOnly (addLocalTrack (mkTrack id Video lbl surface true)).
Proof.
  intros st. unfold addLocalTrack, modify, mediaOnly. cbn.
  destruct (localStream st) as [s|]; cbn; [|repeat split].
  rewrite getAudioTracks_addTrack_video by reflexivity. repeat split.
Qed.

Lemma keeps_forEachPeer f : keeps mediaOnly (forEachPeer f).
Proof. intros st. repeat split. Qed.

Lemma keeps_setIsScreenSharing b : keeps mediaOnly (setIsScreenSharing b).
Proof. intros st. repeat split. Qed.

Lemma keeps_setIsCameraOn b : keeps mediaOnly (setIsCameraOn b).
Proof. intros st. repeat split. Qed.

#[local] Hint Resolve keeps_stopVideoTracks keeps_addLocalTrack keeps_forEachPeer
  keeps_setIsScreenSharing keeps_setIsCameraOn : core.

Lemma keeps_stopScreenSharing w : keeps mediaOnly (stopScreenSharing w).
Proof. unfold stopScreenSharing. repeat keeps_step. Qed.

#[local] Hint Resolve keeps_stopScreenSharing : core.

Lemma keeps_toggleCamera w : keeps mediaOnly (toggleCamera w).
Proof. unfold toggleCamera. repeat keeps_step. Qed.

Lemma keeps_toggleScreenShare w : keeps mediaOnly (toggleScreenShare w).
Proof. unfold toggleScreenShare. repeat keeps_step. Qed.

(** ** Invariants of the reachable states *)

Lemma wf_initialState stored us : wf (initialState stored us).
Proof. repeat split. Qed.

Lemma wf_mediaOnly st st' : mediaOnly st st' -> wf st -> wf st'.
Proof.
  unfold mediaOnly, wf, callInv, micOk, userInv.
  intros (Hu & Hi & Hc & Ha & Hm & Hs) (Hcall & Hmic & Huser).
  rewrite Hu, Hi, Hc, Ha, Hm. split; [exact Hcall|]. split.
  - destruct (localStream st') as [s'|]; [|exact I].
    destruct (localStream st) as [s|]; [|discriminate].
    cbn in Hs. injection Hs as Hs. rewrite Hs. exact Hmic.
  - intros Hnone. destruct (Huser Hnone) as [H1 H2]. split; [|exact H2].
    rewrite H1 in Hs. destruct (localStream st'); [discriminate | reflexivity].
Qed.

Lemma setAudioEnabled_enabled b s t :
  In t (getAudioTracks (setAudioEnabled b s)) -> enabled t = b.
Proof.
  unfold getAudioTracks, setAudioEnabled. induction s as [|x s IH]; [contradiction|].
  cbn [map filter]. destruct (isAudio x) eqn:K.
  - unfold isAudio at 1. cbn [kind]. fold (isAudio x). rewrite K.
    intros [<- | H]; [reflexivity | exact (IH H)].
  - rewrite K. exact IH.
Qed.

Lemma mutedStream_enabled devs t :
  In t (getAudioTracks (mutedStream devs)) -> enabled t = false.
Proof. apply setAudioEnabled_enabled. Qed.

Lemma wf_set_peerConnections r st : wf st -> wf (set_peerConnections r st).
Proof. apply wf_mediaOnly. repeat split. Qed.

Ltac wf_parts :=
  unfold wf, callInv, micOk, userInv in *; cbn in *.

(** *** Session and transport *)

Lemma login_wf u st : wf st -> wf (final (login u st)).
Proof.
  intros (Hc & Hm & Hu). unfold login. rewrite bind_get.
  destruct (isSome (currentUser st)); run_action;
    (split; [exact Hc | split; [exact Hm | intros H; discriminate]]).
Qed.

Lemma logout_wf st : wf st -> wf (final (logout st)).
Proof.
  intros _. unfold logout. rewrite bind_get. unfold setIncomingCall, setIsInCall.
  rewrite !bind_modify. unfold bind. rewrite cleanupCall_run.
  destruct (isSome (currentUser st)); cbn; repeat split.
Qed.

Lemma onChannelStatus_wf w b st : wf st -> wf (final (onChannelStatus w b st)).
Proof.
  intros H. unfold onChannelStatus. rewrite bind_get.
  destruct (currentUser st) eqn:Hu; [|exact H].
  destruct b; [rewrite bind_modify, sendSignal_run|]; cbn;
    (eapply wf_mediaOnly; [|exact H]); repeat split.
Qed.

(** *** Call actions *)

Lemma rejectIncomingCall_wf w st : wf st -> wf (final (rejectIncomingCall w st)).
Proof.
  intros H. unfold rejectIncomingCall. rewrite bind_get.
  destruct (incomingCall st) as [call|] eqn:Hc; [|exact H].
  destruct (currentUser st) as [me|] eqn:Hu; [|exact H].
  unfold bind. rewrite sendSignal_run. run_action.
  destruct H as (H1 & H2 & H3). wf_parts. split; [exact H1|]. split; [exact H2|].
  intros Hn. rewrite Hn in Hu. discriminate.
Qed.

Lemma cleared_wf st : userInv st -> wf (cleared st).
Proof.
  intros Hu. split; [reflexivity|]. split; [exact I|].
  intros Hn. split; [reflexivity|]. apply (Hu Hn).
Qed.

Lemma endCall_wf w st : wf st -> wf (final (endCall w st)).
Proof.
  intros (_ & _ & Hu). unfold endCall.
  assert (Hpre : forall c : Action unit,
            (forall s, c s = mkRun (Returned tt) s (trace (c s))) ->
            wf (final (bind c (fun _ => cleanupCall) st))).
  { intros c Hc. unfold bind. rewrite Hc, cleanupCall_run. cbn.
    apply cleared_wf. exact Hu. }
  rewrite bind_get.
  destruct (activeCallData st) as [ids|]; [destruct (currentUser st)|];
    apply Hpre; intros s; rewrite ?hangupAll_run; reflexivity.
Qed.

Lemma handleRemoteHangup_wf sender st : wf st -> wf (final (handleRemoteHangup sender st)).
Proof.
  intros H. rewrite handleRemoteHangup_run.
  set (st1 := match registry_get (peerConnections st) sender with
              | Some _ => set_peerConnections (registry_delete (peerConnections st) sender) st
              | None => st
              end).
  assert (H1 : wf st1).
  { subst st1. destruct (registry_get (peerConnections st) sender); [|exact H].
    eapply wf_mediaOnly; [|exact H]. repeat split. }
  assert (Ha : activeCallData st = activeCallData st1)
    by (subst st1; destruct (registry_get (peerConnections st) sender); reflexivity).
  rewrite Ha. clearbody st1. clear H Ha.
  destruct (activeCallData st1) as [ids|] eqn:Hd; [|exact H1].
  destruct (remaining sender ids) as [|x rest] eqn:Hr; cbn [final].
  - apply cleared_wf. apply H1.
  - destruct H1 as (Hc & Hm & Hu). wf_parts. rewrite Hd in Hc.
    split; [split; [apply Hc | discriminate]|]. split; assumption.
Qed.

Lemma startGroupCall_wf w recipients st : wf st -> wf (final (startGroupCall w recipients st)).
Proof.
  intros H. destruct (currentUser st) as [me|] eqn:Hu.
  - destruct recipients as [|x rest].
    + unfold startGroupCall. rewrite bind_get, Hu. exact H.
    + rewrite (startGroupCall_run w st me (x :: rest) Hu) by discriminate.
      destruct H as (Hc & Hm & Hv).
      destruct (localStream st) as [s|] eqn:Hs.
      * wf_parts. rewrite Hs in Hm. rewrite Hs, Hu.
        repeat split; try discriminate. exact Hm.
      * destruct (micCapture w) as [devs|].
        -- wf_parts. rewrite Hu. repeat split; try discriminate.
           apply mutedStream_enabled.
        -- cbn [final]. exact (conj Hc (conj Hm Hv)).
  - unfold startGroupCall. rewrite bind_get, Hu. exact H.
Qed.

Lemma initiateCallConnection_wf w recipient st :
  currentUser st <> None -> wf st -> wf (final (initiateCallConnection w recipient st)).
Proof.
  intros Hu H. assert (H' := H). destruct H' as (Hc & Hm & Hv).
  unfold initiateCallConnection, try_catch. rewrite bind_get.
  destruct (localStream st) as [s|] eqn:Hs.
  - rewrite callPeer_run. destruct (createOffer w recipient); cbn [final];
      apply wf_set_peerConnections; exact H.
  - destruct (micCapture w) as [devs|].
    + run_action. rewrite callPeer_run.
      destruct (createOffer w recipient); cbn;
        wf_parts; (split; [exact Hc|]); (split; [apply mutedStream_enabled|]);
        intros Hn; contradiction.
    + run_action. exact (conj Hc (conj Hm Hv)).
Qed.

Lemma addToCall_wf w recipient st : wf st -> wf (final (addToCall w recipient st)).
Proof.
  intros H. unfold addToCall. rewrite bind_get.
  destruct (currentUser st) as [me|] eqn:Hu; [|exact H].
  destruct (isInCall st) eqn:Hc; [|exact H].
  destruct (activeCallData st) as [ids|] eqn:Ha; [|exact H].
  cbn [isSome negb orb]. unfold bind.
  assert (Hw := initiateCallConnection_wf w recipient st).
  destruct (initiateCallConnection_call w recipient st) as (Ho & Hi & Hd & _).
  destruct (initiateCallConnection w recipient st) as [o st1 t1]. cbn in Ho, Hi, Hd, Hw.
  subst o. run_action.
  destruct Hw as (H1 & H2 & H3); [rewrite Hu; discriminate | exact H |].
  wf_parts. rewrite Hd, Ha, Hi, Hc. split; [|split; assumption].
  split; [reflexivity|]. destruct ids; discriminate.
Qed.

Lemma acceptIncomingCall_wf w st : wf st -> wf (final (acceptIncomingCall w st)).
Proof.
  intros H. unfold acceptIncomingCall. rewrite bind_get.
  destruct (incomingCall st) as [call|] eqn:Hi; [|exact H].
  destruct (currentUser st) as [me|] eqn:Hu; [|exact H].
  destruct H as (Hc & Hm & Hv). unfold try_catch.
  destruct (micCapture w) as [devs|].
  - destruct (offer call) as [o|]; [destruct (createAnswer w (callerId call) o)|];
      run_action; rewrite ?sendSignal_run; cbn;
      wf_parts; rewrite ?Hu; repeat split;
      try discriminate; try apply mutedStream_enabled; auto.
  - run_action. exact (conj Hc (conj Hm Hv)).
Qed.

(** *** The signaling handler *)

Lemma wfStep_refl st : wfStep st st.
Proof. intros H. exact H. Qed.

Lemma wfStep_trans a b c : wfStep a b -> wfStep b c -> wfStep a c.
Proof. unfold wfStep. auto. Qed.

Lemma missedCall_wf w me sender : keeps wfStep (missedCall w me sender).
Proof.
  intros st (Hc & Hm & Hv). rewrite missedCall_run. cbn [final].
  split; [exact Hc|]. split; [exact Hm|].
  intros Hn. destruct (Hv Hn) as [H1 _]. split; [exact H1 | reflexivity].
Qed.

Lemma onSignal_wf w sig st : wf st -> wf (final (onSignal w sig st)).
Proof.
  intros H. unfold onSignal. rewrite bind_get.
  destruct (currentUser st) as [me|] eqn:Hu; [|exact H].
  destruct (notForUs me sig); [exact H|].
  destruct (String.eqb (senderId sig) me); [exact H|].
  destruct (sigType sig).
  - exact H.
  - destruct (isInCall st && negb _); [exact H|].
    destruct (isInCall st && _).
    + destruct (registry_get (peerConnections st) (senderId sig)); [|exact H].
      destruct (sdp (payload sig)) as [remote|]; [|exact H].
      destruct (createAnswer w (senderId sig) remote); [|exact H].
      rewrite sendSignal_run. exact H.
    + destruct H as (Hc & Hm & Hv). run_action.
      split; [exact Hc|]. split; [exact Hm|].
      intros Hn. wf_parts. rewrite Hn in Hu. discriminate.
  - destruct (registry_get (peerConnections st) (senderId sig)); [|exact H].
    assert (Hpre : outcome
              (match sdp (payload sig) with
               | Some remote =>
                   if acceptAnswer w (senderId sig) remote then ret tt else throw
               | None => throw
               end st) = Thrown \/
            (match sdp (payload sig) with
             | Some remote =>
                 if acceptAnswer w (senderId sig) remote then ret tt else throw
             | None => throw
             end st) = mkRun (Returned tt) st []).
    { destruct (sdp (payload sig)) as [remote|]; [|left; reflexivity].
      destruct (acceptAnswer w (senderId sig) remote); [right | left]; reflexivity. }
    unfold bind.
    destruct Hpre as [Hthrown | Hok].
    + assert (Hst : final
                (match sdp (payload sig) with
                 | Some remote =>
                     if acceptAnswer w (senderId sig) remote then ret tt else throw
                 | None => throw
                 end st) = st).
      { destruct (sdp (payload sig)) as [remote|]; [|reflexivity].
        destruct (acceptAnswer w (senderId sig) remote); reflexivity. }
      destruct (match sdp (payload sig) with
                | Some remote =>
                    if acceptAnswer w (senderId sig) remote then ret tt else throw
                | None => throw
                end st) as [o st1 t1].
      cbn in Hthrown, Hst. subst o st1. exact H.
    + rewrite Hok. run_action.
      destruct H as (Hc & Hm & Hv). wf_parts. split; [|split; assumption].
      destruct (activeCallData st) as [ids|]; [|exact Hc].
      destruct (includesId ids (senderId sig)); [exact Hc|].
      split; [apply Hc|]. destruct ids; discriminate.
  - destruct (registry_get (peerConnections st) (senderId sig)); [|exact H].
    destruct (candidate (payload sig)) as [c|]; [|exact H].
    destruct (addIceCandidate w (senderId sig) c); exact H.
  - revert H. apply (keeps_bind wfStep wfStep_trans).
    + destruct (incomingCall st) as [call|]; [|apply keeps_ret, wfStep_refl].
      destruct (String.eqb (callerId call) (senderId sig));
        [apply missedCall_wf | apply keeps_ret, wfStep_refl].
    + intros _ st0 H0. apply handleRemoteHangup_wf, H0.
Qed.

(** *** Media toggles *)

Lemma toggleMic_run w st s :
  localStream st = Some s ->
  getAudioTracks s <> [] ->
  toggleMic w st =
  mkRun (Returned tt)
        (set_isMicOn (negb (isMicOn st))
           (set_localStream (Some (setAudioEnabled (negb (isMicOn st)) s)) st))
        (if negb (isMicOn st) then renegotiateTrace w st else []).
Proof.
  intros Hs Ha. unfold toggleMic. rewrite bind_get, Hs.
  destruct (getAudioTracks s) as [|t ts]; [contradiction|].
  unfold setLocalStream, setIsMicOn. rewrite !bind_modify.
  destruct (isMicOn st) eqn:Hm; cbn [negb].
  - reflexivity.
  - rewrite renegotiate_run. unfold renegotiateTrace. cbn. rewrite Hs. reflexivity.
Qed.

Lemma toggleMic_wf w st : wf st -> wf (final (toggleMic w st)).
Proof.
  intros H. destruct (localStream st) as [s|] eqn:Hs.
  - destruct (getAudioTracks s) as [|t ts] eqn:Ha.
    + unfold toggleMic. rewrite bind_get, Hs, Ha. exact H.
    + rewrite (toggleMic_run w st s Hs) by (rewrite Ha; discriminate).
      destruct H as (Hc & Hm & Hv). wf_parts.
      split; [exact Hc|]. split; [intros x; apply setAudioEnabled_enabled|].
      intros Hn. destruct (Hv Hn) as [H1 _]. rewrite H1 in Hs. discriminate.
  - unfold toggleMic. rewrite bind_get, Hs. exact H.
Qed.

(** *** Every action *)

Lemma step_wf w op st : wf st -> wf (final (step w op st)).
Proof.
  destruct op; cbn [step].
  - apply login_wf.
  - apply logout_wf.
  - apply onChannelStatus_wf.
  - apply onSignal_wf.
  - apply startGroupCall_wf.
  - apply startGroupCall_wf.
  - apply addToCall_wf.
  - apply acceptIncomingCall_wf.
  - apply rejectIncomingCall_wf.
  - apply endCall_wf.
  - apply toggleMic_wf.
  - apply wf_mediaOnly, keeps_toggleCamera.
  - apply wf_mediaOnly, keeps_toggleScreenShare.
  - apply wf_mediaOnly, keeps_stopScreenSharing.
  - unfold onicecandidate. rewrite sendSignal_run. intros H. exact H.
Qed.

Lemma run_wf ops st : wf st -> wf (run ops st).
Proof.
  revert st. induction ops as [|[w op] ops IH]; intros st H; [exact H|].
  cbn [run]. apply IH, step_wf, H.
Qed.

Lemma reachable_wf ops stored us : wf (run ops (initialState stored us)).
Proof. apply run_wf, wf_initialState. Qed.

(** A pending call belongs to a logged-in user. *)
Lemma pending_call_has_user ops stored us :
  incomingCall (run ops (initialState stored us)) <> None ->
  currentUser (run ops (initialState stored us)) <> None.
Proof.
  destruct (reachable_wf ops stored us) as (_ & _ & Hv).
  intros Hp Hn. apply Hp, (Hv Hn).
Qed.

Lemma callInv_phase st :
  callInv st -> (phase st = Active <-> activeParticipants st <> []).
Proof.
  unfold callInv, phase, activeParticipants.
  destruct (activeCallData st) as [ids|].
  - intros [-> Hne]. split; [intros _; exact Hne | reflexivity].
  - intros ->. split.
    + destruct (isSome (incomingCall st)); discriminate.
    + intros Hne. contradiction.
Qed.

(** C1: after every sequence of actions from the mount state (starting an
    outbound call, accepting or rejecting the incoming call, receiving any
    signal, HANGUP among them, ending the call, and also adding a
    participant, logging in or out and the media toggles, each in an
    arbitrary world) the phase is [Active], that is [isInCall] is true,
    exactly when the list of active participants is not empty. *)
Theorem active_iff_participants ops stored us :
  (phase (run ops (initialState stored us)) = Active <->
   activeParticipants (run ops (initialState stored us)) <> []) /\
  (isInCall (run ops (initialState stored us)) = true <->
   activeParticipants (run ops (initialState stored us)) <> []).
Proof.
  destruct (reachable_wf ops stored us) as (Hc & _ & _).
  pose proof (callInv_phase _ Hc) as Hp. split; [exact Hp|].
  rewrite <- Hp. unfold phase.
  destruct (isInCall (run ops (initialState stored us))).
  - split; reflexivity.
  - split; [discriminate|].
    destruct (isSome (incomingCall (run ops (initialState stored us)))); discriminate.
Qed.

(** ** Toggling the microphone *)

Lemma setAudioEnabled_flip st s :
  micOk st ->
  localStream st = Some s ->
  setAudioEnabled (negb (isMicOn st)) s = map flipAudio s.
Proof.
  unfold micOk. intros Hm Hs. rewrite Hs in Hm. unfold setAudioEnabled.
  apply map_ext_in. intros t Ht. unfold flipAudio.
  destruct (isAudio t) eqn:K; [|reflexivity].
  rewrite (Hm t); [reflexivity|].
  unfold getAudioTracks. apply filter_In. split; assumption.
Qed.

Lemma renegotiate_reaches_peer w st me peer pc :
  currentUser st = Some me ->
  In (peer, pc) (peerConnections st) ->
  match createOffer w peer with
  | Some o =>
      In (ESignal (mkSignal OFFER me (Some peer) (sdpPayload o)) (delivery w st))
         (flat_map (fun e => renegotiateWith w st (fst e)) (peerConnections st))
  | None =>
      In (EConsole "Renegotiation failed")
         (flat_map (fun e => renegotiateWith w st (fst e)) (peerConnections st))
  end.
Proof.
  intros Hu Hin.
  destruct (createOffer w peer) as [o|] eqn:Ho;
    apply in_flat_map; exists (peer, pc); (split; [exact Hin|]);
    unfold renegotiateWith; cbn [fst]; rewrite Ho.
  - unfold signalTrace. rewrite Hu. left. reflexivity.
  - left. reflexivity.
Qed.

Lemma withoutSendWarnings_app t1 t2 :
  withoutSendWarnings (t1 ++ t2) = withoutSendWarnings t1 ++ withoutSendWarnings t2.
Proof. unfold withoutSendWarnings. apply filter_app. Qed.

(** One [sendSignal] call, read without its warning; and as many warnings
    as failed sends. *)
Lemma signalTrace_call w ty to p st me :
  currentUser st = Some me ->
  withoutSendWarnings (signalTrace w ty to p st)
    = [ESignal (mkSignal ty me to p) (delivery w st)] /\
  length (filter isSendWarning (signalTrace w ty to p st))
    = length (filter isFailedSend (signalTrace w ty to p st)).
Proof.
  intros Hu. unfold signalTrace. rewrite Hu.
  destruct (delivery w st); split; reflexivity.
Qed.

Lemma calls_in_turn {A} (f : A -> list Effect) (g : A -> Effect) (l : list A) :
  (forall x, In x l -> withoutSendWarnings (f x) = [g x]) ->
  withoutSendWarnings (flat_map f l) = map g l.
Proof.
  induction l as [|x l IH]; intros H; [reflexivity|].
  cbn [flat_map map]. rewrite withoutSendWarnings_app, (H x (or_introl eq_refl)).
  cbn [app]. f_equal. apply IH. intros y Hy. apply H. right. exact Hy.
Qed.

Lemma warnings_match_failures {A} (f : A -> list Effect) (l : list A) :
  (forall x, In x l ->
     length (filter isSendWarning (f x)) = length (filter isFailedSend (f x))) ->
  length (filter isSendWarning (flat_map f l))
    = length (filter isFailedSend (flat_map f l)).
Proof.
  induction l as [|x l IH]; intros H; [reflexivity|].
  cbn [flat_map]. rewrite !filter_app, !length_app, (H x (or_introl eq_refl)).
  f_equal. apply IH. intros y Hy. apply H. right. exact Hy.
Qed.

Lemma renegotiateWith_call w st me peer :
  currentUser st = Some me ->
  withoutSendWarnings (renegotiateWith w st peer)
    = [match createOffer w peer with
       | Some o => ESignal (mkSignal OFFER me (Some peer) (sdpPayload o)) (delivery w st)
       | None => EConsole "Renegotiation failed"
       end] /\
  length (filter isSendWarning (renegotiateWith w st peer))
    = length (filter isFailedSend (renegotiateWith w st peer)).
Proof.
  intros Hu. unfold renegotiateWith. destruct (createOffer w peer) as [o|].
  - apply signalTrace_call. exact Hu.
  - split; reflexivity.
Qed.

Lemma heldTracks_audio st pc t :
  micOk st -> In t (heldTracks st pc) -> kind t = Audio -> enabled t = isMicOn st.
Proof.
  unfold micOk, heldTracks. destruct (localStream st) as [s|]; [|intros _ []].
  intros Hm Ht Hk. apply filter_In in Ht. destruct Ht as [Ht _].
  apply Hm. unfold getAudioTracks. apply filter_In. split; [exact Ht|].
  unfold isAudio. rewrite Hk. reflexivity.
Qed.

(** C9: in every reachable state whose local stream holds an audio track,
    [toggleMic] returns with the enabled flag of every audio track negated
    (other tracks untouched) and the microphone flag negated.  The registry
    is as it was, the same connections whose senders hold the same tracks;
    these are the tracks of the local stream, so every audio track a sender
    holds carries the new flag too.  When the microphone is thereby turned
    on, the action is one renegotiation round over the registry: in
    registry order, every peer connection whose local offer is created
    gets an OFFER envelope handed to the signaling send and every other one
    is logged, whatever happens with the remaining peers; each send that
    fails is logged once, at no fixed place.  When the microphone is turned
    off, nothing is sent or logged. *)
Theorem toggleMic_flips_and_renegotiates ops stored us w s :
  localStream (run ops (initialState stored us)) = Some s ->
  getAudioTracks s <> [] ->
  let st := run ops (initialState stored us) in
  let r := toggleMic w st in
  outcome r = Returned tt /\
  localStream (final r) = Some (map flipAudio s) /\
  isMicOn (final r) = negb (isMicOn st) /\
  peerConnections (final r) = peerConnections st /\
  (forall peer pc t, In (peer, pc) (peerConnections (final r)) ->
     In t (heldTracks (final r) pc) -> kind t = Audio ->
     enabled t = negb (isMicOn st)) /\
  (isMicOn (final r) = true ->
   exists me, currentUser st = Some me /\
     withoutSendWarnings (trace r)
       = map (fun e =>
                match createOffer w (fst e) with
                | Some o =>
                    ESignal (mkSignal OFFER me (Some (fst e)) (sdpPayload o))
                            (delivery w st)
                | None => EConsole "Renegotiation failed"
                end) (peerConnections st) /\
     length (filter isSendWarning (trace r))
       = length (filter isFailedSend (trace r))) /\
  (isMicOn (final r) = false -> trace r = []).
Proof.
  intros Hs Ha st r.
  destruct (reachable_wf ops stored us) as (Hc & Hm & Hv). fold st in Hc, Hm, Hv.
  assert (Hwf : wf (final r)) by (apply toggleMic_wf; exact (conj Hc (conj Hm Hv))).
  subst r. fold st in Hs. revert Hwf.
  rewrite (toggleMic_run w st s Hs Ha). cbn [outcome final trace]. intros Hwf.
  split; [reflexivity|]. split.
  { cbn. rewrite (setAudioEnabled_flip st s Hm Hs). reflexivity. }
  split; [reflexivity|]. split; [reflexivity|]. split.
  { intros peer pc t _ Ht Hk. destruct Hwf as (_ & Hm' & _).
    exact (heldTracks_audio _ pc t Hm' Ht Hk). }
  cbn [isMicOn set_isMicOn]. split.
  - intros Hon. rewrite Hon. unfold renegotiateTrace. rewrite Hs.
    destruct (currentUser st) as [me|] eqn:Hu.
    + exists me. split; [reflexivity|]. split.
      * apply calls_in_turn. intros e _.
        exact (proj1 (renegotiateWith_call w st me (fst e) Hu)).
      * apply warnings_match_failures. intros e _.
        exact (proj2 (renegotiateWith_call w st me (fst e) Hu)).
    + destruct (Hv Hu) as [Hnone _]. rewrite Hnone in Hs. discriminate.
  - intros Hoff. rewrite Hoff. reflexivity.
Qed.

(** ** Camera and screen share on one stream *)

(** C5 at its failing input: after [screenSharedThenAlone] Bob is sharing his
    screen, his stream holds the screen track as only video track and the
    registry is empty; turning the camera on then leaves the screen track in
    place (nothing is stopped) and adds the camera track beside it: the
    local stream holds two video tracks and both flags are on. *)
Theorem toggleCamera_keeps_screen_track_without_peers :
  let st := run screenSharedThenAlone (initialState None []) in
  let r := toggleCamera (calm 5000) st in
  isScreenSharing st = true /\
  isCameraOn st = false /\
  peerConnections st = [] /\
  option_map getVideoTracks (localStream st)
    = Some [mkTrack 2 Video "screen:0:0" (Some "monitor") true] /\
  trace r = [EGetUserMedia false true true] /\
  option_map getVideoTracks (localStream (final r))
    = Some [mkTrack 2 Video "screen:0:0" (Some "monitor") true;
            mkTrack 3 Video "Integrated Camera" None true] /\
  isScreenSharing (final r) = true /\
  isCameraOn (final r) = true.
Proof. repeat split; reflexivity. Qed.

(** ** Mutual exclusion of camera and screen share on the nominal path *)

Lemma stopVideoTracks_run p st s :
  localStream st = Some s ->
  stopVideoTracks p st =
  mkRun (Returned tt) (set_localStream (Some (withoutVideo p s)) st) (stopTrace p s).
Proof.
  intros Hs. unfold stopVideoTracks. rewrite bind_get, Hs. run_action.
  rewrite app_nil_r. reflexivity.
Qed.

Arguments stopVideoTracks : simpl never.

Lemma getVideoTracks_withoutVideo_all s :
  getVideoTracks (withoutVideo (fun _ => true) s) = [].
Proof.
  unfold getVideoTracks, withoutVideo. induction s as [|t s IH]; [reflexivity|].
  cbn [filter]. rewrite andb_true_r. destruct (isVideo t) eqn:K; cbn [negb]; [exact IH|].
  cbn [filter]. rewrite K. exact IH.
Qed.

Lemma getVideoTracks_withoutVideo p s :
  forallb p (getVideoTracks s) = true ->
  getVideoTracks (withoutVideo p s) = [].
Proof.
  unfold getVideoTracks, withoutVideo. induction s as [|t s IH]; [reflexivity|].
  cbn [filter]. destruct (isVideo t) eqn:K; cbn [forallb andb].
  - intros H. apply andb_true_iff in H. destruct H as [Hp Hr]. rewrite Hp. cbn. auto.
  - intros H. cbn. rewrite K. auto.
Qed.

Lemma existsb_id_withoutVideo p s id :
  existsb (fun t => Nat.eqb (trackId t) id) (getAudioTracks s) = false ->
  getVideoTracks (withoutVideo p s) = [] ->
  existsb (fun t => Nat.eqb (trackId t) id) (withoutVideo p s) = false.
Proof.
  unfold getAudioTracks, getVideoTracks, withoutVideo, isAudio, isVideo.
  induction s as [|t s IH]; [reflexivity|].
  cbn [filter]. destruct (kind t) eqn:K; cbn [TrackKind_eqb andb negb].
  - cbn [filter existsb]. rewrite K. cbn [TrackKind_eqb].
    intros Ha Hv. apply orb_false_iff in Ha. destruct Ha as [H1 H2].
    rewrite H1. cbn [orb]. apply IH; assumption.
  - destruct (p t); cbn [negb filter].
    + exact IH.
    + rewrite K. cbn [TrackKind_eqb]. discriminate.
Qed.

Lemma getVideoTracks_addTrack_fresh t s :
  kind t = Video ->
  getVideoTracks s = [] ->
  existsb (fun t' => Nat.eqb (trackId t') (trackId t)) s = false ->
  getVideoTracks (addTrack t s) = [t].
Proof.
  intros K Hv Hf. unfold addTrack. rewrite Hf. unfold getVideoTracks in *.
  rewrite filter_app, Hv. cbn. unfold isVideo. rewrite K. reflexivity.
Qed.

(** With a peer connection, sharing the screen while the camera is on stops
    every video track first: the screen track is the only video track. *)
Lemma toggleScreenShare_replaces_camera w st s id lbl surface :
  peerConnections st <> [] ->
  localStream st = Some s ->
  isScreenSharing st = false ->
  isCameraOn st = true ->
  displayCapture w = Some (id, lbl, surface) ->
  existsb (fun t => Nat.eqb (trackId t) id) (getAudioTracks s) = false ->
  option_map getVideoTracks (localStream (final (toggleScreenShare w st)))
    = Some [mkTrack id Video lbl surface true] /\
  isCameraOn (final (toggleScreenShare w st)) = false /\
  isScreenSharing (final (toggleScreenShare w st)) = true.
Proof.
  intros Hp Hs Hsh Hcam Hd Hfresh.
  unfold toggleScreenShare. rewrite bind_get, Hs, Hsh, Hcam, Hd.
  destruct (peerConnections st) as [|e r] eqn:Hr; [contradiction|].
  cbn [registry_size length Nat.eqb isSome negb orb].
  run_action. rewrite (stopVideoTracks_run _ st s Hs). cbn.
  rewrite renegotiate_run. cbn.
  rewrite getVideoTracks_addTrack_fresh; [repeat split | reflexivity | | ].
  - apply getVideoTracks_withoutVideo_all.
  - apply existsb_id_withoutVideo; [exact Hfresh | apply getVideoTracks_withoutVideo_all].
Qed.

Lemma stopScreenSharing_run w st s :
  peerConnections st <> [] ->
  localStream st = Some s ->
  let st' := set_peerConnections (map (fun e => (fst e, detachVideo (snd e))) (peerConnections st))
               (set_isCameraOn false (set_isScreenSharing false
                  (set_localStream (Some (withoutVideo isScreenTrack s)) st))) in
  stopScreenSharing w st =
  mkRun (Returned tt) st' (stopTrace isScreenTrack s ++ renegotiateTrace w st').
Proof.
  intros Hp Hs. cbv zeta. unfold stopScreenSharing. rewrite bind_get, Hs.
  destruct (peerConnections st) as [|e r] eqn:Hr; [contradiction|].
  cbn [registry_size length Nat.eqb isSome negb orb].
  run_action. rewrite (stopVideoTracks_run _ st s Hs). cbn.
  rewrite renegotiate_run. cbn. rewrite Hr. reflexivity.
Qed.

Arguments stopScreenSharing : simpl never.

(** With a peer connection, turning the camera on while sharing the screen
    removes the screen tracks first: the camera track is the only video
    track. *)
Lemma toggleCamera_replaces_screen w st s id lbl :
  peerConnections st <> [] ->
  localStream st = Some s ->
  isCameraOn st = false ->
  isScreenSharing st = true ->
  cameraCapture w = Some (id, lbl) ->
  forallb isScreenTrack (getVideoTracks s) = true ->
  existsb (fun t => Nat.eqb (trackId t) id) (getAudioTracks s) = false ->
  option_map getVideoTracks (localStream (final (toggleCamera w st)))
    = Some [mkTrack id Video lbl None true] /\
  isCameraOn (final (toggleCamera w st)) = true /\
  isScreenSharing (final (toggleCamera w st)) = false.
Proof.
  intros Hp Hs Hcam Hsh Hc Hscreen Hfresh.
  unfold toggleCamera. rewrite bind_get, Hs, Hcam, Hsh, Hc.
  run_action. rewrite (stopScreenSharing_run w st s Hp Hs). cbn.
  rewrite renegotiate_run. cbn.
  rewrite getVideoTracks_addTrack_fresh; [repeat split | reflexivity | | ].
  - apply getVideoTracks_withoutVideo. exact Hscreen.
  - apply existsb_id_withoutVideo; [exact Hfresh | apply getVideoTracks_withoutVideo; exact Hscreen].
Qed.

(** Without a peer connection [stopScreenSharing] returns at its guard:
    turning the camera on only adds the camera track, whatever video track
    the stream holds. *)
Lemma toggleCamera_without_peers w st s id lbl :
  peerConnections st = [] ->
  localStream st = Some s ->
  isCameraOn st = false ->
  cameraCapture w = Some (id, lbl) ->
  toggleCamera w st =
  mkRun (Returned tt)
        (set_isCameraOn true (set_localStream (Some (addTrack (mkTrack id Video lbl None true) s)) st))
        [EGetUserMedia false true true].
Proof.
  intros Hp Hs Hcam Hc.
  unfold toggleCamera. rewrite bind_get, Hs, Hcam, Hc.
  destruct (isScreenSharing st); run_action;
    rewrite ?(stopScreenSharing_guard w st (or_introl Hp)); cbn;
    rewrite renegotiate_run; cbn;
    unfold renegotiateTrace; cbn; rewrite Hs, Hp;
    destruct st; cbn in *; subst; reflexivity.
Qed.

(** ** The theorems at concrete inputs *)

Lemma signal_for_unknown_peer_discarded_witness :
  (sigType answerFromMallory = ANSWER \/ sigType answerFromMallory = CANDIDATE) /\
  registry_get (peerConnections bobCallsAlice) (senderId answerFromMallory) = None /\
  outcome (onSignal (calm 2000) answerFromMallory bobCallsAlice) = Returned tt /\
  activeParticipants (final (onSignal (calm 2000) answerFromMallory bobCallsAlice))
    = activeParticipants bobCallsAlice /\
  final (onSignal (calm 2000) answerFromMallory bobCallsAlice) = bobCallsAlice /\
  trace (onSignal (calm 2000) answerFromMallory bobCallsAlice) = [].
Proof.
  split; [left; reflexivity|]. split; [reflexivity|].
  apply (signal_for_unknown_peer_discarded (calm 2000) answerFromMallory bobCallsAlice).
  - left. reflexivity.
  - reflexivity.
Defined.

Lemma toggleScreenShare_noop_without_call_witness :
  (peerConnections bobOnline = [] \/ localStream bobOnline = None) /\
  toggleScreenShare (calm 1000) bobOnline = mkRun (Returned tt) bobOnline [] /\
  stopScreenSharing (calm 1000) bobOnline = mkRun (Returned tt) bobOnline [] /\
  final (toggleScreenShare (calm 1000) bobOnline) = bobOnline /\
  trace (toggleScreenShare (calm 1000) bobOnline) = [].
Proof.
  split; [left; reflexivity|].
  apply (toggleScreenShare_noop_without_call (calm 1000) bobOnline).
  left. reflexivity.
Defined.

Lemma rejectIncomingCall_hangs_up_witness :
  currentUser pendingFromAlice = Some "bob" /\
  phase pendingFromAlice = IncomingPending /\
  incomingCall pendingFromAlice = Some aliceCall /\
  let r := rejectIncomingCall (calm 2000) pendingFromAlice in
  outcome r = Returned tt /\
  (exists logs,
     trace r = ESignal (mkSignal HANGUP "bob" (Some (callerId aliceCall)) emptyPayload)
                       (delivery (calm 2000) pendingFromAlice) :: logs /\
     existsb (isSignalTo HANGUP (callerId aliceCall)) logs = false) /\
  (signalingChannel pendingFromAlice = true ->
   isSignalingConnected pendingFromAlice = true ->
   channelSend (calm 2000) = true ->
   delivery (calm 2000) pendingFromAlice = Broadcast) /\
  incomingCall (final r) = None /\
  phase (final r) = Idle /\
  existsb acquiresMedia (trace r) = false /\
  localStream (final r) = localStream pendingFromAlice /\
  peerConnections (final r) = peerConnections pendingFromAlice.
Proof.
  split; [reflexivity|]. split; [reflexivity|]. split; [reflexivity|].
  apply (rejectIncomingCall_hangs_up (calm 2000) pendingFromAlice "bob" aliceCall);
    reflexivity.
Defined.

Lemma offer_replaces_pending_offer_witness :
  currentUser pendingFromAlice = Some "bob" /\
  isInCall pendingFromAlice = false /\
  sigType (offerFrom "carol" "v=0 carol") = OFFER /\
  notForUs "bob" (offerFrom "carol" "v=0 carol") = false /\
  senderId (offerFrom "carol" "v=0 carol") <> "bob" /\
  let r := onSignal (calm 2000) (offerFrom "carol" "v=0 carol") pendingFromAlice in
  outcome r = Returned tt /\
  incomingCall (final r) =
    Some (mkIncoming (senderId (offerFrom "carol" "v=0 carol")) (now (calm 2000))
            (sdp (payload (offerFrom "carol" "v=0 carol")))) /\
  trace r = [].
Proof.
  split; [reflexivity|]. split; [reflexivity|]. split; [reflexivity|].
  split; [reflexivity|]. split; [discriminate|].
  apply (offer_replaces_pending_offer (calm 2000) pendingFromAlice "bob"
           (offerFrom "carol" "v=0 carol")); try reflexivity.
  discriminate.
Defined.

Lemma addToCall_appends_recipient_witness :
  currentUser bobCallsAlice = Some "bob" /\
  isInCall bobCallsAlice = true /\
  activeCallData bobCallsAlice = Some ["alice"] /\
  createOffer (noNegotiation 2000) "carol" = None /\
  outcome (addToCall (noNegotiation 2000) "carol" bobCallsAlice) = Returned tt /\
  activeParticipants (final (addToCall (noNegotiation 2000) "carol" bobCallsAlice))
    = ["alice"; "carol"] /\
  existsb (isSignalTo OFFER "carol")
    (trace (addToCall (noNegotiation 2000) "carol" bobCallsAlice)) = false /\
  In (EConsole "Error initiating connection:")
     (trace (addToCall (noNegotiation 2000) "carol" bobCallsAlice)).
Proof.
  destruct (addToCall_appends_recipient (noNegotiation 2000) bobCallsAlice "bob"
              ["alice"] "carol" eq_refl eq_refl eq_refl)
    as (Ho & Hp & _ & Hfail).
  destruct (Hfail eq_refl) as [Hquiet Hlog].
  split; [reflexivity|]. split; [reflexivity|]. split; [reflexivity|].
  split; [reflexivity|]. split; [exact Ho|]. split; [exact Hp|].
  split; [exact Hquiet|]. exact (Hlog eq_refl).
Defined.

Lemma hangup_from_pending_caller_is_missed_call_witness :
  currentUser pendingFromAlice = Some "bob" /\
  phase pendingFromAlice = IncomingPending /\
  incomingCall pendingFromAlice = Some aliceCall /\
  sigType (hangupFrom "alice") = HANGUP /\
  senderId (hangupFrom "alice") = callerId aliceCall /\
  notForUs "bob" (hangupFrom "alice") = false /\
  senderId (hangupFrom "alice") <> "bob" /\
  let r := onSignal (databaseDown 2000) (hangupFrom "alice") pendingFromAlice in
  outcome r = Returned tt /\
  (exists nrow mrow,
     filter isNotificationInsert (trace r) = [EInsertNotification nrow false] /\
     filter isMessageInsert (trace r) = [EInsertMessage mrow false] /\
     n_recipient_id nrow = "bob" /\
     n_sender_id nrow = "alice" /\
     n_message nrow = "You missed a call from Unknown User" /\
     m_sender_id mrow = "alice" /\
     m_recipient_id mrow = "bob" /\
     m_text mrow = "Missed Call") /\
  In (EConsole "Error creating missed call notification:") (trace r) /\
  In (EConsole "Error creating missed call message:") (trace r) /\
  incomingCall (final r) = None /\
  phase (final r) = Idle.
Proof.
  split; [reflexivity|]. split; [reflexivity|]. split; [reflexivity|].
  split; [reflexivity|]. split; [reflexivity|]. split; [reflexivity|].
  split; [discriminate|].
  assert (Hself : senderId (hangupFrom "alice") <> "bob") by discriminate.
  destruct (hangup_from_pending_caller_is_missed_call (databaseDown 2000) pendingFromAlice
              "bob" aliceCall (hangupFrom "alice")
              eq_refl eq_refl eq_refl eq_refl eq_refl eq_refl Hself)
    as (Ho & (nrow & mrow & Hn & Hm & _ & Hnr & Hns & _ & _ & Hnm & _ & _ & _ & Hms & Hmr
              & Hmt & _) & Hln & Hlm & Hi & Hp).
  split; [exact Ho|]. split.
  { exists nrow, mrow. split; [exact Hn|]. split; [exact Hm|].
    split; [exact Hnr|]. split; [exact Hns|]. split; [exact Hnm|].
    split; [exact Hms|]. split; [exact Hmr|]. exact Hmt. }
  split; [exact (Hln eq_refl)|]. split; [exact (Hlm eq_refl)|].
  split; [exact Hi | exact Hp].
Defined.

Lemma startGroupCall_enters_active_witness :
  currentUser bobOnline = Some "bob" /\
  phase bobOnline = Idle /\
  ["alice"; "carol"] <> [] /\
  (localStream bobOnline <> None \/ micCapture (calm 1000) <> None) /\
  let r := startGroupCall (calm 1000) ["alice"; "carol"] bobOnline in
  outcome r = Returned tt /\
  phase (final r) = Active /\
  activeParticipants (final r) = ["alice"; "carol"] /\
  (forall x o, In x ["alice"; "carol"] -> createOffer (calm 1000) x = Some o ->
     In (ESignal (mkSignal OFFER "bob" (Some x) (sdpPayload o))
                 (delivery (calm 1000) bobOnline)) (trace r)) /\
  (forall x, length (filter (isSignalTo OFFER x) (trace r))
             = match createOffer (calm 1000) x with
               | Some _ => count_occ string_dec ["alice"; "carol"] x
               | None => 0
               end) /\
  (forall sig d, In (ESignal sig d) (trace r) ->
     exists x o, In x ["alice"; "carol"] /\ createOffer (calm 1000) x = Some o /\
                 sig = mkSignal OFFER "bob" (Some x) (sdpPayload o) /\
                 d = delivery (calm 1000) bobOnline) /\
  (forall x, In (EConsole ("Failed to call " ++ x)) (trace r)
             <-> In x ["alice"; "carol"] /\ createOffer (calm 1000) x = None).
Proof.
  split; [reflexivity|]. split; [reflexivity|]. split; [discriminate|].
  split; [right; discriminate|].
  apply (startGroupCall_enters_active (calm 1000) bobOnline "bob" ["alice"; "carol"]).
  - reflexivity.
  - reflexivity.
  - discriminate.
  - right. discriminate.
Defined.

Lemma toggleMic_flips_and_renegotiates_witness :
  localStream (run bobCallsAliceOps (initialState None [])) = Some [mutedMicrophone] /\
  getAudioTracks [mutedMicrophone] <> [] /\
  heldTracks (final (toggleMic (calm 2000) (run bobCallsAliceOps (initialState None []))))
             (mkPc (sendersOf [mutedMicrophone]))
    = [mkTrack 1 Audio "Default microphone" None true] /\
  let st := run bobCallsAliceOps (initialState None []) in
  let r := toggleMic (calm 2000) st in
  outcome r = Returned tt /\
  localStream (final r) = Some (map flipAudio [mutedMicrophone]) /\
  isMicOn (final r) = negb (isMicOn st) /\
  peerConnections (final r) = peerConnections st /\
  (forall peer pc t, In (peer, pc) (peerConnections (final r)) ->
     In t (heldTracks (final r) pc) -> kind t = Audio ->
     enabled t = negb (isMicOn st)) /\
  (isMicOn (final r) = true ->
   exists me, currentUser st = Some me /\
     withoutSendWarnings (trace r)
       = map (fun e =>
                match createOffer (calm 2000) (fst e) with
                | Some o =>
                    ESignal (mkSignal OFFER me (Some (fst e)) (sdpPayload o))
                            (delivery (calm 2000) st)
                | None => EConsole "Renegotiation failed"
                end) (peerConnections st) /\
     length (filter isSendWarning (trace r))
       = length (filter isFailedSend (trace r))) /\
  (isMicOn (final r) = false -> trace r = []).
Proof.
  split; [reflexivity|]. split; [discriminate|]. split; [reflexivity|].
  apply (toggleMic_flips_and_renegotiates bobCallsAliceOps None [] (calm 2000)
           [mutedMicrophone]).
  - reflexivity.
  - discriminate.
Defined.

(** * Further properties of the call core *)

(** ** Ending and leaving a call *)

Lemma cleanupTrace_stops_track st s t :
  localStream st = Some s -> In t s -> In (ETrackStop (trackId t)) (cleanupTrace st).
Proof.
  intros Hs Ht. unfold cleanupTrace. rewrite Hs. apply in_or_app. left.
  apply (in_map (fun x => ETrackStop (trackId x))). exact Ht.
Qed.

Lemma cleanupTrace_closes_peer st peer pc :
  In (peer, pc) (peerConnections st) -> In (EPcClose peer) (cleanupTrace st).
Proof.
  intros Hp. unfold cleanupTrace. apply in_or_app. right.
  apply (in_map (fun e => EPcClose (fst e)) _ (peer, pc)). exact Hp.
Qed.

Lemma cleanupTrace_no_signal st : existsb isSignal (cleanupTrace st) = false.
Proof.
  unfold cleanupTrace. rewrite existsb_app.
  assert (H : forall A (f : A -> Effect) (l : list A),
            (forall x, isSignal (f x) = false) -> existsb isSignal (map f l) = false).
  { intros A f l Hf. induction l as [|x l IH]; [reflexivity|]. cbn. rewrite Hf. exact IH. }
  rewrite !H by reflexivity. reflexivity.
Qed.

Lemma endCall_run w st :
  endCall w st =
  mkRun (Returned tt) (cleared st)
        (match activeCallData st, currentUser st with
         | Some ids, Some _ =>
             flat_map (fun pid => signalTrace w HANGUP (Some pid) emptyPayload st) ids
         | _, _ => []
         end ++ cleanupTrace st).
Proof.
  unfold endCall. rewrite bind_get. unfold bind.
  destruct (activeCallData st) as [ids|]; [destruct (currentUser st)|];
    rewrite ?hangupAll_run; cbn [ret]; rewrite cleanupCall_run; reflexivity.
Qed.

Lemma filter_never (p : Effect -> bool) (t : list Effect) :
  Forall (fun e => p e = false) t ->
  filter p t = [] /\ filter (fun e => negb (p e)) t = t.
Proof.
  induction 1 as [|e t He _ IH]; [split; reflexivity|].
  cbn. rewrite He. cbn. destruct IH as [-> ->]. split; reflexivity.
Qed.

Lemma cleanupTrace_teardown st (p : Effect -> bool) :
  (forall id, p (ETrackStop id) = false) ->
  (forall peer, p (EPcClose peer) = false) ->
  Forall (fun e => p e = false) (cleanupTrace st).
Proof.
  intros Hstop Hclose. unfold cleanupTrace. apply Forall_app. split.
  - apply Forall_forall. intros e He. apply in_map_iff in He.
    destruct He as (t & <- & _). apply Hstop.
  - apply Forall_forall. intros e He. apply in_map_iff in He.
    destruct He as (x & <- & _). apply Hclose.
Qed.

Lemma cleanupTrace_no_warning st :
  withoutSendWarnings (cleanupTrace st) = cleanupTrace st /\
  filter isSendWarning (cleanupTrace st) = [] /\
  filter isFailedSend (cleanupTrace st) = [].
Proof.
  unfold withoutSendWarnings.
  destruct (filter_never isSendWarning (cleanupTrace st)) as [H1 H2];
    [apply cleanupTrace_teardown; reflexivity|].
  destruct (filter_never isFailedSend (cleanupTrace st)) as [H3 _];
    [apply cleanupTrace_teardown; reflexivity|].
  split; [exact H2|]. split; [exact H1 | exact H3].
Qed.

(** X1: [endCall] by a logged-in user in a call hands one HANGUP envelope per
    participant to the signaling send, in the order of the participants,
    and then tears the call down whatever became of the sends: every local
    track is stopped and then every peer connection closed, nothing else
    is done apart from the warning of each send that fails; the stream,
    the registry and the call data are cleared and the phase is no longer
    [Active]. *)
Theorem endCall_hangs_up_and_tears_down w st me ids :
  currentUser st = Some me ->
  activeCallData st = Some ids ->
  let r := endCall w st in
  outcome r = Returned tt /\
  final r = cleared st /\
  withoutSendWarnings (trace r)
    = map (fun pid => ESignal (mkSignal HANGUP me (Some pid) emptyPayload) (delivery w st))
          ids
      ++ map (fun t => ETrackStop (trackId t))
             (match localStream st with Some s => s | None => [] end)
      ++ map (fun e => EPcClose (fst e)) (peerConnections st) /\
  length (filter isSendWarning (trace r)) = length (filter isFailedSend (trace r)) /\
  (forall pid, In pid ids ->
     In (ESignal (mkSignal HANGUP me (Some pid) emptyPayload) (delivery w st)) (trace r)) /\
  (forall s t, localStream st = Some s -> In t s -> In (ETrackStop (trackId t)) (trace r)) /\
  (forall peer pc, In (peer, pc) (peerConnections st) -> In (EPcClose peer) (trace r)) /\
  isInCall (final r) = false /\
  activeParticipants (final r) = [] /\
  localStream (final r) = None /\
  peerConnections (final r) = [].
Proof.
  intros Hu Ha r. subst r. rewrite endCall_run, Ha, Hu. cbn [outcome final trace].
  destruct (cleanupTrace_no_warning st) as (Hclean & Hnowarn & Hnofail).
  split; [reflexivity|]. split; [reflexivity|]. split.
  { rewrite withoutSendWarnings_app, Hclean. f_equal.
    apply calls_in_turn. intros pid _.
    exact (proj1 (signalTrace_call w HANGUP (Some pid) emptyPayload st me Hu)). }
  split.
  { rewrite !filter_app, !length_app, Hnowarn, Hnofail. f_equal.
    apply warnings_match_failures. intros pid _.
    exact (proj2 (signalTrace_call w HANGUP (Some pid) emptyPayload st me Hu)). }
  repeat split.
  - intros pid Hp. apply in_or_app. left. apply in_flat_map. exists pid.
    split; [exact Hp|]. unfold signalTrace. rewrite Hu. left. reflexivity.
  - intros s t Hs Ht. apply in_or_app. right. eapply cleanupTrace_stops_track; eassumption.
  - intros peer pc Hp. apply in_or_app. right. eapply cleanupTrace_closes_peer; eassumption.
Qed.

Lemma endCall_hangs_up_and_tears_down_witness :
  currentUser bobCallsTwo = Some "bob" /\
  activeCallData bobCallsTwo = Some ["alice"; "carol"] /\
  let r := endCall (calm 2000) bobCallsTwo in
  outcome r = Returned tt /\
  final r = cleared bobCallsTwo /\
  withoutSendWarnings (trace r)
    = map (fun pid => ESignal (mkSignal HANGUP "bob" (Some pid) emptyPayload)
                              (delivery (calm 2000) bobCallsTwo))
          ["alice"; "carol"]
      ++ map (fun t => ETrackStop (trackId t))
             (match localStream bobCallsTwo with Some s => s | None => [] end)
      ++ map (fun e => EPcClose (fst e)) (peerConnections bobCallsTwo) /\
  length (filter isSendWarning (trace r)) = length (filter isFailedSend (trace r)) /\
  (forall pid, In pid ["alice"; "carol"] ->
     In (ESignal (mkSignal HANGUP "bob" (Some pid) emptyPayload)
                 (delivery (calm 2000) bobCallsTwo)) (trace r)) /\
  (forall s t, localStream bobCallsTwo = Some s -> In t s ->
     In (ETrackStop (trackId t)) (trace r)) /\
  (forall peer pc, In (peer, pc) (peerConnections bobCallsTwo) ->
     In (EPcClose peer) (trace r)) /\
  isInCall (final r) = false /\
  activeParticipants (final r) = [] /\
  localStream (final r) = None /\
  peerConnections (final r) = [].
Proof.
  split; [reflexivity|]. split; [reflexivity|].
  apply (endCall_hangs_up_and_tears_down (calm 2000) bobCallsTwo "bob" ["alice"; "carol"]);
    reflexivity.
Defined.

Lemma onSignal_hangup_no_pending w st me sig :
  currentUser st = Some me ->
  sigType sig = HANGUP ->
  notForUs me sig = false ->
  senderId sig <> me ->
  (forall call, incomingCall st = Some call -> callerId call <> senderId sig) ->
  onSignal w sig st = handleRemoteHangup (senderId sig) st.
Proof.
  intros Hu Hty Hfor Hself Hpend.
  rewrite (onSignal_hangup w st me sig Hu Hty Hfor Hself).
  destruct (incomingCall st) as [call|].
  - specialize (Hpend call eq_refl). apply String.eqb_neq in Hpend. rewrite Hpend.
    exact (bind_ret tt (fun _ => handleRemoteHangup (senderId sig)) st).
  - exact (bind_ret tt (fun _ => handleRemoteHangup (senderId sig)) st).
Qed.

(** X2: a HANGUP from the only remaining participant, with no call pending,
    ends the call for the local user too: the handler returns, the
    sender's connection is closed, every local track is stopped, the local
    stream, the registry and the call data are cleared, all media flags are
    off, the phase is [Idle], and nothing is sent back. *)
Theorem hangup_from_last_participant_ends_call w st me sig ids :
  currentUser st = Some me ->
  sigType sig = HANGUP ->
  notForUs me sig = false ->
  senderId sig <> me ->
  incomingCall st = None ->
  activeCallData st = Some ids ->
  remaining (senderId sig) ids = [] ->
  let r := onSignal w sig st in
  outcome r = Returned tt /\
  phase (final r) = Idle /\
  activeParticipants (final r) = [] /\
  localStream (final r) = None /\
  peerConnections (final r) = [] /\
  isMicOn (final r) = false /\
  isCameraOn (final r) = false /\
  isScreenSharing (final r) = false /\
  (forall s t, localStream st = Some s -> In t s -> In (ETrackStop (trackId t)) (trace r)) /\
  (forall pc, registry_get (peerConnections st) (senderId sig) = Some pc ->
     In (EPcClose (senderId sig)) (trace r)) /\
  existsb isSignal (trace r) = false.
Proof.
  intros Hu Hty Hfor Hself Hpend Ha Hrem r. subst r.
  rewrite (onSignal_hangup_no_pending w st me sig Hu Hty Hfor Hself)
    by (intros call Hc; rewrite Hpend in Hc; discriminate).
  rewrite handleRemoteHangup_run, Ha, Hrem. cbn [outcome final trace].
  split; [reflexivity|]. split.
  { unfold phase. cbn. destruct (registry_get _ _); cbn; rewrite Hpend; reflexivity. }
  split; [reflexivity|]. split; [reflexivity|]. split; [reflexivity|].
  split; [reflexivity|]. split; [reflexivity|]. split; [reflexivity|].
  split.
  { intros s t Hs Ht. apply in_or_app. right.
    apply (cleanupTrace_stops_track _ s t); [|exact Ht].
    destruct (registry_get _ _); exact Hs. }
  split.
  { intros pc Hpc. rewrite Hpc. left. reflexivity. }
  rewrite existsb_app, cleanupTrace_no_signal.
  destruct (registry_get _ _); reflexivity.
Qed.

Lemma hangup_from_last_participant_ends_call_witness :
  currentUser bobCallsAlice = Some "bob" /\
  sigType (hangupFrom "alice") = HANGUP /\
  notForUs "bob" (hangupFrom "alice") = false /\
  senderId (hangupFrom "alice") <> "bob" /\
  incomingCall bobCallsAlice = None /\
  activeCallData bobCallsAlice = Some ["alice"] /\
  remaining (senderId (hangupFrom "alice")) ["alice"] = [] /\
  let r := onSignal (calm 2000) (hangupFrom "alice") bobCallsAlice in
  outcome r = Returned tt /\
  phase (final r) = Idle /\
  activeParticipants (final r) = [] /\
  localStream (final r) = None /\
  peerConnections (final r) = [] /\
  isMicOn (final r) = false /\
  isCameraOn (final r) = false /\
  isScreenSharing (final r) = false /\
  (forall s t, localStream bobCallsAlice = Some s -> In t s ->
     In (ETrackStop (trackId t)) (trace r)) /\
  (forall pc, registry_get (peerConnections bobCallsAlice)
                (senderId (hangupFrom "alice")) = Some pc ->
     In (EPcClose (senderId (hangupFrom "alice"))) (trace r)) /\
  existsb isSignal (trace r) = false.
Proof.
  split; [reflexivity|]. split; [reflexivity|]. split; [reflexivity|].
  split; [discriminate|]. split; [reflexivity|]. split; [reflexivity|].
  split; [reflexivity|].
  apply (hangup_from_last_participant_ends_call (calm 2000) bobCallsAlice "bob"
           (hangupFrom "alice") ["alice"]); try reflexivity.
  discriminate.
Defined.

(** ** The registry as a map *)

Lemma registry_get_absent r k : ~ In k (registry_keys r) -> registry_get r k = None.
Proof.
  unfold registry_keys. induction r as [|[k' pc] r IH]; [reflexivity|].
  cbn. intros H. destruct (String.eqb_spec k' k) as [->|Hne].
  - exfalso. apply H. left. reflexivity.
  - apply IH. intros Hin. apply H. right. exact Hin.
Qed.

Lemma registry_get_delete_other r k k' :
  k' <> k -> registry_get (registry_delete r k) k' = registry_get r k'.
Proof.
  intros Hne. induction r as [|[k0 pc] r IH]; [reflexivity|].
  cbn. destruct (String.eqb_spec k0 k) as [->|H0].
  - destruct (String.eqb_spec k k') as [->|_]; [contradiction | reflexivity].
  - cbn. rewrite IH. reflexivity.
Qed.

Lemma registry_get_delete_same r k :
  NoDup (registry_keys r) -> registry_get (registry_delete r k) k = None.
Proof.
  unfold registry_keys. induction r as [|[k0 pc] r IH]; [reflexivity|].
  cbn. intros Hnd. inversion Hnd as [|? ? Hnotin Hrest]; subst.
  destruct (String.eqb_spec k0 k) as [->|H0].
  - apply registry_get_absent. exact Hnotin.
  - cbn. apply String.eqb_neq in H0. rewrite H0. apply IH. exact Hrest.
Qed.

Lemma registry_get_set_same r k pc : registry_get (registry_set r k pc) k = Some pc.
Proof.
  induction r as [|[k0 pc0] r IH]; cbn.
  - rewrite String.eqb_refl. reflexivity.
  - destruct (String.eqb_spec k0 k) as [->|H0]; cbn.
    + rewrite String.eqb_refl. reflexivity.
    + apply String.eqb_neq in H0. rewrite H0. exact IH.
Qed.

Lemma remaining_excludes sender ids : ~ In sender (remaining sender ids).
Proof.
  unfold remaining. intros H. apply filter_In in H. destruct H as [_ H].
  rewrite String.eqb_refl in H. discriminate.
Qed.

Lemma remaining_keeps sender ids x :
  In x ids -> x <> sender -> In x (remaining sender ids).
Proof.
  intros Hin Hne. unfold remaining. apply filter_In. split; [exact Hin|].
  apply String.eqb_neq in Hne. rewrite Hne. reflexivity.
Qed.

(** X3: a HANGUP from one participant of a call with others left removes that
    participant only: its connection, when the registry has one, is closed
    and dropped from the registry, every other participant and every other
    registry entry stay, and the local stream, the phase and the media
    flags are untouched; closing that connection is all the handler does:
    nothing is sent and no local track is stopped. *)
Theorem hangup_from_one_of_several_keeps_call w st me sig ids :
  currentUser st = Some me ->
  sigType sig = HANGUP ->
  notForUs me sig = false ->
  senderId sig <> me ->
  incomingCall st = None ->
  activeCallData st = Some ids ->
  remaining (senderId sig) ids <> [] ->
  NoDup (registry_keys (peerConnections st)) ->
  let r := onSignal w sig st in
  outcome r = Returned tt /\
  activeParticipants (final r) = remaining (senderId sig) ids /\
  ~ In (senderId sig) (activeParticipants (final r)) /\
  (forall x, In x ids -> x <> senderId sig -> In x (activeParticipants (final r))) /\
  registry_get (peerConnections (final r)) (senderId sig) = None /\
  (forall other, other <> senderId sig ->
     registry_get (peerConnections (final r)) other =
     registry_get (peerConnections st) other) /\
  isInCall (final r) = isInCall st /\
  localStream (final r) = localStream st /\
  isMicOn (final r) = isMicOn st /\
  isCameraOn (final r) = isCameraOn st /\
  isScreenSharing (final r) = isScreenSharing st /\
  trace r = match registry_get (peerConnections st) (senderId sig) with
            | Some _ => [EPcClose (senderId sig)]
            | None => []
            end.
Proof.
  intros Hu Hty Hfor Hself Hpend Ha Hrem Hnd r. subst r.
  rewrite (onSignal_hangup_no_pending w st me sig Hu Hty Hfor Hself)
    by (intros call Hc; rewrite Hpend in Hc; discriminate).
  rewrite handleRemoteHangup_run, Ha.
  pose proof (remaining_excludes (senderId sig) ids) as Hex.
  pose proof (fun y => remaining_keeps (senderId sig) ids y) as Hkeep.
  destruct (remaining (senderId sig) ids) as [|x rest] eqn:Hr; [contradiction|].
  cbn [outcome final trace]. unfold activeParticipants.
  cbn [activeCallData set_activeCallData].
  split; [reflexivity|]. split; [reflexivity|].
  split; [exact Hex|]. split; [exact Hkeep|].
  split.
  { cbn. destruct (registry_get (peerConnections st) (senderId sig)) eqn:Hg; cbn.
    - apply registry_get_delete_same. exact Hnd.
    - exact Hg. }
  split.
  { intros other Hne. cbn.
    destruct (registry_get (peerConnections st) (senderId sig)); cbn; [|reflexivity].
    apply registry_get_delete_other. exact Hne. }
  destruct (registry_get (peerConnections st) (senderId sig)); cbn;
    repeat split; reflexivity.
Qed.

Lemma hangup_from_one_of_several_keeps_call_witness :
  currentUser bobCallsTwo = Some "bob" /\
  sigType (hangupFrom "alice") = HANGUP /\
  notForUs "bob" (hangupFrom "alice") = false /\
  senderId (hangupFrom "alice") <> "bob" /\
  incomingCall bobCallsTwo = None /\
  activeCallData bobCallsTwo = Some ["alice"; "carol"] /\
  remaining (senderId (hangupFrom "alice")) ["alice"; "carol"] <> [] /\
  NoDup (registry_keys (peerConnections bobCallsTwo)) /\
  activeParticipants (final (onSignal (calm 2000) (hangupFrom "alice") bobCallsTwo))
    = ["carol"] /\
  registry_get
    (peerConnections (final (onSignal (calm 2000) (hangupFrom "alice") bobCallsTwo)))
    "alice" = None /\
  isInCall (final (onSignal (calm 2000) (hangupFrom "alice") bobCallsTwo)) = true /\
  trace (onSignal (calm 2000) (hangupFrom "alice") bobCallsTwo) = [EPcClose "alice"].
Proof.
  assert (Hne : senderId (hangupFrom "alice") <> "bob") by discriminate.
  assert (Hrem : remaining (senderId (hangupFrom "alice")) ["alice"; "carol"] <> [])
    by discriminate.
  assert (Hnd : NoDup (registry_keys (peerConnections bobCallsTwo))).
  { repeat constructor; cbn; intuition discriminate. }
  destruct (hangup_from_one_of_several_keeps_call (calm 2000) bobCallsTwo "bob"
              (hangupFrom "alice") ["alice"; "carol"]
              eq_refl eq_refl eq_refl Hne eq_refl eq_refl Hrem Hnd)
    as (_ & Hp & _ & _ & Hg & _ & Hi & _ & _ & _ & _ & Ht).
  split; [reflexivity|]. split; [reflexivity|]. split; [reflexivity|].
  split; [exact Hne|]. split; [reflexivity|]. split; [reflexivity|].
  split; [exact Hrem|]. split; [exact Hnd|].
  split; [exact Hp|]. split; [exact Hg|]. split; [exact Hi | exact Ht].
Defined.

(** ** Inbound answers and offers *)

Lemma includesId_app_self ids x : includesId (ids ++ [x]) x = true.
Proof.
  unfold includesId. rewrite existsb_app. cbn. rewrite String.eqb_refl.
  rewrite orb_true_r. reflexivity.
Qed.

Lemma includesId_In ids x : includesId ids x = true <-> In x ids.
Proof.
  unfold includesId. rewrite existsb_exists. split.
  - intros (y & Hy & He). apply String.eqb_eq in He. subst. exact Hy.
  - intros H. exists x. split; [exact H | apply String.eqb_refl].
Qed.

Lemma joined_twice sender prev : joined sender (joined sender prev) = joined sender prev.
Proof.
  unfold joined. destruct prev as [ids|]; [|reflexivity].
  destruct (includesId ids sender) eqn:H.
  - rewrite H. reflexivity.
  - rewrite includesId_app_self. reflexivity.
Qed.

Lemma onSignal_answer_run w st me sig pc remote :
  currentUser st = Some me ->
  sigType sig = ANSWER ->
  notForUs me sig = false ->
  senderId sig <> me ->
  registry_get (peerConnections st) (senderId sig) = Some pc ->
  sdp (payload sig) = Some remote ->
  onSignal w sig st =
  if acceptAnswer w (senderId sig) remote
  then mkRun (Returned tt)
             (set_activeCallData (joined (senderId sig) (activeCallData st)) st) []
  else mkRun Thrown st [].
Proof.
  intros Hu Hty Hfor Hself Hreg Hsdp. unfold onSignal.
  rewrite bind_get, Hu, Hfor, Hty, Hreg, Hsdp.
  apply String.eqb_neq in Hself. rewrite Hself.
  destruct (acceptAnswer w (senderId sig) remote).
  - rewrite bind_ret. reflexivity.
  - reflexivity.
Qed.

(** X4: an ANSWER from a peer with a registry entry whose description the
    connection accepts adds the sender to the participants of the current
    call unless already listed, sends and logs nothing, and never creates a
    call out of nothing; handling the same ANSWER again changes nothing.
    When the connection refuses the description the handler ends in an
    unhandled rejection and the participants are untouched. *)
Theorem answer_joins_call_once w st me sig pc remote :
  currentUser st = Some me ->
  sigType sig = ANSWER ->
  notForUs me sig = false ->
  senderId sig <> me ->
  registry_get (peerConnections st) (senderId sig) = Some pc ->
  sdp (payload sig) = Some remote ->
  let r := onSignal w sig st in
  (acceptAnswer w (senderId sig) remote = true ->
   outcome r = Returned tt /\
   trace r = [] /\
   activeCallData (final r) = joined (senderId sig) (activeCallData st) /\
   (forall ids, activeCallData st = Some ids ->
      In (senderId sig) (activeParticipants (final r)) /\
      (In (senderId sig) ids -> activeParticipants (final r) = ids) /\
      (~ In (senderId sig) ids -> activeParticipants (final r) = ids ++ [senderId sig])) /\
   (activeCallData st = None -> activeCallData (final r) = None) /\
   isInCall (final r) = isInCall st /\
   final (onSignal w sig (final r)) = final r) /\
  (acceptAnswer w (senderId sig) remote = false ->
   outcome r = Thrown /\ final r = st /\ trace r = []).
Proof.
  intros Hu Hty Hfor Hself Hreg Hsdp r. subst r.
  rewrite (onSignal_answer_run w st me sig pc remote Hu Hty Hfor Hself Hreg Hsdp).
  split; intros Hacc; rewrite Hacc; cbn [outcome final trace]; [|repeat split].
  split; [reflexivity|]. split; [reflexivity|]. split; [reflexivity|].
  split.
  { intros ids Ha. unfold activeParticipants. cbn. rewrite Ha. cbn.
    destruct (includesId ids (senderId sig)) eqn:Hin.
    - apply includesId_In in Hin. repeat split; auto. intros Hn. contradiction.
    - split; [apply in_or_app; right; left; reflexivity|].
      split; [|reflexivity].
      intros Hi. apply includesId_In in Hi. rewrite Hi in Hin. discriminate. }
  split; [intros Ha; cbn; rewrite Ha; reflexivity|].
  split; [reflexivity|].
  rewrite (onSignal_answer_run w _ me sig pc remote) by assumption.
  rewrite Hacc. cbn. rewrite joined_twice. reflexivity.
Qed.

Lemma answer_joins_call_once_witness :
  currentUser bobCallsAlice = Some "bob" /\
  sigType (answerFrom "alice") = ANSWER /\
  notForUs "bob" (answerFrom "alice") = false /\
  senderId (answerFrom "alice") <> "bob" /\
  registry_get (peerConnections bobCallsAlice) (senderId (answerFrom "alice"))
    = Some (mkPc (sendersOf [mutedMicrophone])) /\
  sdp (payload (answerFrom "alice")) = Some "v=0 answer" /\
  activeParticipants (final (onSignal (calm 2000) (answerFrom "alice") bobCallsAlice))
    = ["alice"].
Proof.
  assert (Hne : senderId (answerFrom "alice") <> "bob") by discriminate.
  destruct (answer_joins_call_once (calm 2000) bobCallsAlice "bob" (answerFrom "alice")
              (mkPc (sendersOf [mutedMicrophone])) "v=0 answer"
              eq_refl eq_refl eq_refl Hne eq_refl eq_refl) as [Hok _].
  destruct (Hok eq_refl) as (_ & _ & _ & Hids & _).
  destruct (Hids ["alice"] eq_refl) as (_ & Hsame & _).
  split; [reflexivity|]. split; [reflexivity|]. split; [reflexivity|].
  split; [exact Hne|]. split; [reflexivity|]. split; [reflexivity|].
  apply Hsame. left. reflexivity.
Defined.

(** X5: while in a call, an OFFER never rings and never changes the state: from
    a sender outside the participants it is dropped without any effect (no
    busy signal goes back); from a participant with a registry entry it is
    answered at once with an ANSWER envelope addressed to the sender; from
    a participant without a registry entry nothing happens. *)
Theorem offer_while_in_call_never_rings w st me sig :
  currentUser st = Some me ->
  sigType sig = OFFER ->
  notForUs me sig = false ->
  senderId sig <> me ->
  isInCall st = true ->
  let r := onSignal w sig st in
  final r = st /\
  incomingCall (final r) = incomingCall st /\
  (~ In (senderId sig) (activeParticipants st) ->
   outcome r = Returned tt /\ trace r = []) /\
  (In (senderId sig) (activeParticipants st) ->
   registry_get (peerConnections st) (senderId sig) = None ->
   outcome r = Returned tt /\ trace r = []) /\
  (In (senderId sig) (activeParticipants st) ->
   forall pc remote a,
     registry_get (peerConnections st) (senderId sig) = Some pc ->
     sdp (payload sig) = Some remote ->
     createAnswer w (senderId sig) remote = Some a ->
     outcome r = Returned tt /\
     trace r = signalTrace w ANSWER (Some (senderId sig)) (sdpPayload a) st /\
     In (ESignal (mkSignal ANSWER me (Some (senderId sig)) (sdpPayload a)) (delivery w st))
        (trace r)).
Proof.
  intros Hu Hty Hfor Hself Hin r. subst r. unfold onSignal.
  rewrite bind_get, Hu, Hfor, Hty, Hin. apply String.eqb_neq in Hself. rewrite Hself.
  cbn [andb].
  assert (Hpart : match activeCallData st with
                  | Some ids => includesId ids (senderId sig)
                  | None => false
                  end = true <-> In (senderId sig) (activeParticipants st)).
  { unfold activeParticipants. destruct (activeCallData st) as [ids|].
    - apply includesId_In.
    - split; [discriminate | contradiction]. }
  destruct (match activeCallData st with
            | Some ids => includesId ids (senderId sig)
            | None => false
            end) eqn:Hp; cbn [negb].
  - assert (Hyes : In (senderId sig) (activeParticipants st)) by (apply Hpart; reflexivity).
    destruct (registry_get (peerConnections st) (senderId sig)) as [pc|] eqn:Hreg.
    + destruct (sdp (payload sig)) as [remote|] eqn:Hsdp.
      * destruct (createAnswer w (senderId sig) remote) as [a|] eqn:Hans.
        -- rewrite sendSignal_run. cbn [outcome final trace].
           split; [reflexivity|]. split; [reflexivity|].
           split; [intros Hn; contradiction|].
           split; [intros _ Hnone; discriminate|].
           intros _ pc' remote' a' Hpc Hr Ha. injection Hr as <-.
           rewrite Hans in Ha. injection Ha as <-.
           split; [reflexivity|]. split; [reflexivity|].
           unfold signalTrace. rewrite Hu. left. reflexivity.
        -- cbn. split; [reflexivity|]. split; [reflexivity|].
           split; [intros Hn; contradiction|].
           split; [intros _ Hnone; discriminate|].
           intros _ pc' remote' a' _ Hr Ha. injection Hr as <-.
           rewrite Hans in Ha. discriminate.
      * cbn. split; [reflexivity|]. split; [reflexivity|].
        split; [intros Hn; contradiction|].
        split; [intros _ Hnone; discriminate|].
        intros _ pc' remote' a' _ Hr _. discriminate.
    + cbn. split; [reflexivity|]. split; [reflexivity|].
      split; [intros Hn; contradiction|].
      split; [intros _ _; split; reflexivity|].
      intros _ pc' remote' a' Hpc. discriminate.
  - assert (Hno : ~ In (senderId sig) (activeParticipants st)).
    { intros H. apply Hpart in H. discriminate. }
    cbn. split; [reflexivity|]. split; [reflexivity|].
    split; [intros _; split; reflexivity|].
    split; intros Hyes; contradiction.
Qed.

Lemma offer_while_in_call_never_rings_witness :
  currentUser bobCallsAlice = Some "bob" /\
  sigType (offerFrom "carol" "v=0 carol") = OFFER /\
  notForUs "bob" (offerFrom "carol" "v=0 carol") = false /\
  senderId (offerFrom "carol" "v=0 carol") <> "bob" /\
  isInCall bobCallsAlice = true /\
  final (onSignal (calm 2000) (offerFrom "carol" "v=0 carol") bobCallsAlice)
    = bobCallsAlice /\
  incomingCall (final (onSignal (calm 2000) (offerFrom "carol" "v=0 carol") bobCallsAlice))
    = incomingCall bobCallsAlice.
Proof.
  assert (Hne : senderId (offerFrom "carol" "v=0 carol") <> "bob") by discriminate.
  destruct (offer_while_in_call_never_rings (calm 2000) bobCallsAlice "bob"
              (offerFrom "carol" "v=0 carol") eq_refl eq_refl eq_refl Hne eq_refl)
    as (Hst & Hinc & _).
  split; [reflexivity|]. split; [reflexivity|]. split; [reflexivity|].
  split; [exact Hne|]. split; [reflexivity|]. split; [exact Hst | exact Hinc].
Defined.

(** ** Accepting a call *)

Lemma mutedStream_all_muted devs t :
  In t (mutedStream devs) -> kind t = Audio /\ enabled t = false.
Proof.
  unfold mutedStream, setAudioEnabled. rewrite map_map. intros H.
  apply in_map_iff in H. destruct H as (d & <- & _). cbn. split; reflexivity.
Qed.

Lemma pc_addTracks_transceivers stream pc :
  transceivers (fold_left (fun p t => pc_addTrack t p) stream pc) =
  transceivers pc ++ sendersOf stream.
Proof.
  revert pc. induction stream as [|t s IH]; intros pc; cbn.
  - rewrite app_nil_r. reflexivity.
  - rewrite IH. cbn. rewrite <- app_assoc. reflexivity.
Qed.

Lemma registry_get_registerCall recipient stream r :
  exists pc, registry_get (registerCall recipient stream r) recipient = Some pc /\
             transceivers pc = sendersOf stream.
Proof.
  unfold registerCall. cbv zeta. rewrite registry_get_set_same.
  eexists. split; [apply registry_get_set_same|].
  rewrite pc_addTracks_transceivers. reflexivity.
Qed.

(** X6: accepting the pending call with the microphone granted and the stored
    offer answered makes the call active with the caller as only
    participant, clears the stored offer, sets a fresh local stream whose
    tracks are all audio and all disabled (the call starts muted, camera
    off), registers a connection for the caller carrying these tracks, and
    hands an ANSWER envelope addressed to the caller to the signaling send. *)
Theorem acceptIncomingCall_joins_muted w st me call devs o a :
  currentUser st = Some me ->
  incomingCall st = Some call ->
  micCapture w = Some devs ->
  offer call = Some o ->
  createAnswer w (callerId call) o = Some a ->
  let r := acceptIncomingCall w st in
  outcome r = Returned tt /\
  phase (final r) = Active /\
  activeParticipants (final r) = [callerId call] /\
  incomingCall (final r) = None /\
  localStream (final r) = Some (mutedStream devs) /\
  (forall t, In t (mutedStream devs) -> kind t = Audio /\ enabled t = false) /\
  isMicOn (final r) = false /\
  isCameraOn (final r) = false /\
  (exists pc, registry_get (peerConnections (final r)) (callerId call) = Some pc /\
              transceivers pc = sendersOf (mutedStream devs)) /\
  trace r = EGetUserMedia true false true ::
            signalTrace w ANSWER (Some (callerId call)) (sdpPayload a) st /\
  In (ESignal (mkSignal ANSWER me (Some (callerId call)) (sdpPayload a)) (delivery w st))
     (trace r).
Proof.
  intros Hu Hc Hm Ho Ha r. subst r. unfold acceptIncomingCall.
  rewrite bind_get, Hc, Hu, Hm, Ho, Ha. run_action. rewrite sendSignal_run. cbn.
  split; [reflexivity|]. split; [reflexivity|]. split; [reflexivity|].
  split; [reflexivity|]. split; [reflexivity|].
  split; [apply mutedStream_all_muted|].
  split; [reflexivity|]. split; [reflexivity|].
  split; [apply (registry_get_registerCall (callerId call) (mutedStream devs))|].
  split; [rewrite app_nil_r; reflexivity|].
  right. unfold signalTrace. cbn. rewrite Hu. apply in_or_app. left. left. reflexivity.
Qed.

Lemma acceptIncomingCall_joins_muted_witness :
  currentUser pendingFromAlice = Some "bob" /\
  incomingCall pendingFromAlice = Some aliceCall /\
  micCapture (calm 2000) = Some [(1, "Default microphone")] /\
  offer aliceCall = Some "v=0 alice" /\
  createAnswer (calm 2000) (callerId aliceCall) "v=0 alice" = Some "v=0 answer" /\
  phase (final (acceptIncomingCall (calm 2000) pendingFromAlice)) = Active /\
  activeParticipants (final (acceptIncomingCall (calm 2000) pendingFromAlice))
    = [callerId aliceCall] /\
  localStream (final (acceptIncomingCall (calm 2000) pendingFromAlice))
    = Some (mutedStream [(1, "Default microphone")]).
Proof.
  destruct (acceptIncomingCall_joins_muted (calm 2000) pendingFromAlice "bob" aliceCall
              [(1, "Default microphone")] "v=0 alice" "v=0 answer"
              eq_refl eq_refl eq_refl eq_refl eq_refl)
    as (_ & Hp & Ha & _ & Hs & _).
  split; [reflexivity|]. split; [reflexivity|]. split; [reflexivity|].
  split; [reflexivity|]. split; [reflexivity|].
  split; [exact Hp|]. split; [exact Ha | exact Hs].
Defined.

(** ** Refused capture *)



(** X8: when the camera or the display capture is refused, turning the camera
    on or starting a screen share changes nothing: the stream, the flags
    and the registry stay as they were.  With a local stream (and, for the
    screen share, a peer connection) the capture is requested, its refusal
    is caught and logged ("Failed to access camera", "Error starting screen
    share:") and that is all: no track is stopped and nothing is sent;
    without them the request is not even made. *)
Theorem capture_refused_changes_nothing w st :
  (cameraCapture w = None -> isCameraOn st = false ->
   outcome (toggleCamera w st) = Returned tt /\
   final (toggleCamera w st) = st /\
   (localStream st <> None ->
    trace (toggleCamera w st)
      = [EGetUserMedia false true false; EConsole "Failed to access camera"]) /\
   (localStream st = None -> trace (toggleCamera w st) = [])) /\
  (displayCapture w = None -> isScreenSharing st = false ->
   outcome (toggleScreenShare w st) = Returned tt /\
   final (toggleScreenShare w st) = st /\
   (peerConnections st <> [] -> localStream st <> None ->
    trace (toggleScreenShare w st)
      = [EGetDisplayMedia false; EConsole "Error starting screen share:"]) /\
   (peerConnections st = [] \/ localStream st = None ->
    trace (toggleScreenShare w st) = [])).
Proof.
  split.
  - intros Hc Hoff. unfold toggleCamera. rewrite bind_get, Hoff, Hc.
    destruct (localStream st) as [s|]; run_action.
    + split; [reflexivity|]. split; [reflexivity|].
      split; [reflexivity | discriminate].
    + split; [reflexivity|]. split; [reflexivity|].
      split; [intros H; contradiction | reflexivity].
  - intros Hd Hoff. unfold toggleScreenShare. rewrite bind_get, Hoff, Hd.
    unfold registry_size.
    destruct (peerConnections st) as [|e rest] eqn:Hr; cbn [length Nat.eqb orb].
    + run_action. split; [reflexivity|]. split; [reflexivity|].
      split; [intros H; contradiction | reflexivity].
    + destruct (localStream st) as [s|] eqn:Hs; cbn [isSome negb]; run_action.
      * split; [reflexivity|]. split; [reflexivity|].
        split; [reflexivity|]. intros [H|H]; discriminate.
      * split; [reflexivity|]. split; [reflexivity|].
        split; [intros _ H; contradiction | reflexivity].
Qed.

(** ** The address filter *)

(** X9: the handler ignores every envelope that is addressed to another user
    (presence announcements apart) or that the local user sent: it returns
    with the state unchanged and no effect, whatever the envelope's type
    and payload; so does a session without a user. *)
Theorem foreign_or_own_signal_ignored w st sig :
  (forall me, currentUser st = Some me -> notForUs me sig = true \/ senderId sig = me) ->
  onSignal w sig st = mkRun (Returned tt) st [].
Proof.
  intros H. unfold onSignal. rewrite bind_get.
  destruct (currentUser st) as [me|]; [|reflexivity].
  destruct (H me eq_refl) as [Hf | Hs].
  - rewrite Hf. reflexivity.
  - destruct (notForUs me sig); [reflexivity|].
    rewrite Hs, String.eqb_refl. reflexivity.
Qed.

Lemma foreign_or_own_signal_ignored_witness :
  (forall me, currentUser pendingFromAlice = Some me ->
     notForUs me (mkSignal HANGUP "alice" (Some "carol") emptyPayload) = true \/
     senderId (mkSignal HANGUP "alice" (Some "carol") emptyPayload) = me) /\
  onSignal (calm 2000) (mkSignal HANGUP "alice" (Some "carol") emptyPayload) pendingFromAlice
    = mkRun (Returned tt) pendingFromAlice [].
Proof.
  assert (H : forall me, currentUser pendingFromAlice = Some me ->
     notForUs me (mkSignal HANGUP "alice" (Some "carol") emptyPayload) = true \/
     senderId (mkSignal HANGUP "alice" (Some "carol") emptyPayload) = me).
  { intros me Hme. injection Hme as <-. left. reflexivity. }
  split; [exact H|].
  apply (foreign_or_own_signal_ignored (calm 2000) pendingFromAlice _ H).
Defined.

(** ** Logging out *)

(** X10: [logout] ends the session locally and silently: the user, the pending
    call and the call data are cleared, every local track is stopped and
    every connection closed, the stream and the registry are emptied and
    the media flags are off; no HANGUP or any other envelope is sent to the
    participants of a call in progress. *)
Theorem logout_tears_down_silently st :
  let r := logout st in
  outcome r = Returned tt /\
  currentUser (final r) = None /\
  incomingCall (final r) = None /\
  phase (final r) = Idle /\
  activeParticipants (final r) = [] /\
  localStream (final r) = None /\
  peerConnections (final r) = [] /\
  isMicOn (final r) = false /\
  isCameraOn (final r) = false /\
  isScreenSharing (final r) = false /\
  (currentUser st <> None -> isSignalingConnected (final r) = false) /\
  trace r = cleanupTrace st /\
  existsb isSignal (trace r) = false.
Proof.
  cbv zeta. unfold logout. rewrite bind_get. unfold setIncomingCall, setIsInCall.
  rewrite !bind_modify. unfold bind. rewrite cleanupCall_run.
  assert (Ht : cleanupTrace
                 (set_isInCall false (set_incomingCall None (set_currentUser None st)))
               = cleanupTrace st) by reflexivity.
  destruct (currentUser st) as [me|]; cbn [isSome]; cbn; rewrite ?app_nil_r, ?Ht;
    repeat split; try apply cleanupTrace_no_signal; intros H; contradiction.
Qed.

Lemma capture_refused_changes_nothing_witness :
  cameraCapture (captureDenied 2000) = None /\
  isCameraOn bobCallsAlice = false /\
  displayCapture (captureDenied 2000) = None /\
  isScreenSharing bobCallsAlice = false /\
  final (toggleCamera (captureDenied 2000) bobCallsAlice) = bobCallsAlice /\
  trace (toggleCamera (captureDenied 2000) bobCallsAlice)
    = [EGetUserMedia false true false; EConsole "Failed to access camera"] /\
  final (toggleScreenShare (captureDenied 2000) bobCallsAlice) = bobCallsAlice /\
  trace (toggleScreenShare (captureDenied 2000) bobCallsAlice)
    = [EGetDisplayMedia false; EConsole "Error starting screen share:"].
Proof.
  destruct (capture_refused_changes_nothing (captureDenied 2000) bobCallsAlice)
    as [Hcam Hscreen].
  destruct (Hcam eq_refl eq_refl) as (_ & Hc1 & Hc2 & _).
  destruct (Hscreen eq_refl eq_refl) as (_ & Hs1 & Hs2 & _).
  split; [reflexivity|]. split; [reflexivity|]. split; [reflexivity|].
  split; [reflexivity|]. split; [exact Hc1|]. split.
  - apply Hc2. discriminate.
  - split; [exact Hs1|]. apply Hs2; discriminate.
Defined.

(** ** Nothing reaches the channel before it is subscribed *)

Lemma quiet_ret {A} (a : A) : quiet (ret a).
Proof. intros st H. split; [exact H | reflexivity]. Qed.

Lemma quiet_get : quiet get.
Proof. intros st H. split; [exact H | reflexivity]. Qed.

Lemma quiet_throw {A} : quiet (@throw A).
Proof. intros st H. split; [exact H | reflexivity]. Qed.

Lemma quiet_emit e : handedToChannel e = false -> quiet (emit e).
Proof. intros He st H. split; [exact H | cbn; rewrite He; reflexivity]. Qed.

Lemma quiet_emitAll es : existsb handedToChannel es = false -> quiet (emitAll es).
Proof. intros He st H. split; [exact H | exact He]. Qed.

Lemma quiet_modify f :
  (forall st, isSignalingConnected st = false -> isSignalingConnected (f st) = false) ->
  quiet (modify f).
Proof. intros Hf st H. split; [apply Hf, H | reflexivity]. Qed.

Lemma quiet_bind {A B} (c : Action A) (k : A -> Action B) :
  quiet c -> (forall a, quiet (k a)) -> quiet (bind c k).
Proof.
  intros Hc Hk st H. unfold bind. destruct (Hc st H) as [H1 T1].
  destruct (c st) as [[a|] st1 t1]; cbn in *; [|split; assumption].
  destruct (Hk a st1 H1) as [H2 T2].
  destruct (k a st1) as [o st2 t2]; cbn in *.
  split; [exact H2|]. rewrite existsb_app, T1, T2. reflexivity.
Qed.

Lemma quiet_try_catch c h : quiet c -> quiet h -> quiet (try_catch c h).
Proof.
  intros Hc Hh st H. unfold try_catch. destruct (Hc st H) as [H1 T1].
  destruct (c st) as [[a|] st1 t1]; cbn in *; [split; assumption|].
  destruct (Hh st1 H1) as [H2 T2].
  destruct (h st1) as [o st2 t2]; cbn in *.
  split; [exact H2|]. rewrite existsb_app, T1, T2. reflexivity.
Qed.

Lemma quiet_forEach {A} (l : list A) body :
  (forall x, quiet (body x)) -> quiet (forEach l body).
Proof.
  intros H. induction l as [|x l IH]; cbn [forEach].
  - apply quiet_ret.
  - apply quiet_bind; [apply H | intros _; exact IH].
Qed.

Lemma quiet_sendSignal w ty to p : quiet (sendSignal w ty to p).
Proof.
  intros st H. rewrite sendSignal_run. split; [exact H|].
  unfold signalTrace, delivery. rewrite H.
  destruct (currentUser st); [|reflexivity].
  destruct (signalingChannel st); reflexivity.
Qed.

Lemma handedToChannel_map_none {A} (f : A -> Effect) (l : list A) :
  (forall x, handedToChannel (f x) = false) ->
  existsb handedToChannel (map f l) = false.
Proof.
  intros Hf. induction l as [|x l IH]; [reflexivity|]. cbn. rewrite Hf. exact IH.
Qed.

Create HintDb quiet.

#[local] Hint Resolve quiet_sendSignal : quiet.

Ltac quiet_step :=
  first
    [ solve [auto with quiet]
    | simple apply quiet_ret
    | simple apply quiet_get
    | simple apply quiet_throw
    | simple apply quiet_emit; reflexivity
    | simple apply quiet_emitAll;
      solve [ reflexivity | apply handedToChannel_map_none; reflexivity ]
    | simple apply quiet_modify; intros ? ?; cbn; first [assumption | reflexivity]
    | simple apply quiet_bind; [ | intros ?]
    | simple apply quiet_try_catch
    | simple apply quiet_forEach; intros ?
    | match goal with
      | |- quiet (match ?x with _ => _ end) => destruct x
      | |- quiet (if ?x then _ else _) => destruct x
      end ].

Ltac quiet_tac :=
  unfold setIncomingCall, setIsInCall, setActiveCallData, setLocalStream,
    setIsScreenSharing, setIsMicOn, setIsCameraOn, setPeerConnections, forEachPeer,
    addLocalTrack, createPeerConnection, addTracksToPc;
  repeat quiet_step.

Lemma quiet_offerTo w peer : quiet (offerTo w peer).
Proof. unfold offerTo. quiet_tac. Qed.

#[local] Hint Resolve quiet_offerTo : quiet.

Lemma quiet_renegotiate w : quiet (renegotiate w).
Proof. unfold renegotiate. quiet_tac. Qed.

Lemma quiet_callPeer w peer stream : quiet (callPeer w peer stream).
Proof. unfold callPeer. quiet_tac. Qed.

Lemma quiet_cleanupCall : quiet cleanupCall.
Proof. unfold cleanupCall. quiet_tac. Qed.

Lemma quiet_stopVideoTracks p : quiet (stopVideoTracks p).
Proof. unfold stopVideoTracks. quiet_tac. Qed.

#[local] Hint Resolve quiet_renegotiate quiet_callPeer quiet_cleanupCall
  quiet_stopVideoTracks : quiet.

Lemma quiet_stopScreenSharing w : quiet (stopScreenSharing w).
Proof. unfold stopScreenSharing. quiet_tac. Qed.

Lemma quiet_handleRemoteHangup sender : quiet (handleRemoteHangup sender).
Proof. unfold handleRemoteHangup. quiet_tac. Qed.

Lemma quiet_missedCall w me sender : quiet (missedCall w me sender).
Proof. unfold missedCall. quiet_tac. Qed.

Lemma quiet_initiateCallConnection w peer : quiet (initiateCallConnection w peer).
Proof. unfold initiateCallConnection. quiet_tac. Qed.

#[local] Hint Resolve quiet_stopScreenSharing quiet_handleRemoteHangup quiet_missedCall
  quiet_initiateCallConnection : quiet.

Lemma quiet_step_action w op : op <> ChannelStatus true -> quiet (step w op).
Proof.
  intros Hop. destruct op; cbn [step].
  - unfold login. quiet_tac.
  - unfold logout. quiet_tac.
  - destruct subscribed; [contradiction|]. unfold onChannelStatus. quiet_tac.
  - unfold onSignal. quiet_tac.
  - unfold startCall, startGroupCall. quiet_tac.
  - unfold startGroupCall. quiet_tac.
  - unfold addToCall. quiet_tac.
  - unfold acceptIncomingCall. quiet_tac.
  - unfold rejectIncomingCall. quiet_tac.
  - unfold endCall. quiet_tac.
  - unfold toggleMic. quiet_tac.
  - unfold toggleCamera. quiet_tac.
  - unfold toggleScreenShare. quiet_tac.
  - auto with quiet.
  - unfold onicecandidate. quiet_tac.
Qed.

(** X11: as long as the signaling channel is not subscribed, no action (call
    actions, inbound signals, toggles, login and logout) hands any envelope
    to [channel.send]: every send is dropped before the channel is touched,
    and only the SUBSCRIBED status callback ends that state. *)
Theorem nothing_sent_before_subscribed w op st :
  op <> ChannelStatus true ->
  isSignalingConnected st = false ->
  isSignalingConnected (final (step w op st)) = false /\
  existsb handedToChannel (trace (step w op st)) = false.
Proof. intros Hop H. apply (quiet_step_action w op Hop st H). Qed.

Lemma nothing_sent_before_subscribed_witness :
  StartCall "alice" <> ChannelStatus true /\
  isSignalingConnected bobOffline = false /\
  isSignalingConnected (final (step (calm 1000) (StartCall "alice") bobOffline)) = false /\
  existsb handedToChannel (trace (step (calm 1000) (StartCall "alice") bobOffline)) = false.
Proof.
  split; [discriminate|]. split; [reflexivity|].
  apply (nothing_sent_before_subscribed (calm 1000) (StartCall "alice") bobOffline).
  - discriminate.
  - reflexivity.
Defined.

(** ** Round trips of the media toggles *)

Lemma setAudioEnabled_twice b b' s :
  setAudioEnabled b (setAudioEnabled b' s) = setAudioEnabled b s.
Proof.
  unfold setAudioEnabled. rewrite map_map. apply map_ext. intros t.
  destruct (isAudio t) eqn:K; [|rewrite K; reflexivity].
  unfold isAudio at 1. cbn [kind]. fold (isAudio t). rewrite K. reflexivity.
Qed.

Lemma setAudioEnabled_mirror st s :
  micOk st -> localStream st = Some s -> setAudioEnabled (isMicOn st) s = s.
Proof.
  unfold micOk. intros Hm Hs. rewrite Hs in Hm. unfold setAudioEnabled.
  rewrite <- (map_id s) at 2. apply map_ext_in. intros t Ht.
  destruct (isAudio t) eqn:K; [|reflexivity].
  rewrite <- (Hm t) by (apply filter_In; split; assumption).
  destruct t; reflexivity.
Qed.

Lemma getAudioTracks_setAudioEnabled_nonempty b s :
  getAudioTracks s <> [] -> getAudioTracks (setAudioEnabled b s) <> [].
Proof.
  unfold getAudioTracks, setAudioEnabled. induction s as [|t s IH]; [intros H; contradiction|].
  cbn [filter map]. destruct (isAudio t) eqn:K.
  - intros _. unfold isAudio at 1. cbn [kind]. fold (isAudio t). rewrite K. discriminate.
  - rewrite K. exact IH.
Qed.

(** X12: in every reachable state whose local stream holds an audio track,
    toggling the microphone twice restores the state exactly: the enabled
    flag of every track and the microphone flag are back, and nothing else
    has moved. *)
Theorem toggleMic_twice_restores ops stored us w1 w2 s :
  localStream (run ops (initialState stored us)) = Some s ->
  getAudioTracks s <> [] ->
  final (toggleMic w2 (final (toggleMic w1 (run ops (initialState stored us)))))
    = run ops (initialState stored us).
Proof.
  intros Hs Ha.
  destruct (reachable_wf ops stored us) as (_ & Hm & _).
  set (st := run ops (initialState stored us)) in *.
  rewrite (toggleMic_run w1 st s Hs Ha). cbn [final].
  rewrite (toggleMic_run w2 _ (setAudioEnabled (negb (isMicOn st)) s));
    [| reflexivity | apply getAudioTracks_setAudioEnabled_nonempty; exact Ha].
  cbn [final isMicOn set_isMicOn set_localStream].
  rewrite negb_involutive, setAudioEnabled_twice, (setAudioEnabled_mirror st s Hm Hs).
  clearbody st. destruct st; cbn in *. subst. reflexivity.
Qed.

Lemma toggleMic_twice_restores_witness :
  localStream (run bobCallsAliceOps (initialState None [])) = Some [mutedMicrophone] /\
  getAudioTracks [mutedMicrophone] <> [] /\
  final (toggleMic (calm 3000)
           (final (toggleMic (calm 2000) (run bobCallsAliceOps (initialState None [])))))
    = run bobCallsAliceOps (initialState None []).
Proof.
  split; [reflexivity|]. split; [discriminate|].
  apply (toggleMic_twice_restores bobCallsAliceOps None [] (calm 2000) (calm 3000)
           [mutedMicrophone]).
  - reflexivity.
  - discriminate.
Defined.

Lemma withoutVideo_no_video p s : getVideoTracks s = [] -> withoutVideo p s = s.
Proof.
  unfold getVideoTracks, withoutVideo. induction s as [|t s IH]; [reflexivity|].
  cbn [filter]. destruct (isVideo t) eqn:K; [discriminate|].
  intros H. cbn. rewrite (IH H). reflexivity.
Qed.

Lemma withoutVideo_app p s1 s2 :
  withoutVideo p (s1 ++ s2) = withoutVideo p s1 ++ withoutVideo p s2.
Proof. unfold withoutVideo. apply filter_app. Qed.

Lemma toggleScreenShare_start_run w st s id lbl surface :
  peerConnections st <> [] ->
  localStream st = Some s ->
  isScreenSharing st = false ->
  isCameraOn st = false ->
  displayCapture w = Some (id, lbl, surface) ->
  toggleScreenShare w st =
  mkRun (Returned tt) (sharing (mkTrack id Video lbl surface true) s st)
        (EGetDisplayMedia true ::
         renegotiateTrace w (sharing (mkTrack id Video lbl surface true) s st)).
Proof.
  intros Hp Hs Hsh Hcam Hd.
  unfold toggleScreenShare. rewrite bind_get, Hs, Hsh, Hcam, Hd.
  destruct (peerConnections st) as [|e r] eqn:Hr; [contradiction|].
  cbn [registry_size length Nat.eqb isSome negb orb].
  run_action. rewrite renegotiate_run. cbn. unfold sharing. rewrite Hs, Hr. reflexivity.
Qed.

(** X13: starting a screen share and stopping it again is a round trip on the
    local stream.  With a peer connection, camera off, no video track in
    the stream, a display track with a fresh id that the code recognises as
    a screen track: after the first toggle the flag is on and the screen
    track is the stream's only video track; after the second the stream is
    exactly what it was, the screen track has been stopped and the flags
    are off again. *)
Theorem screen_share_round_trip w1 w2 st s id lbl surface :
  peerConnections st <> [] ->
  localStream st = Some s ->
  getVideoTracks s = [] ->
  isScreenSharing st = false ->
  isCameraOn st = false ->
  displayCapture w1 = Some (id, lbl, surface) ->
  isScreenTrack (mkTrack id Video lbl surface true) = true ->
  existsb (fun t => Nat.eqb (trackId t) id) s = false ->
  let st1 := final (toggleScreenShare w1 st) in
  let r2 := toggleScreenShare w2 st1 in
  isScreenSharing st1 = true /\
  option_map getVideoTracks (localStream st1) = Some [mkTrack id Video lbl surface true] /\
  outcome r2 = Returned tt /\
  localStream (final r2) = Some s /\
  isScreenSharing (final r2) = false /\
  isCameraOn (final r2) = false /\
  In (ETrackStop id) (trace r2) /\
  registry_keys (peerConnections (final r2)) = registry_keys (peerConnections st).
Proof.
  intros Hp Hs Hv Hsh Hcam Hd Hscreen Hfresh st1 r2. subst r2 st1.
  rewrite (toggleScreenShare_start_run w1 st s id lbl surface Hp Hs Hsh Hcam Hd).
  cbn [final].
  set (screen := mkTrack id Video lbl surface true) in *.
  assert (Hadd : addTrack screen s = s ++ [screen]).
  { unfold addTrack. subst screen. cbn [trackId]. rewrite Hfresh. reflexivity. }
  assert (Hp1 : peerConnections (sharing screen s st) <> []).
  { unfold sharing. cbn. destruct (peerConnections st); [contradiction | discriminate]. }
  assert (Hs1 : localStream (sharing screen s st) = Some (s ++ [screen])).
  { unfold sharing. cbn. rewrite Hadd. reflexivity. }
  split; [reflexivity|]. split.
  { rewrite Hs1. cbn. unfold getVideoTracks in *. rewrite filter_app, Hv. reflexivity. }
  assert (Hkeys : registry_keys
                    (map (fun e => (fst e, detachVideo (snd e)))
                         (peerConnections (sharing screen s st)))
                  = registry_keys (peerConnections st)).
  { unfold sharing, registry_keys. cbn. rewrite !map_map. reflexivity. }
  unfold toggleScreenShare. rewrite bind_get, Hs1.
  destruct (peerConnections (sharing screen s st)) as [|e r] eqn:Hr; [contradiction|].
  cbn [registry_size length Nat.eqb isSome negb orb].
  change (isScreenSharing (sharing screen s st)) with true. cbn iota.
  rewrite (stopScreenSharing_run w2 _ (s ++ [screen])); [| rewrite Hr; discriminate | exact Hs1].
  cbn [outcome final trace].
  assert (Hback : withoutVideo isScreenTrack (s ++ [screen]) = s).
  { rewrite withoutVideo_app, (withoutVideo_no_video _ s Hv).
    unfold withoutVideo. cbn. rewrite Hscreen. cbn. apply app_nil_r. }
  split; [reflexivity|]. split; [cbn; rewrite Hback; reflexivity|].
  split; [reflexivity|]. split; [reflexivity|]. split.
  { apply in_or_app. left. unfold stopTrace, getVideoTracks.
    rewrite filter_app. fold (getVideoTracks s). rewrite Hv. cbn.
    rewrite Hscreen. left. reflexivity. }
  cbn [final peerConnections set_peerConnections set_isCameraOn set_isScreenSharing
       set_localStream].
  rewrite Hr. exact Hkeys.
Qed.

Lemma screen_share_round_trip_witness :
  peerConnections bobCallsAlice <> [] /\
  localStream bobCallsAlice = Some [mutedMicrophone] /\
  getVideoTracks [mutedMicrophone] = [] /\
  isScreenSharing bobCallsAlice = false /\
  isCameraOn bobCallsAlice = false /\
  displayCapture (calm 2000) = Some (2, "screen:0:0", Some "monitor") /\
  isScreenTrack (mkTrack 2 Video "screen:0:0" (Some "monitor") true) = true /\
  existsb (fun t => Nat.eqb (trackId t) 2) [mutedMicrophone] = false /\
  localStream (final (toggleScreenShare (calm 3000)
                        (final (toggleScreenShare (calm 2000) bobCallsAlice))))
    = Some [mutedMicrophone].
Proof.
  assert (Hp : peerConnections bobCallsAlice <> []) by discriminate.
  destruct (screen_share_round_trip (calm 2000) (calm 3000) bobCallsAlice [mutedMicrophone]
              2 "screen:0:0" (Some "monitor") Hp eq_refl eq_refl eq_refl eq_refl eq_refl
              eq_refl eq_refl) as (_ & _ & _ & Hback & _).
  split; [exact Hp|]. split; [reflexivity|]. split; [reflexivity|].
  split; [reflexivity|]. split; [reflexivity|]. split; [reflexivity|].
  split; [reflexivity|]. split; [reflexivity|]. exact Hback.
Defined.

Lemma toggleCamera_start_run w st s id lbl :
  localStream st = Some s ->
  isCameraOn st = false ->
  isScreenSharing st = false ->
  cameraCapture w = Some (id, lbl) ->
  toggleCamera w st =
  mkRun (Returned tt) (filming (mkTrack id Video lbl None true) s st)
        (EGetUserMedia false true true ::
         renegotiateTrace w (filming (mkTrack id Video lbl None true) s st)).
Proof.
  intros Hs Hcam Hsh Hc.
  unfold toggleCamera. rewrite bind_get, Hs, Hcam, Hsh, Hc.
  run_action. rewrite renegotiate_run. cbn. unfold filming. rewrite Hs. reflexivity.
Qed.

Lemma toggleCamera_stop_run w st s :
  localStream st = Some s ->
  isCameraOn st = true ->
  toggleCamera w st =
  mkRun (Returned tt)
        (set_peerConnections
           (map (fun e => (fst e, detachVideo (snd e))) (peerConnections st))
           (set_isCameraOn false
              (set_localStream
                 (Some (withoutVideo (fun t => negb (isScreenTrack t)) s)) st)))
        (stopTrace (fun t => negb (isScreenTrack t)) s).
Proof.
  intros Hs Hcam. unfold toggleCamera. rewrite bind_get, Hs, Hcam.
  run_action. rewrite (stopVideoTracks_run _ st s Hs). cbn. rewrite app_nil_r.
  reflexivity.
Qed.

Lemma stopTrace_no_signal p s : existsb isSignal (stopTrace p s) = false.
Proof.
  unfold stopTrace. induction (filter p (getVideoTracks s)) as [|t l IH]; [reflexivity|].
  exact IH.
Qed.

(** X14: turning the camera off stops and removes exactly the video tracks the
    code does not recognise as a screen share: each of them is stopped, in
    the order of the stream, and nothing else is done; every audio track
    and every screen track stays in the stream, the screen-share flag is
    untouched, and no envelope is sent (no renegotiation round). *)
Theorem toggleCamera_off_spares_screen_share w st s :
  localStream st = Some s ->
  isCameraOn st = true ->
  let r := toggleCamera w st in
  outcome r = Returned tt /\
  isCameraOn (final r) = false /\
  isScreenSharing (final r) = isScreenSharing st /\
  (exists s', localStream (final r) = Some s' /\
     forall t, In t s' <->
               In t s /\ (kind t = Audio \/ isScreenTrack t = true)) /\
  trace r = map (fun t => ETrackStop (trackId t))
                (filter (fun t => negb (isScreenTrack t)) (getVideoTracks s)) /\
  (forall t, In t s -> kind t = Video -> isScreenTrack t = false ->
     In (ETrackStop (trackId t)) (trace r)) /\
  (forall e, In e (trace r) ->
     exists t, e = ETrackStop (trackId t) /\ In t s /\ kind t = Video /\
               isScreenTrack t = false) /\
  existsb isSignal (trace r) = false.
Proof.
  intros Hs Hcam r. subst r. rewrite (toggleCamera_stop_run w st s Hs Hcam).
  cbn [outcome final trace].
  split; [reflexivity|]. split; [reflexivity|]. split; [reflexivity|]. split.
  { eexists. split; [reflexivity|]. intros t. unfold withoutVideo.
    rewrite filter_In. unfold isVideo. destruct (kind t); cbn.
    - split; [intros [H _]; split; [exact H | left; reflexivity] | intros [H _]; split; [exact H | reflexivity]].
    - destruct (isScreenTrack t); cbn.
      + split; [intros [H _]; split; [exact H | right; reflexivity]
               | intros [H _]; split; [exact H | reflexivity]].
      + split; [intros [_ H]; discriminate | intros [_ [H | H]]; discriminate]. }
  split; [reflexivity|]. split.
  { intros t Ht Hk Hscreen. unfold stopTrace.
    apply (in_map (fun x => ETrackStop (trackId x))). apply filter_In. split.
    - unfold getVideoTracks. apply filter_In. split; [exact Ht|].
      unfold isVideo. rewrite Hk. reflexivity.
    - rewrite Hscreen. reflexivity. }
  split; [|apply stopTrace_no_signal].
  intros e He. unfold stopTrace in He. apply in_map_iff in He.
  destruct He as (t & <- & Ht). apply filter_In in Ht. destruct Ht as [Ht Hp].
  unfold getVideoTracks in Ht. apply filter_In in Ht. destruct Ht as [Hin Hv].
  exists t. split; [reflexivity|]. split; [exact Hin|]. split.
  - unfold isVideo in Hv. destruct (kind t); [discriminate | reflexivity].
  - destruct (isScreenTrack t); [discriminate | reflexivity].
Qed.

Lemma toggleCamera_off_spares_screen_share_witness :
  localStream (filming (mkTrack 3 Video "Integrated Camera" None true)
                 [mutedMicrophone] bobCallsAlice)
    = Some [mutedMicrophone; mkTrack 3 Video "Integrated Camera" None true] /\
  isCameraOn (filming (mkTrack 3 Video "Integrated Camera" None true)
                [mutedMicrophone] bobCallsAlice) = true /\
  isCameraOn (final (toggleCamera (calm 3000)
                (filming (mkTrack 3 Video "Integrated Camera" None true)
                   [mutedMicrophone] bobCallsAlice))) = false /\
  trace (toggleCamera (calm 3000)
           (filming (mkTrack 3 Video "Integrated Camera" None true)
              [mutedMicrophone] bobCallsAlice)) = [ETrackStop 3].
Proof.
  destruct (toggleCamera_off_spares_screen_share (calm 3000)
              (filming (mkTrack 3 Video "Integrated Camera" None true)
                 [mutedMicrophone] bobCallsAlice)
              [mutedMicrophone; mkTrack 3 Video "Integrated Camera" None true]
              eq_refl eq_refl)
    as (_ & Hoff & _ & _ & Htrace & _).
  split; [reflexivity|]. split; [reflexivity|]. split; [exact Hoff | exact Htrace].
Defined.

(** X15: turning the camera on and off again is a round trip on the local
    stream.  Not sharing the screen, no video track in the stream, a camera
    track with a fresh id whose label the code does not take for a screen:
    after the first toggle the camera track is the only video track and
    the flag is on; after the second the stream is exactly what it was and
    the camera track has been stopped. *)
Theorem camera_round_trip w1 w2 st s id lbl :
  localStream st = Some s ->
  getVideoTracks s = [] ->
  isCameraOn st = false ->
  isScreenSharing st = false ->
  cameraCapture w1 = Some (id, lbl) ->
  includes "screen" lbl = false ->
  existsb (fun t => Nat.eqb (trackId t) id) s = false ->
  let st1 := final (toggleCamera w1 st) in
  let r2 := toggleCamera w2 st1 in
  isCameraOn st1 = true /\
  option_map getVideoTracks (localStream st1) = Some [mkTrack id Video lbl None true] /\
  outcome r2 = Returned tt /\
  localStream (final r2) = Some s /\
  isCameraOn (final r2) = false /\
  trace r2 = [ETrackStop id].
Proof.
  intros Hs Hv Hcam Hsh Hc Hlbl Hfresh st1 r2. subst r2 st1.
  rewrite (toggleCamera_start_run w1 st s id lbl Hs Hcam Hsh Hc). cbn [final].
  set (cam := mkTrack id Video lbl None true) in *.
  assert (Hadd : addTrack cam s = s ++ [cam]).
  { unfold addTrack. subst cam. cbn [trackId]. rewrite Hfresh. reflexivity. }
  assert (Hnot : isScreenTrack cam = false).
  { unfold isScreenTrack. subst cam. cbn. rewrite Hlbl. reflexivity. }
  assert (Hs1 : localStream (filming cam s st) = Some (s ++ [cam])).
  { unfold filming. cbn. rewrite Hadd. reflexivity. }
  split; [reflexivity|]. split.
  { rewrite Hs1. cbn. unfold getVideoTracks in *. rewrite filter_app, Hv. reflexivity. }
  rewrite (toggleCamera_stop_run w2 _ (s ++ [cam]) Hs1) by reflexivity.
  cbn [outcome final trace].
  split; [reflexivity|]. split.
  { cbn. rewrite withoutVideo_app, (withoutVideo_no_video _ s Hv).
    unfold withoutVideo. cbn. rewrite Hnot. cbn. rewrite app_nil_r. reflexivity. }
  split; [reflexivity|].
  unfold stopTrace, getVideoTracks. rewrite filter_app. fold (getVideoTracks s).
  rewrite Hv. cbn. rewrite Hnot. reflexivity.
Qed.

Lemma camera_round_trip_witness :
  localStream bobCallsAlice = Some [mutedMicrophone] /\
  getVideoTracks [mutedMicrophone] = [] /\
  isCameraOn bobCallsAlice = false /\
  isScreenSharing bobCallsAlice = false /\
  cameraCapture (calm 2000) = Some (3, "Integrated Camera") /\
  includes "screen" "Integrated Camera" = false /\
  existsb (fun t => Nat.eqb (trackId t) 3) [mutedMicrophone] = false /\
  localStream (final (toggleCamera (calm 3000)
                        (final (toggleCamera (calm 2000) bobCallsAlice))))
    = Some [mutedMicrophone].
Proof.
  destruct (camera_round_trip (calm 2000) (calm 3000) bobCallsAlice [mutedMicrophone]
              3 "Integrated Camera" eq_refl eq_refl eq_refl eq_refl eq_refl eq_refl eq_refl)
    as (_ & _ & _ & Hback & _).
  split; [reflexivity|]. split; [reflexivity|]. split; [reflexivity|].
  split; [reflexivity|]. split; [reflexivity|]. split; [reflexivity|].
  split; [reflexivity|]. exact Hback.
Defined.

(** ** Invariants of the session *)

(** X16: after every sequence of actions, in every world, the microphone flag
    equals the enabled flag of every audio track of the local stream; and a
    session without a user holds no local stream and no pending call. *)
Theorem session_invariants ops stored us :
  (forall s t,
     localStream (run ops (initialState stored us)) = Some s ->
     In t s -> kind t = Audio ->
     enabled t = isMicOn (run ops (initialState stored us))) /\
  (currentUser (run ops (initialState stored us)) = None ->
   localStream (run ops (initialState stored us)) = None /\
   incomingCall (run ops (initialState stored us)) = None).
Proof.
  destruct (reachable_wf ops stored us) as (_ & Hm & Hv).
  set (st := run ops (initialState stored us)) in *. split.
  - intros s t Hs Ht Hk. unfold micOk in Hm. rewrite Hs in Hm. apply Hm.
    unfold getAudioTracks. apply filter_In. split; [exact Ht|].
    unfold isAudio. rewrite Hk. reflexivity.
  - exact Hv.
Qed.

(** * Properties of the task board *)

Lemma insertByOrder_perm (t : Task) (l : list Task) :
  Permutation (insertByOrder t l) (t :: l).
Proof.
  induction l as [|x rest IH]; cbn; [reflexivity|].
  destruct (Z.leb (orderOf t) (orderOf x)); [reflexivity|].
  rewrite IH. apply perm_swap.
Qed.

Lemma sortByOrder_perm (l : list Task) : Permutation (sortByOrder l) l.
Proof.
  induction l as [|x rest IH]; cbn; [reflexivity|].
  rewrite insertByOrder_perm. now constructor.
Qed.

Lemma place_perm (i : option Z) (t : Task) (l : list Task) :
  Permutation (place i t l) (t :: l).
Proof.
  assert (Hlast : Permutation (l ++ [t]) (t :: l))
    by (symmetry; apply Permutation_cons_append).
  destruct i as [z|]; cbn; [|exact Hlast].
  destruct (Z.leb 0 z && Z.leb z (Z.of_nat (length l))); [|exact Hlast].
  rewrite <- (firstn_skipn (Z.to_nat z) l) at 3.
  symmetry. apply Permutation_middle.
Qed.

Lemma renumberFrom_ids (i : nat) (l : list Task) :
  map t_id (renumberFrom i l) = map t_id l.
Proof. revert i; induction l as [|x rest IH]; intros i; cbn; [|rewrite IH]; reflexivity. Qed.

Lemma renumberFrom_status (i : nat) (l : list Task) :
  map t_status (renumberFrom i l) = map t_status l.
Proof. revert i; induction l as [|x rest IH]; intros i; cbn; [|rewrite IH]; reflexivity. Qed.

Lemma renumberFrom_length (i : nat) (l : list Task) :
  length (renumberFrom i l) = length l.
Proof. revert i; induction l as [|x rest IH]; intros i; cbn; [|rewrite IH]; reflexivity. Qed.

Lemma renumberFrom_orders (i : nat) (l : list Task) :
  map t_order (renumberFrom i l) = map (fun k => Some (Z.of_nat k)) (seq i (length l)).
Proof. revert i; induction l as [|x rest IH]; intros i; cbn; [|rewrite IH]; reflexivity. Qed.

Lemma renumberFrom_nth (i k : nat) (l : list Task) :
  nth_error (renumberFrom i l) k
  = option_map (withOrder (Z.of_nat (i + k))) (nth_error l k).
Proof.
  revert i k; induction l as [|x rest IH]; intros i [|k]; cbn; try reflexivity.
  - now rewrite Nat.add_0_r.
  - rewrite IH. now replace (S i + k)%nat with (i + S k)%nat by lia.
Qed.

Lemma renumberFrom_In (i : nat) (l : list Task) (u : Task) :
  In u (renumberFrom i l) <-> exists k x, In x l /\ nth_error l k = Some x /\
                                         u = withOrder (Z.of_nat (i + k)) x.
Proof.
  split.
  - intros Hin. apply In_nth_error in Hin as [k Hk].
    rewrite renumberFrom_nth in Hk.
    destruct (nth_error l k) as [x|] eqn:Hx; [|discriminate].
    injection Hk as <-. exists k, x. split; [eapply nth_error_In; eauto|]. now split.
  - intros (k & x & _ & Hk & ->).
    apply (nth_error_In _ k). now rewrite renumberFrom_nth, Hk.
Qed.

Lemma updateFor_Some (ups : list Task) (id : string) (u : Task) :
  updateFor ups id = Some u -> In u ups /\ t_id u = id.
Proof.
  unfold updateFor. intros H. apply find_some in H as [Hin Heq].
  split; [now apply in_rev|now apply String.eqb_eq].
Qed.

Lemma updateFor_None (ups : list Task) (id : string) :
  updateFor ups id = None -> ~ In id (map t_id ups).
Proof.
  unfold updateFor. intros H Hin. apply in_map_iff in Hin as (u & <- & Hu).
  apply in_rev in Hu. pose proof (find_none _ _ H u Hu) as Hf. cbn in Hf.
  now rewrite String.eqb_refl in Hf.
Qed.

Lemma NoDup_ids_inj (l : list Task) (a b : Task) :
  NoDup (map t_id l) -> In a l -> In b l -> t_id a = t_id b -> a = b.
Proof.
  induction l as [|x rest IH]; cbn; [easy|].
  intros Hnd [->|Ha] [->|Hb] Hid; inversion Hnd as [|? ? Hnot Hrest]; subst.
  - reflexivity.
  - exfalso. apply Hnot. rewrite Hid. now apply in_map.
  - exfalso. apply Hnot. rewrite <- Hid. now apply in_map.
  - now apply IH.
Qed.

Lemma updateFor_unique (ups : list Task) (u : Task) :
  NoDup (map t_id ups) -> In u ups -> updateFor ups (t_id u) = Some u.
Proof.
  intros Hnd Hin. destruct (updateFor ups (t_id u)) as [v|] eqn:Hv.
  - apply updateFor_Some in Hv as [Hvin Hid].
    f_equal. now apply (NoDup_ids_inj ups).
  - apply updateFor_None in Hv. exfalso. apply Hv. now apply in_map.
Qed.

Lemma find_id_Some (tasks : list Task) (taskId : string) (task : Task) :
  find (fun t => String.eqb (t_id t) taskId) tasks = Some task ->
  In task tasks /\ t_id task = taskId.
Proof. intros H. apply find_some in H as [Hin Heq]. split; [easy|now apply String.eqb_eq]. Qed.

Lemma find_id_None (tasks : list Task) (taskId : string) :
  find (fun t => String.eqb (t_id t) taskId) tasks = None <-> ~ In taskId (map t_id tasks).
Proof.
  split.
  - intros H Hin. apply in_map_iff in Hin as (t & <- & Ht).
    pose proof (find_none _ _ H t Ht) as Hf. cbn in Hf. now rewrite String.eqb_refl in Hf.
  - intros Hnot. destruct (find _ tasks) as [t|] eqn:Hf; [|reflexivity].
    apply find_id_Some in Hf as [Hin <-]. exfalso. apply Hnot. now apply in_map.
Qed.

Lemma withStatus_own (t : Task) : withStatus (t_status t) t = t.
Proof. now destruct t. Qed.

Lemma destTasks_In (tasks : list Task) (taskId : string) (s : TaskStatus) (t : Task) :
  In t (destTasks tasks taskId s) <-> In t tasks /\ t_status t = s /\ t_id t <> taskId.
Proof.
  unfold destTasks. rewrite filter_In, andb_true_iff, negb_true_iff.
  now rewrite String.eqb_eq, String.eqb_neq.
Qed.

Lemma filter_unique_ids (keep : Task -> bool) (tasks : list Task) :
  NoDup (map t_id tasks) -> NoDup (map t_id (filter keep tasks)).
Proof.
  induction tasks as [|x rest IH]; cbn; [easy|].
  intros Hnd. inversion Hnd as [|? ? Hnot Hrest]; subst.
  destruct (keep x); cbn; [|now apply IH].
  constructor; [|now apply IH].
  intros Hin. apply Hnot. apply in_map_iff in Hin as (y & Hy & Hyin).
  apply filter_In in Hyin as [Hyin _]. rewrite <- Hy. now apply in_map.
Qed.

(** The rows of the destination column before they are numbered: the
    dragged task with its new status, and the other tasks of the column. *)
Lemma placed_perm (tasks : list Task) (taskId : string) (s : TaskStatus)
  (i : option Z) (task : Task) :
  Permutation (place i (withStatus s task) (sortByOrder (destTasks tasks taskId s)))
              (withStatus s task :: destTasks tasks taskId s).
Proof. rewrite place_perm. constructor. apply sortByOrder_perm. Qed.

Lemma placed_NoDup (tasks : list Task) (taskId : string) (s : TaskStatus)
  (i : option Z) (task : Task) :
  NoDup (map t_id tasks) -> t_id task = taskId ->
  NoDup (map t_id (place i (withStatus s task) (sortByOrder (destTasks tasks taskId s)))).
Proof.
  intros Hnd Hid.
  eapply Permutation_NoDup.
  - symmetry. apply Permutation_map. apply placed_perm.
  - cbn. constructor.
    + rewrite Hid. intros Hin. apply in_map_iff in Hin as (y & Hy & Hyin).
      apply destTasks_In in Hyin as (_ & _ & Hne). now apply Hne.
    + now apply filter_unique_ids.
Qed.

Section Move.

Variables (me : option UserId) (tasks : list Task) (taskId : string)
  (s : TaskStatus) (i : option Z) (task : Task) (m : Moved).
Hypothesis Hfind : find (fun t => String.eqb (t_id t) taskId) tasks = Some task.
Hypothesis Hmove : moveTask me tasks taskId s i = Some m.

Lemma move_updates :
  updates m = renumberFrom 0
    (place i (withStatus s task) (sortByOrder (destTasks tasks taskId s))).
Proof. unfold moveTask in Hmove. rewrite Hfind in Hmove. now injection Hmove as <-. Qed.

Lemma move_newTasks :
  newTasks m = map (fun t => match updateFor (updates m) (t_id t) with
                             | Some u => u
                             | None => if String.eqb (t_id t) taskId then withStatus s t else t
                             end) tasks.
Proof. unfold moveTask in Hmove. rewrite Hfind in Hmove. now injection Hmove as <-. Qed.

Lemma move_update_ids :
  Permutation (map t_id (updates m)) (taskId :: map t_id (destTasks tasks taskId s)).
Proof.
  rewrite move_updates, renumberFrom_ids.
  rewrite (Permutation_map t_id (placed_perm tasks taskId s i task)). cbn.
  now rewrite (proj2 (find_id_Some _ _ _ Hfind)).
Qed.

Lemma move_ids : map t_id (newTasks m) = map t_id tasks.
Proof.
  rewrite move_newTasks, map_map. apply map_ext. intros t.
  destruct (updateFor (updates m) (t_id t)) as [u|] eqn:Hu.
  - now apply updateFor_Some in Hu.
  - now destruct (String.eqb (t_id t) taskId).
Qed.

Lemma move_orders : map t_order (updates m) = dense (length (updates m)).
Proof.
  rewrite move_updates at 1. rewrite renumberFrom_orders.
  now rewrite <- (renumberFrom_length 0), <- move_updates.
Qed.

Hypothesis Hnd : NoDup (map t_id tasks).

Lemma move_updates_NoDup : NoDup (map t_id (updates m)).
Proof.
  rewrite move_updates, renumberFrom_ids.
  apply placed_NoDup; [easy|]. exact (proj2 (find_id_Some _ _ _ Hfind)).
Qed.

(** A task of the destination column, or the dragged one, is replaced by its
    update: itself with the new status and some order. *)
Lemma move_update_of (t : Task) :
  In t tasks -> t_status t = s \/ t_id t = taskId ->
  exists k, (k < length (updates m))%nat /\
            updateFor (updates m) (t_id t) = Some (withOrder (Z.of_nat k) (withStatus s t)).
Proof.
  intros Hin Hcase.
  destruct (find_id_Some _ _ _ Hfind) as [Htin Htid].
  assert (Hplaced : In (withStatus s t)
            (place i (withStatus s task) (sortByOrder (destTasks tasks taskId s)))).
  { eapply Permutation_in; [symmetry; apply placed_perm|].
    destruct (String.eqb (t_id t) taskId) eqn:He.
    - apply String.eqb_eq in He. left. f_equal.
      apply (NoDup_ids_inj tasks); auto. congruence.
    - apply String.eqb_neq in He. right.
      destruct Hcase as [Hs|]; [|easy].
      rewrite <- Hs, withStatus_own. apply destTasks_In. auto. }
  apply In_nth_error in Hplaced as [k Hk].
  exists k. split.
  - rewrite move_updates, renumberFrom_length. apply nth_error_Some. congruence.
  - replace (t_id t) with (t_id (withOrder (Z.of_nat k) (withStatus s t))) by reflexivity.
    apply updateFor_unique; [apply move_updates_NoDup|].
    rewrite move_updates. apply renumberFrom_In.
    exists k, (withStatus s t). split; [eapply nth_error_In; eauto|]. now split.
Qed.

(** Any other task has no update. *)
Lemma move_no_update (t : Task) :
  In t tasks -> t_status t <> s -> t_id t <> taskId ->
  updateFor (updates m) (t_id t) = None.
Proof.
  intros Hin Hs Hid.
  destruct (updateFor (updates m) (t_id t)) as [u|] eqn:Hu; [|reflexivity].
  exfalso. apply updateFor_Some in Hu as [Huin Huid].
  assert (Hids : In (t_id t) (taskId :: map t_id (destTasks tasks taskId s))).
  { eapply Permutation_in; [apply move_update_ids|]. rewrite <- Huid. now apply in_map. }
  destruct Hids as [Heq|Hd]; [now apply Hid|].
  apply in_map_iff in Hd as (y & Hy & Hyin).
  apply destTasks_In in Hyin as (Hyin & Hys & _).
  apply Hs. rewrite <- Hys. f_equal. now apply (NoDup_ids_inj tasks).
Qed.

End Move.

Lemma maxOrder_fold_ge (l : list Task) (a : Z) :
  (a <= fold_left (fun m curr => Z.max m (orderOf curr)) l a)%Z /\
  forall t, In t l -> (orderOf t <= fold_left (fun m curr => Z.max m (orderOf curr)) l a)%Z.
Proof.
  revert a; induction l as [|x rest IH]; intros a; cbn; [split; [lia|easy]|].
  destruct (IH (Z.max a (orderOf x))) as [Hge Hall]. split; [lia|].
  intros t [->|Hin]; [lia|now apply Hall].
Qed.

Lemma insertByOrder_sorted (t : Task) (l : list Task) :
  byOrder l -> byOrder (insertByOrder t l).
Proof.
  unfold byOrder. induction l as [|x rest IH]; cbn; intros Hs.
  - constructor; [constructor|constructor].
  - inversion Hs as [|? ? Hrest Hall]; subst.
    destruct (Z.leb (orderOf t) (orderOf x)) eqn:Hle.
    + apply Z.leb_le in Hle. constructor; [exact Hs|].
      constructor; [exact Hle|].
      eapply Forall_impl; [|exact Hall]. cbn. intros; lia.
    + apply Z.leb_gt in Hle. constructor; [now apply IH|].
      eapply Permutation_Forall; [symmetry; apply insertByOrder_perm|].
      constructor; [lia|exact Hall].
Qed.

Lemma sortByOrder_sorted (l : list Task) : byOrder (sortByOrder l).
Proof.
  induction l as [|x rest IH]; cbn; [constructor|now apply insertByOrder_sorted].
Qed.

Lemma place_landing (i : option Z) (t : Task) (l : list Task) :
  nth_error (place i t l) (landing i (length l)) = Some t /\
  without (landing i (length l)) (place i t l) = l.
Proof.
  assert (Hlast : nth_error (l ++ [t]) (length l) = Some t /\
                  without (length l) (l ++ [t]) = l).
  { unfold without. split.
    - rewrite nth_error_app2, Nat.sub_diag by lia. reflexivity.
    - rewrite firstn_app, Nat.sub_diag, firstn_all, firstn_O, app_nil_r.
      rewrite skipn_all2 by (rewrite length_app; cbn; lia). apply app_nil_r. }
  unfold place, landing. destruct i as [z|]; [|exact Hlast].
  destruct (Z.leb 0 z && Z.leb z (Z.of_nat (length l))) eqn:Hz; [|exact Hlast].
  apply andb_true_iff in Hz as [H0 Hn]. apply Z.leb_le in H0, Hn.
  assert (Hk : (Z.to_nat z <= length l)%nat) by lia.
  set (k := Z.to_nat z) in *. clearbody k.
  assert (Hlen : length (firstn k l) = k) by (rewrite length_firstn; lia).
  unfold without. split.
  - rewrite nth_error_app2 by lia. rewrite Hlen, Nat.sub_diag. reflexivity.
  - rewrite firstn_app, Hlen, Nat.sub_diag, firstn_firstn, Nat.min_id, firstn_O, app_nil_r.
    rewrite skipn_app, Hlen.
    rewrite (skipn_all2 (firstn k l)) by lia.
    replace (S k - k)%nat with 1%nat by lia. cbn [skipn app].
    apply firstn_skipn.
Qed.

Lemma renumberFrom_without (k : nat) (l : list Task) :
  map t_id (without k (renumberFrom 0 l)) = map t_id (without k l).
Proof.
  unfold without. rewrite !map_app, <- !firstn_map, <- !skipn_map.
  now rewrite renumberFrom_ids.
Qed.

Lemma moved_statuses (tasks : list Task) (taskId : string) (s : TaskStatus)
  (i : option Z) (task : Task) :
  Forall (fun u => t_status u = s)
    (renumberFrom 0 (place i (withStatus s task) (sortByOrder (destTasks tasks taskId s)))).
Proof.
  apply Forall_forall. intros u Hu.
  apply (in_map t_status) in Hu. rewrite renumberFrom_status in Hu.
  apply in_map_iff in Hu as (x & <- & Hx).
  eapply Permutation_in in Hx; [|apply placed_perm].
  destruct Hx as [<-|Hx]; [reflexivity|].
  now apply destTasks_In in Hx.
Qed.

Lemma maxOrder_fold_le (l : list Task) (a bound : Z) :
  (a <= bound)%Z -> (forall t, In t l -> (orderOf t <= bound)%Z) ->
  (fold_left (fun m curr => Z.max m (orderOf curr)) l a <= bound)%Z.
Proof.
  revert a; induction l as [|x rest IH]; intros a Ha Hall; cbn; [exact Ha|].
  apply IH.
  - specialize (Hall x (or_introl eq_refl)). lia.
  - intros t Ht. apply Hall. now right.
Qed.

(** An integer from 0 to 2^53 is a number as it stands. *)
Lemma toNumber_exact (z : Z) : (0 <= z <= 2 ^ 53)%Z -> toNumber z = z.
Proof.
  intros Hz. unfold toNumber. rewrite Z.abs_eq by lia.
  destruct (Z.ltb z (2 ^ 53)) eqn:Hlt; [reflexivity|].
  apply Z.ltb_ge in Hlt. assert (Heq : z = (2 ^ 53)%Z) by lia.
  subst z. reflexivity.
Qed.

Lemma column_In (tasks : list Task) (t task : Task) :
  In task (filter (fun x => String.eqb (t_status x) (t_status t) &&
                            String.eqb (t_projectId x) (t_projectId t)) tasks)
  <-> In task tasks /\ t_status task = t_status t /\ t_projectId task = t_projectId t.
Proof. rewrite filter_In, andb_true_iff, !String.eqb_eq. reflexivity. Qed.

(** X17: [addTask] inserts the task at the bottom of its column, as long as
    the orders of the column are below 2^53: the row keeps the task's own
    data and status, and the order it writes is at least 0, above the order
    of every task of the same status and project, and 0 when that column
    is empty.  An order is a number of the language: in a column whose
    largest order is 2^53 the order written is 2^53 again, not above it. *)
Theorem addTask_orders_after_column (tasks : list Task) (t : Task) :
  ((forall task, In task tasks -> t_status task = t_status t ->
                 t_projectId task = t_projectId t -> (orderOf task < 2 ^ 53)%Z) ->
   exists o, t_order (addTask tasks t) = Some o /\ (0 <= o)%Z /\
     t_status (addTask tasks t) = t_status t /\ sameCard t (addTask tasks t) /\
     (forall task, In task tasks -> t_status task = t_status t ->
                   t_projectId task = t_projectId t -> (orderOf task < o)%Z) /\
     ((forall task, In task tasks ->
                    t_status task <> t_status t \/ t_projectId task <> t_projectId t) ->
      o = 0%Z)) /\
  ((forall task, In task tasks -> t_status task = t_status t ->
                 t_projectId task = t_projectId t -> (orderOf task <= 2 ^ 53)%Z) ->
   (exists task, In task tasks /\ t_status task = t_status t /\
                 t_projectId task = t_projectId t /\ orderOf task = (2 ^ 53)%Z) ->
   t_order (addTask tasks t) = Some (2 ^ 53)%Z).
Proof.
  unfold addTask, maxOrder, numberPlus.
  set (col := filter _ tasks).
  destruct (maxOrder_fold_ge col (-1)) as [Hge Hall].
  split.
  - intros Hsafe.
    assert (Hle : (fold_left (fun m curr => Z.max m (orderOf curr)) col (-1)
                   <= 2 ^ 53 - 1)%Z).
    { apply maxOrder_fold_le; [vm_compute; discriminate|]. intros task Hc.
      apply column_In in Hc. destruct Hc as (Hin & Hs & Hp).
      specialize (Hsafe task Hin Hs Hp). lia. }
    exists (fold_left (fun m curr => Z.max m (orderOf curr)) col (-1) + 1)%Z.
    split; [cbn [t_order withOrder]; rewrite toNumber_exact by lia; reflexivity|].
    split; [lia|]. split; [reflexivity|].
    split; [now repeat split|]. split.
    + intros task Hin Hs Hp.
      assert (Hc : In task col) by (apply column_In; auto).
      specialize (Hall task Hc). lia.
    + intros Hnone.
      assert (Hc : col = []).
      { destruct col as [|x rest] eqn:Hcol; [reflexivity|exfalso].
        assert (Hx : In x col) by (rewrite Hcol; now left).
        apply column_In in Hx. destruct Hx as (Hx & Hs & Hp).
        destruct (Hnone x Hx); contradiction. }
      rewrite Hc. reflexivity.
  - intros Hbound (task & Hin & Hs & Hp & Htop).
    assert (Hle : (fold_left (fun m curr => Z.max m (orderOf curr)) col (-1) <= 2 ^ 53)%Z).
    { apply maxOrder_fold_le; [vm_compute; discriminate|]. intros x Hc.
      apply column_In in Hc. destruct Hc as (Hx & Hxs & Hxp). auto. }
    assert (Hc : In task col) by (apply column_In; auto).
    specialize (Hall task Hc).
    assert (Hmax : fold_left (fun m curr => Z.max m (orderOf curr)) col (-1)%Z
                   = (2 ^ 53)%Z) by lia.
    cbn [t_order withOrder]. rewrite Hmax. reflexivity.
Qed.

Lemma addTask_orders_after_column_witness :
  (forall task, In task board -> t_status task = "TODO" ->
                t_projectId task = "p-1" -> (orderOf task < 2 ^ 53)%Z) /\
  (exists o, t_order (addTask board (card "t-n" "TODO" None 55)) = Some o /\ (0 <= o)%Z /\
     t_status (addTask board (card "t-n" "TODO" None 55)) = "TODO" /\
     sameCard (card "t-n" "TODO" None 55) (addTask board (card "t-n" "TODO" None 55)) /\
     (forall task, In task board -> t_status task = "TODO" ->
                   t_projectId task = "p-1" -> (orderOf task < o)%Z) /\
     ((forall task, In task board -> t_status task <> "TODO" \/ t_projectId task <> "p-1") ->
      o = 0%Z)) /\
  t_order (addTask [card "t-z" "TODO" None (2 ^ 53)] (card "t-n" "TODO" None 55))
    = Some (2 ^ 53)%Z.
Proof.
  assert (Hsafe : forall task, In task board -> t_status task = "TODO" ->
                    t_projectId task = "p-1" -> (orderOf task < 2 ^ 53)%Z).
  { intros task [<-|[<-|[<-|[<-|[]]]]] _ _; reflexivity. }
  split; [exact Hsafe|]. split.
  - exact (proj1 (addTask_orders_after_column board (card "t-n" "TODO" None 55)) Hsafe).
  - apply (proj2 (addTask_orders_after_column [card "t-z" "TODO" None (2 ^ 53)]
                    (card "t-n" "TODO" None 55))).
    + intros task [<-|[]] _ _. vm_compute. discriminate.
    + exists (card "t-z" "TODO" None (2 ^ 53)).
      split; [left; reflexivity|]. split; [reflexivity|]. split; reflexivity.
Defined.

(** X18: [moveTask] does nothing exactly when no task of the board has the
    given id. *)
Theorem moveTask_unknown_task (me : option UserId) (tasks : list Task)
  (taskId : string) (s : TaskStatus) (i : option Z) :
  moveTask me tasks taskId s i = None <-> ~ In taskId (map t_id tasks).
Proof.
  rewrite <- find_id_None. unfold moveTask.
  destruct (find _ tasks); split; intros H; congruence.
Qed.

(** X19: The rows [moveTask] persists are the destination column with the
    dragged task: one row more than the other tasks of that column, the
    same ids, every row with the destination status, and the orders
    0, 1, 2, ... in list order. *)
Theorem moveTask_renumbers_column (me : option UserId) (tasks : list Task)
  (taskId : string) (s : TaskStatus) (i : option Z) (m : Moved) :
  moveTask me tasks taskId s i = Some m ->
  length (updates m) = S (length (destTasks tasks taskId s)) /\
  map t_order (updates m) = dense (length (updates m)) /\
  Forall (fun u => t_status u = s) (updates m) /\
  Permutation (map t_id (updates m)) (taskId :: map t_id (destTasks tasks taskId s)).
Proof.
  intros Hmove.
  destruct (find (fun t => String.eqb (t_id t) taskId) tasks) as [task|] eqn:Hfind;
    [|unfold moveTask in Hmove; rewrite Hfind in Hmove; discriminate].
  pose proof (move_updates _ _ _ _ _ _ _ Hfind Hmove) as Hups.
  pose proof (move_update_ids _ _ _ _ _ _ _ Hfind Hmove) as Hids.
  split; [|split; [|split]].
  - apply Permutation_length in Hids. cbn [length] in Hids.
    now rewrite !length_map in Hids.
  - exact (move_orders _ _ _ _ _ _ _ Hfind Hmove).
  - rewrite Hups. apply moved_statuses.
  - exact Hids.
Qed.

Lemma moveTask_renumbers_column_witness :
  exists m, moveTask (Some "bob") board "t-c" "TODO" (Some 1%Z) = Some m /\
    length (updates m) = 3%nat /\
    map t_order (updates m) = dense (length (updates m)) /\
    Forall (fun u => t_status u = "TODO") (updates m) /\
    Permutation (map t_id (updates m)) ["t-c"; "t-a"; "t-b"].
Proof.
  eexists. split; [reflexivity|].
  exact (moveTask_renumbers_column (Some "bob") board "t-c" "TODO" (Some 1%Z) _ eq_refl).
Defined.

(** X20: Where the dragged task lands: at the given index when it lies
    between 0 and the number of other tasks of the destination column, and
    at the end otherwise; it has the destination status and its index as
    order.  The other tasks of the column keep the sequence their previous
    orders give them. *)
Theorem moveTask_places_task (me : option UserId) (tasks : list Task)
  (taskId : string) (s : TaskStatus) (i : option Z) (task : Task) (m : Moved) :
  find (fun t => String.eqb (t_id t) taskId) tasks = Some task ->
  moveTask me tasks taskId s i = Some m ->
  let k := landing i (length (destTasks tasks taskId s)) in
  nth_error (updates m) k = Some (withOrder (Z.of_nat k) (withStatus s task)) /\
  exists others,
    Permutation others (destTasks tasks taskId s) /\ byOrder others /\
    map t_id (without k (updates m)) = map t_id others.
Proof.
  intros Hfind Hmove k.
  rewrite (move_updates _ _ _ _ _ _ _ Hfind Hmove).
  assert (Hlen : length (sortByOrder (destTasks tasks taskId s))
                 = length (destTasks tasks taskId s))
    by (apply Permutation_length, sortByOrder_perm).
  destruct (place_landing i (withStatus s task) (sortByOrder (destTasks tasks taskId s)))
    as [Hnth Hwo].
  rewrite Hlen in Hnth, Hwo. fold k in Hnth, Hwo.
  split.
  - rewrite renumberFrom_nth, Hnth. reflexivity.
  - exists (sortByOrder (destTasks tasks taskId s)).
    split; [apply sortByOrder_perm|]. split; [apply sortByOrder_sorted|].
    now rewrite renumberFrom_without, Hwo.
Qed.

Lemma moveTask_places_task_witness :
  exists m, moveTask (Some "bob") board "t-c" "TODO" (Some 1%Z) = Some m /\
  nth_error (updates m) 1 = Some (card "t-c" "TODO" (Some "carol") 1) /\
  exists others,
    Permutation others (destTasks board "t-c" "TODO") /\ byOrder others /\
    map t_id (without 1 (updates m)) = map t_id others.
Proof.
  eexists. split; [reflexivity|].
  exact (moveTask_places_task (Some "bob") board "t-c" "TODO" (Some 1%Z)
           (card "t-c" "DONE" (Some "carol") 0) _ eq_refl eq_refl).
Defined.

(** X21: With unique task ids, a move leaves the board as it is apart from
    status and order: every position holds the task it held (same id,
    project, title, assignee and other data), and a task that is neither the
    dragged one nor of the destination column is untouched. *)
Theorem moveTask_changes_status_and_order_only (me : option UserId) (tasks : list Task)
  (taskId : string) (s : TaskStatus) (i : option Z) (m : Moved) :
  NoDup (map t_id tasks) ->
  moveTask me tasks taskId s i = Some m ->
  Forall2 sameCard tasks (newTasks m) /\
  forall k t, nth_error tasks k = Some t -> t_status t <> s -> t_id t <> taskId ->
              nth_error (newTasks m) k = Some t.
Proof.
  intros Hnd Hmove.
  destruct (find (fun t => String.eqb (t_id t) taskId) tasks) as [task|] eqn:Hfind;
    [|unfold moveTask in Hmove; rewrite Hfind in Hmove; discriminate].
  rewrite (move_newTasks _ _ _ _ _ _ _ Hfind Hmove).
  split.
  - assert (Hall : forall l, incl l tasks ->
      Forall2 sameCard l
        (map (fun t => match updateFor (updates m) (t_id t) with
                       | Some u => u
                       | None => if String.eqb (t_id t) taskId then withStatus s t else t
                       end) l)).
    { induction l as [|x rest IH]; cbn; intros Hincl; constructor.
      - assert (Hx : In x tasks) by (apply Hincl; now left).
        destruct (String.eqb (t_status x) s) eqn:Hs; [apply String.eqb_eq in Hs|];
          [|destruct (String.eqb (t_id x) taskId) eqn:Hid; [apply String.eqb_eq in Hid|]].
        + destruct (move_update_of _ _ _ _ _ _ _ Hfind Hmove Hnd x Hx (or_introl Hs))
            as (k & _ & ->). now repeat split.
        + destruct (move_update_of _ _ _ _ _ _ _ Hfind Hmove Hnd x Hx (or_intror Hid))
            as (k & _ & ->). now repeat split.
        + apply String.eqb_neq in Hs, Hid.
          rewrite (move_no_update _ _ _ _ _ _ _ Hfind Hmove Hnd x Hx Hs Hid).
          now repeat split.
      - apply IH. intros y Hy. apply Hincl. now right. }
    apply Hall, incl_refl.
  - intros k t Hk Hs Hid.
    rewrite nth_error_map, Hk. cbn.
    rewrite (move_no_update _ _ _ _ _ _ _ Hfind Hmove Hnd t (nth_error_In _ _ Hk) Hs Hid).
    apply String.eqb_neq in Hid. now rewrite Hid.
Qed.

Lemma moveTask_changes_status_and_order_only_witness :
  exists m, moveTask (Some "bob") board "t-c" "TODO" (Some 1%Z) = Some m /\
  Forall2 sameCard board (newTasks m) /\
  forall k t, nth_error board k = Some t -> t_status t <> "TODO" -> t_id t <> "t-c" ->
              nth_error (newTasks m) k = Some t.
Proof.
  eexists. split; [reflexivity|].
  apply (moveTask_changes_status_and_order_only (Some "bob") board "t-c" "TODO" (Some 1%Z));
    [|reflexivity].
  repeat constructor; cbn; intuition discriminate.
Defined.


Lemma move_column_perm (me : option UserId) (tasks : list Task) (taskId : string)
  (s : TaskStatus) (i : option Z) (task : Task) (m : Moved) :
  find (fun t => String.eqb (t_id t) taskId) tasks = Some task ->
  moveTask me tasks taskId s i = Some m ->
  NoDup (map t_id tasks) ->
  Permutation (column s (newTasks m)) (updates m).
Proof.
  intros Hfind Hmove Hnd.
  destruct (find_id_Some _ _ _ Hfind) as [Htin Htid].
  pose proof (move_updates_NoDup _ _ _ _ _ _ _ Hfind Hmove Hnd) as Hund.
  pose proof (move_ids _ _ _ _ _ _ _ Hfind Hmove) as Hids.
  apply NoDup_Permutation.
  - apply (NoDup_map_inv t_id). unfold column. apply filter_unique_ids. now rewrite Hids.
  - now apply (NoDup_map_inv t_id).
  - intros x. unfold column. rewrite filter_In, String.eqb_eq.
    rewrite (move_newTasks _ _ _ _ _ _ _ Hfind Hmove), in_map_iff.
    split.
    + intros [(t & Hx & Ht) Hs].
      destruct (updateFor (updates m) (t_id t)) as [u|] eqn:Hu.
      * subst x. now apply updateFor_Some in Hu.
      * destruct (String.eqb (t_id t) taskId) eqn:Hid.
        -- apply String.eqb_eq in Hid.
           destruct (move_update_of _ _ _ _ _ _ _ Hfind Hmove Hnd t Ht (or_intror Hid))
             as (k & _ & Hk). congruence.
        -- subst x.
           destruct (move_update_of _ _ _ _ _ _ _ Hfind Hmove Hnd t Ht (or_introl Hs))
             as (k & _ & Hk). congruence.
    + intros Hx.
      assert (Hs : t_status x = s).
      { pose proof (moved_statuses tasks taskId s i task) as Hall.
        rewrite <- (move_updates _ _ _ _ _ _ _ Hfind Hmove) in Hall.
        now apply (proj1 (Forall_forall _ _) Hall). }
      split; [|exact Hs].
      assert (Hidx : In (t_id x) (taskId :: map t_id (destTasks tasks taskId s))).
      { eapply Permutation_in; [apply (move_update_ids _ _ _ _ _ _ _ Hfind Hmove)|].
        now apply in_map. }
      assert (Ht : exists t, In t tasks /\ t_id t = t_id x /\
                             (t_status t = s \/ t_id t = taskId)).
      { destruct Hidx as [Heq|Hd].
        - exists task. split; [easy|]. split; [congruence|now right].
        - apply in_map_iff in Hd as (y & Hy & Hyin).
          apply destTasks_In in Hyin as (Hyin & Hys & _).
          exists y. split; [easy|]. split; [easy|now left]. }
      destruct Ht as (t & Ht & Hid & Hcase).
      exists t. split; [|exact Ht].
      destruct (move_update_of _ _ _ _ _ _ _ Hfind Hmove Hnd t Ht Hcase) as (k & _ & Hk).
      rewrite Hk. pose proof Hk as Hk'. apply updateFor_Some in Hk' as [Hkin Hkid].
      apply (NoDup_ids_inj (updates m)); auto; congruence.
Qed.

(** Uniqueness of the sorted arrangement when no two orders are equal. *)
Lemma sorted_perm_eq (l1 l2 : list Task) :
  byOrder l1 -> byStrictOrder l2 -> Permutation l1 l2 -> l1 = l2.
Proof.
  unfold byOrder, byStrictOrder.
  revert l2; induction l1 as [|a r1 IH]; intros l2 H1 H2 Hp.
  - apply Permutation_nil in Hp. now subst.
  - destruct l2 as [|b r2]; [apply Permutation_sym, Permutation_nil in Hp; discriminate|].
    inversion H1 as [|? ? Hs1 Ha]; inversion H2 as [|? ? Hs2 Hb]; subst.
    assert (Hab : a = b).
    { assert (Hin_a : In a (b :: r2)) by (eapply Permutation_in; [exact Hp|now left]).
      assert (Hin_b : In b (a :: r1))
        by (eapply Permutation_in; [symmetry; exact Hp|now left]).
      destruct Hin_a as [Heq|Hin_a]; [easy|].
      destruct Hin_b as [Heq|Hin_b]; [easy|].
      pose proof (proj1 (Forall_forall _ _) Hb a Hin_a) as Hlt.
      pose proof (proj1 (Forall_forall _ _) Ha b Hin_b) as Hle.
      cbn beta in Hlt, Hle. lia. }
    subst b. f_equal. apply IH; auto. now apply Permutation_cons_inv in Hp.
Qed.

Lemma without_incl {A : Type} (k : nat) (l : list A) : incl (without k l) l.
Proof.
  unfold without. intros x Hx. apply in_app_or in Hx as [Hx|Hx].
  - rewrite <- (firstn_skipn k l). apply in_or_app. now left.
  - rewrite <- (firstn_skipn (S k) l). apply in_or_app. now right.
Qed.

Lemma without_cons {A : Type} (k : nat) (x : A) (l : list A) :
  without (S k) (x :: l) = x :: without k l.
Proof. reflexivity. Qed.

Lemma without_sorted {A : Type} (R : A -> A -> Prop) (k : nat) (l : list A) :
  StronglySorted R l -> StronglySorted R (without k l).
Proof.
  revert k; induction l as [|x rest IH]; intros k Hs.
  - unfold without. rewrite firstn_nil, skipn_nil. constructor.
  - inversion Hs as [|? ? Hrest Hall]; subst. destruct k as [|k].
    + exact Hrest.
    + rewrite without_cons. constructor; [now apply IH|].
      apply Forall_forall. intros y Hy.
      apply (proj1 (Forall_forall _ _) Hall). now apply without_incl in Hy.
Qed.

Lemma nth_error_split_without {A : Type} (k : nat) (l : list A) (t : A) :
  nth_error l k = Some t ->
  l = firstn k l ++ t :: skipn (S k) l /\ length (firstn k l) = k.
Proof.
  revert k; induction l as [|x rest IH]; intros [|k] H; cbn in *; try discriminate.
  - injection H as ->. now split.
  - destruct (IH k H) as [Heq Hlen]. split; [now rewrite <- Heq|now rewrite Hlen].
Qed.

Lemma app_eq_length {A : Type} (a b c d : list A) :
  length a = length c -> a ++ b = c ++ d -> a = c /\ b = d.
Proof.
  revert c; induction a as [|x a IH]; intros [|y c] Hlen Heq; cbn in *; try discriminate.
  - now split.
  - injection Heq as -> Heq. injection Hlen as Hlen.
    destruct (IH c Hlen Heq) as [-> ->]. now split.
Qed.

Lemma without_inj {A : Type} (k : nat) (l1 l2 : list A) (t : A) :
  nth_error l1 k = Some t -> nth_error l2 k = Some t ->
  without k l1 = without k l2 -> l1 = l2.
Proof.
  intros H1 H2 Hw. unfold without in Hw.
  destruct (nth_error_split_without k l1 t H1) as [E1 L1].
  destruct (nth_error_split_without k l2 t H2) as [E2 L2].
  apply app_eq_length in Hw as [Ha Hb]; [|congruence].
  rewrite E1, E2. now rewrite Ha, Hb.
Qed.


Lemma find_map_ids (f : Task -> Task) (taskId : string) (l : list Task) :
  (forall t, t_id (f t) = t_id t) ->
  find (fun t => String.eqb (t_id t) taskId) (map f l)
  = option_map f (find (fun t => String.eqb (t_id t) taskId) l).
Proof.
  intros Hf. induction l as [|x rest IH]; cbn; [reflexivity|].
  rewrite Hf. now destruct (String.eqb (t_id x) taskId).
Qed.

Lemma renumberFrom_fixed (i : nat) (l : list Task) :
  map t_order l = map (fun k => Some (Z.of_nat k)) (seq i (length l)) ->
  renumberFrom i l = l.
Proof.
  revert i; induction l as [|x rest IH]; intros i H; cbn in *; [reflexivity|].
  injection H as Hx Hrest. rewrite (IH _ Hrest). f_equal.
  destruct x; cbn in *. unfold withOrder; cbn. now rewrite Hx.
Qed.

Lemma renumberFrom_strict (i : nat) (l : list Task) :
  byStrictOrder (renumberFrom i l) /\
  Forall (fun u => (Z.of_nat i <= orderOf u)%Z) (renumberFrom i l).
Proof.
  unfold byStrictOrder.
  revert i; induction l as [|x rest IH]; intros i; cbn; [split; constructor|].
  destruct (IH (S i)) as [Hs Hall]. split.
  - constructor; [exact Hs|].
    eapply Forall_impl; [|exact Hall]. cbn. intros; lia.
  - constructor; [cbn; lia|].
    eapply Forall_impl; [|exact Hall]. cbn. intros; lia.
Qed.

Lemma without_In_ids (l : list Task) (k : nat) (t x : Task) :
  NoDup (map t_id l) -> nth_error l k = Some t ->
  NoDup (map t_id (without k l)) /\
  S (length (without k l)) = length l /\
  (In x (without k l) <-> In x l /\ t_id x <> t_id t).
Proof.
  intros Hnd Hk. destruct (nth_error_split_without k l t Hk) as [Hl _].
  unfold without.
  remember (firstn k l) as F. remember (skipn (S k) l) as R.
  clear HeqF HeqR. subst l.
  rewrite map_app in Hnd. cbn [map] in Hnd.
  pose proof (NoDup_remove_1 _ _ _ Hnd) as Hnd1.
  pose proof (NoDup_remove_2 _ _ _ Hnd) as Hnot.
  rewrite <- map_app in Hnd1, Hnot.
  split; [exact Hnd1|]. split; [rewrite !length_app; cbn; lia|].
  rewrite !in_app_iff. cbn [In]. split.
  - intros Hx. split; [tauto|].
    intros Heq. apply Hnot. rewrite <- Heq. apply in_map, in_app_iff. exact Hx.
  - intros [[Hx|[<-|Hx]] Hne]; tauto.
Qed.

Section MoveLands.

Variables (me : option UserId) (tasks : list Task) (taskId : string)
  (s : TaskStatus) (i : option Z) (task : Task) (m : Moved).
Hypothesis Hfind : find (fun t => String.eqb (t_id t) taskId) tasks = Some task.
Hypothesis Hmove : moveTask me tasks taskId s i = Some m.

Lemma move_lands :
  nth_error (updates m) (landing i (length (destTasks tasks taskId s)))
  = Some (withOrder (Z.of_nat (landing i (length (destTasks tasks taskId s))))
                    (withStatus s task)) /\
  map t_id (without (landing i (length (destTasks tasks taskId s))) (updates m))
  = map t_id (sortByOrder (destTasks tasks taskId s)).
Proof.
  rewrite (move_updates _ _ _ _ _ _ _ Hfind Hmove).
  assert (Hlen : length (sortByOrder (destTasks tasks taskId s))
                 = length (destTasks tasks taskId s))
    by (apply Permutation_length, sortByOrder_perm).
  destruct (place_landing i (withStatus s task) (sortByOrder (destTasks tasks taskId s)))
    as [Hnth Hwo].
  rewrite Hlen in Hnth, Hwo.
  split.
  - rewrite renumberFrom_nth, Hnth. reflexivity.
  - now rewrite renumberFrom_without, Hwo.
Qed.

Lemma move_length : length (updates m) = S (length (destTasks tasks taskId s)).
Proof.
  pose proof (move_update_ids _ _ _ _ _ _ _ Hfind Hmove) as Hids.
  apply Permutation_length in Hids. cbn [length] in Hids.
  now rewrite !length_map in Hids.
Qed.

End MoveLands.


(** X22: With unique task ids, the destination column of the new board is
    the list of persisted rows: after a move the tasks of that column carry
    the orders 0, 1, 2, ... without gap or repetition. *)
Theorem moveTask_column_is_updates (me : option UserId) (tasks : list Task)
  (taskId : string) (s : TaskStatus) (i : option Z) (m : Moved) :
  NoDup (map t_id tasks) ->
  moveTask me tasks taskId s i = Some m ->
  Permutation (column s (newTasks m)) (updates m) /\
  Permutation (map t_order (column s (newTasks m)))
              (dense (length (column s (newTasks m)))).
Proof.
  intros Hnd Hmove.
  destruct (find (fun t => String.eqb (t_id t) taskId) tasks) as [task|] eqn:Hfind;
    [|unfold moveTask in Hmove; rewrite Hfind in Hmove; discriminate].
  pose proof (move_column_perm _ _ _ _ _ _ _ Hfind Hmove Hnd) as Hperm.
  split; [exact Hperm|].
  rewrite (Permutation_length Hperm).
  rewrite (Permutation_map t_order Hperm).
  now rewrite (move_orders _ _ _ _ _ _ _ Hfind Hmove).
Qed.

Lemma moveTask_column_is_updates_witness :
  exists m, moveTask (Some "bob") board "t-c" "TODO" (Some 1%Z) = Some m /\
  Permutation (column "TODO" (newTasks m)) (updates m) /\
  Permutation (map t_order (column "TODO" (newTasks m)))
              (dense (length (column "TODO" (newTasks m)))).
Proof.
  eexists. split; [reflexivity|].
  apply (moveTask_column_is_updates (Some "bob") board "t-c" "TODO" (Some 1%Z));
    [|reflexivity].
  repeat constructor; cbn; intuition discriminate.
Defined.

(** X23: Who hears of a move: a notification row is written exactly when
    the status changes, the task has a non-empty assignee and the assignee
    is not the user who moves the task; it goes to the assignee, names the
    mover as sender and links to the task. *)
Theorem moveTask_notifies_assignee (me : option UserId) (tasks : list Task)
  (taskId : string) (s : TaskStatus) (i : option Z) (task : Task) (m : Moved) :
  find (fun t => String.eqb (t_id t) taskId) tasks = Some task ->
  moveTask me tasks taskId s i = Some m ->
  (forall n, notification m = Some n ->
     t_status task <> s /\ t_assigneeId task = Some (tn_recipient_id n) /\
     tn_recipient_id n <> "" /\ me <> Some (tn_recipient_id n) /\
     tn_sender_id n = me /\ tn_link_to n = taskId) /\
  (forall a, t_status task <> s -> t_assigneeId task = Some a -> a <> "" ->
             me <> Some a ->
     exists n, notification m = Some n /\ tn_recipient_id n = a).
Proof.
  intros Hfind Hmove.
  destruct (find_id_Some _ _ _ Hfind) as [_ Htid].
  unfold moveTask in Hmove. rewrite Hfind in Hmove. injection Hmove as <-.
  cbn [notification]. unfold triggerNotification, truthy. split.
  - intros n Hn.
    destruct (t_assigneeId task) as [a|]; [|discriminate].
    destruct (String.eqb (t_status task) s) eqn:Hs; [discriminate|].
    destruct (String.eqb a "") eqn:Ha; [discriminate|].
    apply String.eqb_neq in Hs, Ha. cbn in Hn.
    destruct me as [u|].
    + destruct (String.eqb a u) eqn:Hu; [discriminate|].
      apply String.eqb_neq in Hu. injection Hn as <-. cbn.
      repeat split; auto. congruence.
    + injection Hn as <-. cbn. repeat split; auto. discriminate.
  - intros a Hs Ha Hne Hme.
    apply String.eqb_neq in Hs, Hne. rewrite Ha, Hs, Hne. cbn.
    destruct me as [u|].
    + assert (Hu : String.eqb a u = false) by (apply String.eqb_neq; congruence).
      rewrite Hu. eexists. split; reflexivity.
    + eexists. split; reflexivity.
Qed.

Lemma moveTask_notifies_assignee_witness :
  exists m, moveTask (Some "bob") board "t-c" "TODO" (Some 1%Z) = Some m /\
  (forall n, notification m = Some n ->
     "DONE" <> "TODO" /\ Some "carol" = Some (tn_recipient_id n) /\
     tn_recipient_id n <> "" /\ Some "bob" <> Some (tn_recipient_id n) /\
     tn_sender_id n = Some "bob" /\ tn_link_to n = "t-c") /\
  (forall a, "DONE" <> "TODO" -> Some "carol" = Some a -> a <> "" ->
             Some "bob" <> Some a ->
     exists n, notification m = Some n /\ tn_recipient_id n = a).
Proof.
  eexists. split; [reflexivity|].
  exact (moveTask_notifies_assignee (Some "bob") board "t-c" "TODO" (Some 1%Z)
           (card "t-c" "DONE" (Some "carol") 0) _ eq_refl eq_refl).
Defined.

(** X24: Dropping a task where it already lies changes nothing: with
    unique task ids, the same move applied to the board a move produced
    gives that board again, persists the same rows and notifies nobody. *)
Theorem moveTask_again_changes_nothing (me : option UserId) (tasks : list Task)
  (taskId : string) (s : TaskStatus) (i : option Z) (m : Moved) :
  NoDup (map t_id tasks) ->
  moveTask me tasks taskId s i = Some m ->
  moveTask me (newTasks m) taskId s i = Some (mkMoved (newTasks m) (updates m) None).
Proof.
  intros Hnd Hmove.
  destruct (find (fun t => String.eqb (t_id t) taskId) tasks) as [task|] eqn:Hfind;
    [|unfold moveTask in Hmove; rewrite Hfind in Hmove; discriminate].
  destruct (find_id_Some _ _ _ Hfind) as [Htin Htid].
  pose proof (move_updates_NoDup _ _ _ _ _ _ _ Hfind Hmove Hnd) as Hund.
  pose proof (move_ids _ _ _ _ _ _ _ Hfind Hmove) as Hids.
  pose proof (move_column_perm _ _ _ _ _ _ _ Hfind Hmove Hnd) as Hcol.
  pose proof (move_length _ _ _ _ _ _ _ Hfind Hmove) as Hlen.
  destruct (move_lands _ _ _ _ _ _ _ Hfind Hmove) as [Hnth _].
  set (k := landing i (length (destTasks tasks taskId s))) in *.
  set (tk := withOrder (Z.of_nat k) (withStatus s task)) in *.
  assert (Htkid : t_id tk = taskId) by exact Htid.
  assert (Hnd' : NoDup (map t_id (newTasks m))) by now rewrite Hids.
  (* the dragged task on the new board *)
  assert (Hupd : updateFor (updates m) taskId = Some tk).
  { rewrite <- Htkid. apply updateFor_unique; [exact Hund|].
    eapply nth_error_In; eauto. }
  assert (Hfind' : find (fun t => String.eqb (t_id t) taskId) (newTasks m) = Some tk).
  { rewrite (move_newTasks _ _ _ _ _ _ _ Hfind Hmove), find_map_ids.
    - rewrite Hfind. cbn. now rewrite Htid, Hupd.
    - intros t. destruct (updateFor (updates m) (t_id t)) as [u|] eqn:Hu.
      + now apply updateFor_Some in Hu.
      + now destruct (String.eqb (t_id t) taskId). }
  (* the other tasks of the column, sorted, are the rows without the dragged one *)
  destruct (without_In_ids (updates m) k tk tk Hund Hnth) as (Hwnd & Hwlen & _).
  assert (Hsort : sortByOrder (destTasks (newTasks m) taskId s) = without k (updates m)).
  { apply sorted_perm_eq.
    - apply sortByOrder_sorted.
    - apply without_sorted. rewrite (move_updates _ _ _ _ _ _ _ Hfind Hmove).
      apply renumberFrom_strict.
    - rewrite sortByOrder_perm. apply NoDup_Permutation.
      + apply (NoDup_map_inv t_id). unfold destTasks. now apply filter_unique_ids.
      + now apply (NoDup_map_inv t_id).
      + intros x.
        destruct (without_In_ids (updates m) k tk x Hund Hnth) as (_ & _ & ->).
        rewrite destTasks_In, Htkid.
        assert (Hiff : In x (updates m) <-> In x (newTasks m) /\ t_status x = s).
        { split.
          - intros Hx. apply (Permutation_in _ (Permutation_sym Hcol)) in Hx.
            unfold column in Hx. apply filter_In in Hx as [Hx Hs].
            now apply String.eqb_eq in Hs.
          - intros [Hx Hs]. apply (Permutation_in _ Hcol). unfold column.
            apply filter_In. split; [exact Hx|now apply String.eqb_eq]. }
        rewrite Hiff. tauto. }
  assert (Hk : landing i (length (without k (updates m))) = k)
    by (replace (length (without k (updates m)))
          with (length (destTasks tasks taskId s)) by lia; reflexivity).
  assert (Hplace : place i tk (without k (updates m)) = updates m).
  { destruct (place_landing i tk (without k (updates m))) as [Hp Hw].
    rewrite Hk in Hp, Hw. exact (without_inj k _ _ tk Hp Hnth Hw). }
  assert (Hre : renumberFrom 0 (updates m) = updates m).
  { apply renumberFrom_fixed. exact (move_orders _ _ _ _ _ _ _ Hfind Hmove). }
  unfold moveTask. rewrite Hfind'.
  change (withStatus s tk) with tk.
  rewrite Hsort, Hplace, Hre.
  f_equal. f_equal.
  - rewrite <- (map_id (newTasks m)) at 2. apply map_ext_in. intros t Ht.
    destruct (String.eqb (t_status t) s) eqn:Hs.
    + apply String.eqb_eq in Hs.
      assert (Hu : In t (updates m)).
      { apply (Permutation_in _ Hcol). unfold column. apply filter_In.
        split; [exact Ht|now apply String.eqb_eq]. }
      now rewrite (updateFor_unique _ _ Hund Hu).
    + apply String.eqb_neq in Hs.
      destruct (updateFor (updates m) (t_id t)) as [u|] eqn:Hu.
      * exfalso. apply updateFor_Some in Hu as [Hu Huid].
        apply (Permutation_in _ (Permutation_sym Hcol)) in Hu.
        unfold column in Hu. apply filter_In in Hu as [Hu Hus].
        apply String.eqb_eq in Hus.
        apply Hs. rewrite <- Hus. f_equal. now apply (NoDup_ids_inj (newTasks m)).
      * destruct (String.eqb (t_id t) taskId) eqn:Hid; [|reflexivity].
        exfalso. apply String.eqb_eq in Hid.
        apply find_id_Some in Hfind' as [Htkin _].
        apply Hs. replace t with tk; [reflexivity|].
        apply (NoDup_ids_inj (newTasks m)); auto. congruence.
  - change (t_status tk) with s. rewrite String.eqb_refl. cbn.
    now destruct (t_assigneeId task).
Qed.

Lemma moveTask_again_changes_nothing_witness :
  exists m, moveTask (Some "bob") board "t-c" "TODO" (Some 1%Z) = Some m /\
  moveTask (Some "bob") (newTasks m) "t-c" "TODO" (Some 1%Z)
  = Some (mkMoved (newTasks m) (updates m) None).
Proof.
  eexists. split; [reflexivity|].
  apply (moveTask_again_changes_nothing (Some "bob") board "t-c" "TODO" (Some 1%Z));
    [|reflexivity].
  repeat constructor; cbn; intuition discriminate.
Defined.


(** ** The realtime echo of a move *)

Lemma find_snoc {A : Type} (p : A -> bool) (l : list A) (x : A) :
  find p (l ++ [x]) = match find p l with
                      | Some y => Some y
                      | None => if p x then Some x else None
                      end.
Proof.
  induction l as [|a rest IH]; cbn; [reflexivity|].
  now destruct (p a).
Qed.

Lemma updateFor_cons (u : Task) (rest : list Task) (id : string) :
  updateFor (u :: rest) id = match updateFor rest id with
                             | Some x => Some x
                             | None => if String.eqb (t_id u) id then Some u else None
                             end.
Proof. unfold updateFor. cbn [rev]. exact (find_snoc _ (rev rest) u). Qed.

Lemma echoes_fold (ups : list Task) (board : list Task) :
  NoDup (map t_id ups) ->
  fold_left (fun b ev => onTaskChange ev b) (echoes ups) board
  = map (fun t => match updateFor ups (t_id t) with Some u => u | None => t end) board.
Proof.
  revert board; induction ups as [|u rest IH]; intros board Hnd.
  - cbn. symmetry. apply map_id.
  - inversion Hnd as [|? ? Hnot Hrest]; subst.
    cbn [echoes map fold_left onTaskChange]. fold (echoes rest).
    rewrite (IH _ Hrest), map_map. apply map_ext. intros t.
    rewrite updateFor_cons.
    destruct (String.eqb (t_id t) (t_id u)) eqn:He.
    + apply String.eqb_eq in He. rewrite He, String.eqb_refl.
      destruct (updateFor rest (t_id u)) as [x|] eqn:Hx; [|reflexivity].
      exfalso. apply updateFor_Some in Hx as [Hin Hid].
      apply Hnot. rewrite <- Hid. now apply in_map.
    + rewrite String.eqb_sym in He. rewrite He.
      now destruct (updateFor rest (t_id t)).
Qed.

(** X25: The optimistic board is the board the backend echoes produce:
    with unique task ids, applying to the old board the UPDATE event of
    every row a move persists, in the order they are written, gives the
    task list [moveTask] has set at once. *)
Theorem moveTask_agrees_with_realtime_echo (me : option UserId) (tasks : list Task)
  (taskId : string) (s : TaskStatus) (i : option Z) (m : Moved) :
  NoDup (map t_id tasks) ->
  moveTask me tasks taskId s i = Some m ->
  fold_left (fun b ev => onTaskChange ev b) (echoes (updates m)) tasks = newTasks m.
Proof.
  intros Hnd Hmove.
  destruct (find (fun t => String.eqb (t_id t) taskId) tasks) as [task|] eqn:Hfind;
    [|unfold moveTask in Hmove; rewrite Hfind in Hmove; discriminate].
  rewrite echoes_fold by exact (move_updates_NoDup _ _ _ _ _ _ _ Hfind Hmove Hnd).
  rewrite (move_newTasks _ _ _ _ _ _ _ Hfind Hmove).
  apply map_ext_in. intros t Ht.
  destruct (updateFor (updates m) (t_id t)) as [u|] eqn:Hu; [reflexivity|].
  destruct (String.eqb (t_id t) taskId) eqn:Hid; [|reflexivity].
  apply String.eqb_eq in Hid.
  destruct (move_update_of _ _ _ _ _ _ _ Hfind Hmove Hnd t Ht (or_intror Hid))
    as (k & _ & Hk). congruence.
Qed.

Lemma moveTask_agrees_with_realtime_echo_witness :
  exists m, moveTask (Some "bob") board "t-c" "TODO" (Some 1%Z) = Some m /\
  fold_left (fun b ev => onTaskChange ev b) (echoes (updates m)) board = newTasks m.
Proof.
  eexists. split; [reflexivity|].
  apply (moveTask_agrees_with_realtime_echo (Some "bob") board "t-c" "TODO" (Some 1%Z));
    [|reflexivity].
  repeat constructor; cbn; intuition discriminate.
Defined.

(** * Properties of the chat *)

Lemma ts_get_set_same (k : string) (v : Z) (ts : Timestamps) :
  ts_get (ts_set k v ts) k = Some v.
Proof.
  induction ts as [|[k' v'] rest IH]; cbn.
  - now rewrite String.eqb_refl.
  - destruct (String.eqb k' k) eqn:He; cbn; rewrite He; [reflexivity|exact IH].
Qed.

Lemma ts_get_set_other (k k2 : string) (v : Z) (ts : Timestamps) :
  k2 <> k -> ts_get (ts_set k v ts) k2 = ts_get ts k2.
Proof.
  intros Hne. induction ts as [|[k' v'] rest IH]; cbn.
  - assert (H : String.eqb k k2 = false) by (apply String.eqb_neq; congruence).
    now rewrite H.
  - destruct (String.eqb k' k) eqn:He; cbn.
    + apply String.eqb_eq in He. subst k'.
      assert (H : String.eqb k k2 = false) by (apply String.eqb_neq; congruence).
      now rewrite H.
    + now rewrite IH.
Qed.

Lemma filter_none {A : Type} (p : A -> bool) (l : list A) :
  (forall x, In x l -> p x = false) -> filter p l = [].
Proof.
  induction l as [|x rest IH]; cbn; intros H; [reflexivity|].
  rewrite (H x (or_introl eq_refl)). apply IH. intros y Hy. apply H. now right.
Qed.

Lemma setAdd_In (id x : string) (ids : list string) :
  In x (setAdd id ids) <-> In x ids \/ x = id.
Proof.
  unfold setAdd. destruct (includesId ids id) eqn:Hi.
  - apply includesId_In in Hi. split; [tauto|]. intros [H| ->]; assumption.
  - rewrite in_app_iff. cbn. intuition.
Qed.

Lemma setAdd_NoDup (id : string) (ids : list string) :
  NoDup ids -> NoDup (setAdd id ids).
Proof.
  intros Hnd. unfold setAdd. destruct (includesId ids id) eqn:Hi; [exact Hnd|].
  assert (Hnot : ~ In id ids).
  { intros Hin. apply includesId_In in Hin. congruence. }
  apply NoDup_app; [exact Hnd|repeat constructor; easy|].
  intros x Hx [<-|[]]. now apply Hnot.
Qed.

Lemma setAdd_prefix (id : string) (ids : list string) :
  exists more, setAdd id ids = ids ++ more.
Proof.
  unfold setAdd. destruct (includesId ids id).
  - exists []. now rewrite app_nil_r.
  - now exists [id].
Qed.

Section Hide.

Variable A : Type.
Variable key : A -> string.

Lemma hide_In (l : list A) (acc : list string) (x : string) :
  In x (fold_left (fun a m => setAdd (key m) a) l acc) <-> In x acc \/ In x (map key l).
Proof.
  revert acc; induction l as [|m rest IH]; intros acc; cbn; [tauto|].
  rewrite IH, setAdd_In. intuition.
Qed.

Lemma hide_NoDup (l : list A) (acc : list string) :
  NoDup acc -> NoDup (fold_left (fun a m => setAdd (key m) a) l acc).
Proof.
  revert acc; induction l as [|m rest IH]; intros acc Hnd; cbn; [exact Hnd|].
  now apply IH, setAdd_NoDup.
Qed.

Lemma hide_prefix (l : list A) (acc : list string) :
  exists more, fold_left (fun a m => setAdd (key m) a) l acc = acc ++ more.
Proof.
  revert acc; induction l as [|m rest IH]; intros acc; cbn.
  - exists []. now rewrite app_nil_r.
  - destruct (setAdd_prefix (key m) acc) as [more1 ->].
    destruct (IH (acc ++ more1)) as [more2 ->].
    exists (more1 ++ more2). now rewrite app_assoc.
Qed.

End Hide.

Lemma msgsToDelete_In (u : UserId) (groups : list Group) (messages : list ChatMessage)
  (deleted : list string) (target : string) (m : ChatMessage) :
  In m (msgsToDelete u groups messages deleted target) ->
  In m messages /\ ~ In (cm_id m) deleted.
Proof.
  unfold msgsToDelete. rewrite filter_In. intros [Hin Hp]. split; [exact Hin|].
  intros Hd. apply includesId_In in Hd. now rewrite Hd in Hp.
Qed.

(** What [getUnreadCount] counts in a chat is what [clearChatHistory] hides,
    when both take the chat for the same kind of chat. *)
Lemma relevant_is_cleared (u : UserId) (groups : list Group)
  (messages : list ChatMessage) (deleted : list string) (target : string)
  (m : ChatMessage) :
  target = "general" \/
  existsb (fun g => String.eqb (g_id g) target) groups = isGroupChatId target ->
  In m messages -> includesId deleted (cm_id m) = false ->
  isRelevant u target m = true ->
  In m (msgsToDelete u groups messages deleted target).
Proof.
  intros Hkind Hin Hdel Hrel. unfold msgsToDelete. apply filter_In.
  split; [exact Hin|]. rewrite Hdel. unfold isRelevant in Hrel.
  destruct (String.eqb target "general") eqn:Hg.
  - apply String.eqb_eq in Hg. subst target. cbn in Hrel.
    now apply andb_true_iff in Hrel as [Hrel _].
  - destruct Hkind as [->|Hkind]; [discriminate|]. rewrite Hkind.
    destruct (isGroupChatId target), (recipientIs m target),
      (String.eqb (cm_senderId m) target), (recipientIs m u),
      (String.eqb (cm_senderId m) u); cbn in *; congruence.
Qed.

(** X26: After [clearChatHistory] nothing of that chat is unread: when the
    chat is the general one, or is listed among the groups exactly when its
    id has the group prefix, the unread counter of the chat is 0 with the
    set of hidden messages the function leaves, whatever the read marks
    are and whether or not the insert succeeds. *)
Theorem clearChatHistory_leaves_nothing_unread (now : Z) (insertOk : bool)
  (me : option UserId) (groups : list Group) (messages : list ChatMessage)
  (deleted : list string) (ts : Timestamps) (target : string) :
  target = "general" \/
  existsb (fun g => String.eqb (g_id g) target) groups = isGroupChatId target ->
  getUnreadCount me messages
    (hiddenAfter deleted (clearChatHistory now insertOk me groups messages deleted target))
    ts target = 0%nat.
Proof.
  intros Hkind. destruct me as [u|]; [|reflexivity].
  unfold getUnreadCount. rewrite filter_none; [reflexivity|].
  intros m Hin.
  destruct (includesId (hiddenAfter deleted
              (clearChatHistory now insertOk (Some u) groups messages deleted target))
              (cm_id m)) eqn:Hh; [reflexivity|].
  destruct (isRelevant u target m) eqn:Hrel; [exfalso|reflexivity].
  assert (Hnot : ~ In (cm_id m) (hiddenAfter deleted
              (clearChatHistory now insertOk (Some u) groups messages deleted target))).
  { intros H. apply includesId_In in H. congruence. }
  assert (Hdel : includesId deleted (cm_id m) = false).
  { destruct (includesId deleted (cm_id m)) eqn:Hd; [|reflexivity].
    exfalso. apply Hnot. apply includesId_In in Hd.
    unfold clearChatHistory.
    destruct (msgsToDelete u groups messages deleted target) as [|x rest]; [exact Hd|].
    cbn [hiddenAfter deletedIds]. apply hide_In. now left. }
  pose proof (relevant_is_cleared u groups messages deleted target m Hkind Hin Hdel Hrel)
    as Hm.
  apply Hnot. unfold clearChatHistory.
  destruct (msgsToDelete u groups messages deleted target) as [|x rest] eqn:Hmsgs;
    [destruct Hm|].
  cbn [hiddenAfter deletedIds]. apply hide_In. right. now apply in_map.
Qed.

Lemma clearChatHistory_leaves_nothing_unread_witness :
  existsb (fun g => String.eqb (g_id g) "alice") [team] = isGroupChatId "alice" /\
  getUnreadCount (Some "bob") chatLog [] [] "alice" = 1%nat /\
  getUnreadCount (Some "bob") chatLog
    (hiddenAfter [] (clearChatHistory 99 true (Some "bob") [team] chatLog [] "alice"))
    [] "alice" = 0%nat.
Proof.
  split; [reflexivity|]. split; [reflexivity|].
  exact (clearChatHistory_leaves_nothing_unread 99 true (Some "bob") [team] chatLog []
           [] "alice" (or_intror eq_refl)).
Defined.

(** X27: [markChatRead] empties the counter of that chat when no message
    is newer than the clock, and leaves the counter of every other chat as
    it was. *)
Theorem markChatRead_resets_counter (now : Z) (me : option UserId)
  (messages : list ChatMessage) (deleted : list string) (ts : Timestamps)
  (chatId : string) :
  Forall (fun m => (cm_timestamp m <= now)%Z) messages ->
  getUnreadCount me messages deleted (markChatRead now chatId ts) chatId = 0%nat /\
  forall other, other <> chatId ->
    getUnreadCount me messages deleted (markChatRead now chatId ts) other
    = getUnreadCount me messages deleted ts other.
Proof.
  intros Hold. destruct me as [u|]; [|now split]. unfold getUnreadCount, markChatRead.
  split.
  - rewrite filter_none; [reflexivity|]. intros m Hin.
    destruct (includesId deleted (cm_id m)); [reflexivity|].
    unfold lastReadOf. rewrite ts_get_set_same.
    pose proof (proj1 (Forall_forall _ _) Hold m Hin) as Hm. cbn beta in Hm.
    assert (Hlt : Z.ltb now (cm_timestamp m) = false) by (apply Z.ltb_ge; lia).
    rewrite Hlt. apply andb_false_r.
  - intros other Hne. unfold lastReadOf. now rewrite ts_get_set_other.
Qed.

Lemma markChatRead_resets_counter_witness :
  Forall (fun m => (cm_timestamp m <= 50)%Z) chatLog /\
  getUnreadCount (Some "bob") chatLog [] (markChatRead 50 "g-7" []) "g-7" = 0%nat /\
  getUnreadCount (Some "bob") chatLog [] (markChatRead 50 "g-7" []) "alice" = 1%nat.
Proof.
  assert (Hold : Forall (fun m => (cm_timestamp m <= 50)%Z) chatLog)
    by (repeat constructor; cbn; lia).
  destruct (markChatRead_resets_counter 50 (Some "bob") chatLog [] [] "g-7" Hold)
    as [Hzero Hother].
  split; [exact Hold|]. split; [exact Hzero|].
  rewrite (Hother "alice"); [reflexivity|discriminate].
Defined.

Lemma clearChatHistory_Some (now : Z) (insertOk : bool) (u : UserId)
  (groups : list Group) (messages : list ChatMessage) (deleted : list string)
  (target : string) (c : Cleared) :
  clearChatHistory now insertOk (Some u) groups messages deleted target = Some c ->
  msgsToDelete u groups messages deleted target <> [] /\
  deletedIds c = fold_left (fun acc m => setAdd (cm_id m) acc)
                   (msgsToDelete u groups messages deleted target) deleted /\
  records c = map (fun m => mkDeletedRow u (cm_id m) now)
                (msgsToDelete u groups messages deleted target).
Proof.
  unfold clearChatHistory.
  destruct (msgsToDelete u groups messages deleted target) as [|x rest];
    [discriminate|].
  intros H. injection H as <-. split; [discriminate|]. split; reflexivity.
Qed.

(** X28: What [clearChatHistory] hides: the set of hidden ids is extended at
    its end and keeps every id it had, stays without repetition, and one
    row is handed to the insert for each message it hides, each for the
    current user and for a message of the list that was not hidden before;
    an id is new in the set exactly when a row names it. *)
Theorem clearChatHistory_extends_hidden_set (now : Z) (insertOk : bool) (u : UserId)
  (groups : list Group) (messages : list ChatMessage) (deleted : list string)
  (target : string) (c : Cleared) :
  NoDup deleted ->
  clearChatHistory now insertOk (Some u) groups messages deleted target = Some c ->
  (exists more, deletedIds c = deleted ++ more) /\
  NoDup (deletedIds c) /\
  records c <> [] /\
  (forall r, In r (records c) ->
     dr_user_id r = u /\ ~ In (dr_message_id r) deleted /\
     In (dr_message_id r) (map cm_id messages)) /\
  (forall id, In id (deletedIds c) /\ ~ In id deleted
              <-> In id (map dr_message_id (records c))).
Proof.
  intros Hnd Hc.
  destruct (clearChatHistory_Some _ _ _ _ _ _ _ _ Hc) as (Hne & -> & ->).
  assert (Hrec : forall id,
            In id (map dr_message_id
                     (map (fun m => mkDeletedRow u (cm_id m) now)
                        (msgsToDelete u groups messages deleted target)))
            <-> In id (map cm_id (msgsToDelete u groups messages deleted target))).
  { intros id. rewrite map_map. cbn. reflexivity. }
  split; [apply hide_prefix|]. split; [now apply hide_NoDup|].
  split; [now destruct (msgsToDelete u groups messages deleted target)|]. split.
  - intros r Hr. apply in_map_iff in Hr as (m & <- & Hm). cbn.
    apply msgsToDelete_In in Hm as [Hin Hnot].
    split; [reflexivity|]. split; [exact Hnot|now apply in_map].
  - intros id. rewrite Hrec, hide_In. split.
    + intros [[H|H] Hnot]; [contradiction|exact H].
    + intros H. split; [now right|].
      apply in_map_iff in H as (m & <- & Hm). now apply msgsToDelete_In in Hm.
Qed.

Lemma clearChatHistory_extends_hidden_set_witness :
  exists c, clearChatHistory 99 true (Some "bob") [team] chatLog ["m1"] "alice" = Some c /\
  deletedIds c = ["m1"; "m2"; "m4"] /\
  NoDup (deletedIds c) /\
  map dr_message_id (records c) = ["m2"; "m4"].
Proof.
  eexists. split; [reflexivity|].
  destruct (clearChatHistory_extends_hidden_set 99 true "bob" [team] chatLog ["m1"]
              "alice" _ (NoDup_cons "m1" (@in_nil _ "m1") (NoDup_nil _)) eq_refl)
    as (_ & Hnd & _).
  split; [reflexivity|]. split; [exact Hnd|reflexivity].
Defined.

(** * Properties of groups and projects *)

Lemma dedupe_In (l : list string) (x : string) : In x (dedupe l) <-> In x l.
Proof.
  unfold dedupe. rewrite (hide_In string (fun y => y)), map_id. cbn. tauto.
Qed.

Lemma dedupe_NoDup (l : list string) : NoDup (dedupe l).
Proof. unfold dedupe. apply (hide_NoDup string (fun y => y)). constructor. Qed.

(** X29: The group [createGroup] hands to the insert: its member list has
    no repetition, holds the creator and every requested member and nobody
    else; its id carries the prefix by which the unread counter tells a
    group chat from a direct one, and is not the id of the general chat;
    the id is returned exactly when the insert succeeds, and a failed
    insert is logged. *)
Theorem createGroup_members (now : Z) (insertOk : bool) (u : UserId) (name : string)
  (memberIds : list UserId) :
  exists g,
    gc_inserted (createGroup now insertOk (Some u) name memberIds) = Some g /\
    NoDup (g_memberIds g) /\ In u (g_memberIds g) /\
    (forall x, In x (g_memberIds g) <-> In x memberIds \/ x = u) /\
    g_createdBy g = u /\ g_name g = name /\
    isGroupChatId (g_id g) = true /\ g_id g <> "general" /\
    gc_result (createGroup now insertOk (Some u) name memberIds)
      = (if insertOk then Some (g_id g) else None) /\
    (gc_log (createGroup now insertOk (Some u) name memberIds) = [] <-> insertOk = true).
Proof.
  exists (mkGroup (groupIdAt now) name (dedupe (memberIds ++ [u])) u now).
  unfold createGroup. cbn [g_memberIds g_createdBy g_name g_id].
  split; [now destruct insertOk|]. split; [apply dedupe_NoDup|].
  split; [apply dedupe_In, in_app_iff; right; now left|].
  split; [intros x; rewrite dedupe_In, in_app_iff; cbn; intuition|].
  split; [reflexivity|]. split; [reflexivity|].
  split; [unfold isGroupChatId, groupIdAt; cbn;
          now destruct (NilZero.string_of_int (Z.to_int now))|].
  split; [discriminate|].
  split; [now destruct insertOk|].
  destruct insertOk; cbn; split; intros H; try reflexivity; discriminate.
Qed.

(** X30: [deleteProject] never loses another project and rolls back on
    failure.  When no list is refetched: every project with another id
    stays in the list in every case; when the deletion of the project
    succeeds the project is removed without an alert, even if the deletion
    of its tasks came back with an error; when a backend call is rejected
    or the deletion of the project fails, the list is the one before and
    the user is alerted. *)
Theorem deleteProject_rolls_back_on_failure (taskDelete projectDelete : DbReply)
  (projects : list Project) (id : string) :
  let r := deleteProject taskDelete projectDelete None projects id in
  (forall p, p_id p <> id -> (In p (fst r) <-> In p projects)) /\
  ((forall msg, taskDelete <> Rejected msg) -> projectDelete = Done ->
     (forall p, In p (fst r) <-> In p projects /\ p_id p <> id) /\
     forall msg, ~ In (EAlert msg) (snd r)) /\
  ((exists msg, taskDelete = Rejected msg) \/ projectDelete <> Done ->
     fst r = projects /\
     exists msg, In (EAlert ("Failed to delete project. " ++ messageOr msg)) (snd r)).
Proof.
  assert (Hfilter : forall p, In p (filter (fun p => negb (String.eqb (p_id p) id)) projects)
                              <-> In p projects /\ p_id p <> id).
  { intros p. rewrite filter_In, negb_true_iff, String.eqb_neq. reflexivity. }
  cbv zeta. split; [|split].
  - intros p Hp.
    destruct taskDelete, projectDelete; cbn -[filter]; rewrite ?Hfilter; tauto.
  - intros Htask ->. destruct taskDelete as [|msg|msg]; cbn -[filter].
    + split; [exact Hfilter|]. intros msg' [].
    + split; [exact Hfilter|]. intros msg' [H|[]]. discriminate.
    + now destruct (Htask msg).
  - intros Hfail.
    destruct taskDelete as [|tmsg|tmsg], projectDelete as [|pmsg|pmsg]; cbn -[filter];
      try (split; [reflexivity|]; eexists; cbn; eauto 6; fail).
    + destruct Hfail as [[msg H]|H]; [discriminate|now destruct H].
    + destruct Hfail as [[msg H]|H]; [discriminate|now destruct H].
Qed.

Lemma deleteProject_rolls_back_on_failure_witness :
  fst (deleteProject (Failed "timeout") Done None portfolio "p-1")
    = [mkProject "p-2" "App" "" ["bob"]] /\
  fst (deleteProject Done (Failed "") None portfolio "p-1") = portfolio /\
  exists msg, In (EAlert ("Failed to delete project. " ++ messageOr msg))
                 (snd (deleteProject Done (Failed "") None portfolio "p-1")).
Proof.
  split; [reflexivity|].
  destruct (deleteProject_rolls_back_on_failure Done (Failed "") portfolio "p-1")
    as (_ & _ & Hback).
  apply Hback. right. discriminate.
Defined.
